(** * mocha-testlink-reporter: a shallow embedding of the TestLink reporter

    The reporter class of the repository is embedded function by function.
    JavaScript numbers are IEEE binary64 values (primitive floats), option
    objects are finite maps from property names to values, titles are
    strings of 8-bit characters (the classes [\w] and [\d] of the pattern
    hold ASCII characters only, so a character outside ASCII is in neither,
    however it is encoded), and the promise chain is an explicit list of
    links that a small machine settles one at a time. *)

Set Warnings "-inexact-float".
From Stdlib Require Import Floats.PrimFloat.
From Stdlib Require Import Floats.SpecFloat Floats.FloatOps Floats.FloatAxioms.
From Stdlib Require Import Ascii String.
From Stdlib Require Import Sorted.
From stdpp Require Import base option list strings gmap.

Open Scope string_scope.

(** ** JavaScript values *)

(** The values that reach the reporter through options, ids and states. *)
Inductive jsval :=
| JUndefined
| JNull
| JBool (b : bool)
| JNum (x : float)
| JStr (s : string).

(** ToBoolean. *)
Definition truthy (v : jsval) : bool :=
  match v with
  | JUndefined | JNull => false
  | JBool b => b
  | JNum x => negb (PrimFloat.eqb x 0 || PrimFloat.is_nan x)
  | JStr s => negb (String.eqb s "")
  end.

(** The [===] operator. *)
Definition strict_eq (a b : jsval) : bool :=
  match a, b with
  | JUndefined, JUndefined => true
  | JNull, JNull => true
  | JBool x, JBool y => Bool.eqb x y
  | JNum x, JNum y => PrimFloat.eqb x y
  | JStr x, JStr y => String.eqb x y
  | _, _ => false
  end.

(** Property access on an object literal: a missing key reads [undefined]. *)
Definition prop (o : gmap string jsval) (k : string) : jsval :=
  default JUndefined (o !! k).

(** ToNumber on a value that is a number or [undefined]. *)
Definition ToNumber (d : option float) : float :=
  match d with
  | Some x => x
  | None => PrimFloat.nan
  end.

(** An Error object, as far as the reporter reads it. *)
Record Error := mkError { message : string; stack : string }.

(** ** The title pattern [/\[(\w+-\d+)\]/g] *)

Module Re.

Definition in_range (lo hi c : ascii) : bool :=
  (nat_of_ascii lo <=? nat_of_ascii c)%nat && (nat_of_ascii c <=? nat_of_ascii hi)%nat.

(** [\d] *)
Definition is_digit (c : ascii) : bool := in_range "0" "9" c.

(** [\w] *)
Definition is_word (c : ascii) : bool :=
  in_range "a" "z" c || in_range "A" "Z" c || is_digit c || Ascii.eqb c "_".

(** The nodes the pattern is made of. *)
Inductive node :=
| Char (c : ascii)
| PlusClass (cls : ascii -> bool)
| GroupOpen
| GroupClose.

(** [\[(\w+-\d+)\]] *)
Definition pattern : list node :=
  [Char "["; GroupOpen; PlusClass is_word; Char "-"; PlusClass is_digit;
   GroupClose; Char "]"].

(** The state of one match attempt: the index reached, where the group was
    opened, and the group's capture once it is closed. *)
Record MatchState := mkState {
  endIndex : nat;
  groupStart : nat;
  capture1 : option (nat * nat)
}.

Definition advance (x : MatchState) : MatchState :=
  mkState (S (endIndex x)) (groupStart x) (capture1 x).

Definition open_group (x : MatchState) : MatchState :=
  mkState (endIndex x) (endIndex x) (capture1 x).

Definition close_group (x : MatchState) : MatchState :=
  mkState (endIndex x) (groupStart x) (Some (groupStart x, endIndex x)).

(** The backtracking matcher: [input] is the rest of the subject at index
    [endIndex x]. A [+] is greedy: it takes one more character when it can
    and falls back to the rest of the pattern when that fails. *)
Fixpoint matchNodes (r : list node) : list ascii -> MatchState -> option MatchState :=
  match r with
  | [] => fun _ x => Some x
  | Char c :: r' => fun input x =>
      match input with
      | ch :: rest => if Ascii.eqb ch c then matchNodes r' rest (advance x) else None
      | [] => None
      end
  | GroupOpen :: r' => fun input x => matchNodes r' input (open_group x)
  | GroupClose :: r' => fun input x => matchNodes r' input (close_group x)
  | PlusClass cls :: r' =>
      fix plus (input : list ascii) (x : MatchState) : option MatchState :=
        match input with
        | ch :: rest =>
            if cls ch then
              match plus rest (advance x) with
              | Some y => Some y
              | None => matchNodes r' rest (advance x)
              end
            else None
        | [] => None
        end
  end.

(** One successful match: where it starts and what it reached. *)
Record Match := mkMatch { index : nat; found : MatchState }.

(** RegExpBuiltinExec for a global pattern: try [lastIndex], then every
    later index up to the end of the subject. [input] is the subject from
    [lastIndex] on. *)
Fixpoint exec_from (input : list ascii) (lastIndex : nat) : option Match :=
  match matchNodes pattern input (mkState lastIndex 0 None) with
  | Some y => Some (mkMatch lastIndex y)
  | None =>
      match input with
      | [] => None
      | _ :: rest => exec_from rest (S lastIndex)
      end
  end.

Definition exec (subject : list ascii) (lastIndex : nat) : option Match :=
  if (lastIndex <=? length subject)%nat
  then exec_from (drop lastIndex subject) lastIndex
  else None.

(** The iterator of [String.prototype.matchAll]: each round executes the
    pattern at [lastIndex]; the next round starts where the match ended,
    one further when the match was empty. [fuel] bounds the rounds. *)
Fixpoint matchAll_loop (fuel : nat) (subject : list ascii) (lastIndex : nat) : list Match :=
  match fuel with
  | O => []
  | S fuel' =>
      match exec subject lastIndex with
      | None => []
      | Some m =>
          let e := endIndex (found m) in
          let next := if (e =? index m)%nat then S e else e in
          m :: matchAll_loop fuel' subject next
      end
  end.

Definition matchAll (subject : list ascii) : list Match :=
  matchAll_loop (S (length subject)) subject 0.

(** [match[1]]: the text of the capture group. *)
Definition group1 (subject : list ascii) (m : Match) : list ascii :=
  match capture1 (found m) with
  | Some (s, e) => take (e - s) (drop s subject)
  | None => []
  end.

End Re.

(** [titleToCaseIds] *)
Definition titleToCaseIds (title : string) : list string :=
  let subject := list_ascii_of_string title in
  map (fun m => string_of_list_ascii (Re.group1 subject m)) (Re.matchAll subject).


(** The claim's reading of the pattern: at index [i] of the subject stands
    an opening bracket, one or more word characters, a hyphen, one or more
    digits and a closing bracket; [tok] is what the brackets enclose. *)
Definition token_at (subject : list ascii) (i : nat) (tok : list ascii) : Prop :=
  exists pre w d post,
    subject = (pre ++ "["%char :: w ++ "-"%char :: d ++ "]"%char :: post)%list /\
    length pre = i /\
    w <> [] /\ Forall (fun c => Re.is_word c = true) w /\
    d <> [] /\ Forall (fun c => Re.is_digit c = true) d /\
    tok = (w ++ "-"%char :: d)%list.

(** Notions used to reason about the matcher. *)
Module ReAux.
Import Re.
Local Open Scope list_scope.

Definition shift (n : nat) (x : MatchState) : MatchState :=
  mkState (n + endIndex x) (groupStart x) (capture1 x).

(** The input does not go on with a character of the class. *)
Definition stops (cls : ascii -> bool) (input : list ascii) : Prop :=
  match input with
  | [] => True
  | c :: _ => cls c = false
  end.

(** The text of a token between its brackets, and what one match attempt
    at index [i] reaches on it. *)
Definition well_formed (w d : list ascii) : Prop :=
  w <> [] /\ Forall (fun c => is_word c = true) w /\
  d <> [] /\ Forall (fun c => is_digit c = true) d.

Definition reached (i : nat) (w d : list ascii) : MatchState :=
  mkState (length d + (length w + S (S (S i)))) (S i)
          (Some (S i, length d + (length w + S (S i)))).

(** One match attempt at index [i] of the subject. *)
Definition attempt (subject : list ascii) (i : nat) : option MatchState :=
  matchNodes pattern (drop i subject) (mkState i 0 None).

(** The matches from [p] on are the tokens from [p] on, in order. *)
Definition tokens_from (subject : list ascii) (p : nat)
    (ms : list (nat * list ascii)) : Prop :=
  StronglySorted lt (map fst ms) /\
  (forall i tok, In (i, tok) ms <-> p <= i /\ token_at subject i tok).

End ReAux.

(** ** Collaborators *)

(** testlink-xmlrpc/lib/constants: the execution statuses. *)
Inductive ExecutionStatus := NOT_RUN | PASSED | FAILED | BLOCKED.

(** mocha.Runnable.constants *)
Definition STATE_PASSED : jsval := JStr "passed".

(** A mocha test as the reporter reads it; a test that never ran has no
    duration. *)
Record Test := mkTest {
  test_title : string;
  state : jsval;
  duration : option float;
  err : option Error
}.

Record Suite := mkSuite { suite_title : string; tests : list Test }.

(** One element of a TestLink response array. *)
Record Entity := mkEntity { id : jsval; prefix : jsval }.

(** ** Result records *)

Record Step := mkStep {
  step_number : nat;
  result : ExecutionStatus;
  step_notes : string
}.

Record Options := mkOptions {
  testcaseexternalid : string;
  testplanid : jsval;
  status : ExecutionStatus;
  buildid : jsval;
  execduration : float;
  notes : option string;
  steps : list Step
}.

(** The fields of the reporter that its methods read and assign. *)
Record This := mkThis {
  this_testplanid : jsval;
  this_buildid : jsval;
  this_testproject : option Entity
}.

(** [suiteOptions] *)
Definition suiteOptions (this : This) (testcaseexternalid : string) (suite : Suite) : Options :=
  let status :=
    if existsb (fun t => negb (strict_eq (state t) STATE_PASSED)) (tests suite)
    then FAILED else PASSED in
  let execduration :=
    (fold_left (fun acc t => acc + ToNumber (duration t)) (tests suite) 0 / 60000)%float in
  let steps :=
    imap (fun idx t =>
            mkStep (idx + 1)
                   (if negb (strict_eq (state t) STATE_PASSED) then FAILED else PASSED)
                   (match err t with Some e => stack e | None => "" end))
         (tests suite) in
  mkOptions testcaseexternalid (this_testplanid this) status (this_buildid this)
            execduration None steps.

(** [tcOptions] *)
Definition tcOptions (this : This) (testcaseexternalid : string)
    (duration : option float) (err : option Error) : Options :=
  let status := match err with Some _ => FAILED | None => PASSED end in
  let notes := match err with Some e => stack e | None => "" end in
  mkOptions testcaseexternalid (this_testplanid this) status (this_buildid this)
            (ToNumber duration / 60000)%float (Some notes) [].

(** ** Reporter options *)

(** The loop over the required option names: the first falsy one throws. *)
Fixpoint check_required (options : gmap string jsval) (names : list string) : option Error :=
  match names with
  | [] => None
  | opt :: names' =>
      if negb (truthy (prop options opt))
      then Some (mkError ("Missing " ++ opt ++ " option in --reporter-options") "")
      else check_required options names'
  end.

(** [validateReporterOptions]: the error thrown, if any. *)
Definition validateReporterOptions (options : option (gmap string jsval)) : option Error :=
  match options with
  | None => Some (mkError "Missing --reporter-options" "")
  | Some options =>
      if negb (truthy (prop options "testplanid") && truthy (prop options "buildid"))
         && negb (truthy (prop options "prefix"))
      then Some (mkError "Either testplanid or prefix must be specified in --reporter-options" "")
      else check_required options ["URL"; "apiKey"]
  end.

(** An option that the options object does not have; without an options
    object every option is absent. *)
Definition absent (options : option (gmap string jsval)) (k : string) : Prop :=
  match options with
  | None => True
  | Some o => o !! k = None
  end.

(** ** The TestLink client *)

Module TestLink.

(** The calls the reporter makes, with their arguments. *)
Inductive call :=
| checkDevKey
| createTestPlan (testplanname : string) (prefix : jsval)
| createBuild (testplanid : jsval) (buildname buildnotes : string)
              (active open : bool) (releasedate : string)
| getProjects
| addTestCaseToTestPlan (testprojectid testplanid : jsval)
                        (testcaseexternalid : string) (version : nat)
| reportTCResult (options : Options).

(** How the promise of a call settles. *)
Inductive outcome :=
| Resolved (v : list Entity)
| Rejected (e : Error).

(** What [new TestLink({...})] is given. *)
Record connection := mkConnection {
  host : string;
  port : string;
  secure : bool;
  apiKey : jsval
}.

End TestLink.

(** What [new URL(...)] exposes. *)
Record URL := mkURL { hostname : string; url_port : string; protocol : string }.

(** ** Asynchronous functions *)

(** The body of an [async] function: it reads and assigns the reporter's
    fields, reads the clock, awaits client calls, and returns or throws. An
    awaited call that rejects makes the function reject, there is no [try]
    in the source. *)
Inductive prog (A : Type) : Type :=
| Ret (a : A)
| Throw (e : Error)
| GetThis (k : This -> prog A)
| SetThis (this : This) (k : prog A)
| Now (k : string -> prog A)
| Await (c : TestLink.call) (k : list Entity -> prog A).

Arguments Ret {A} a.
Arguments Throw {A} e.
Arguments GetThis {A} k.
Arguments SetThis {A} this k.
Arguments Now {A} k.
Arguments Await {A} c k.

Fixpoint prog_bind {A B : Type} (f : A -> prog B) (p : prog A) : prog B :=
  match p with
  | Ret a => f a
  | Throw e => Throw e
  | GetThis k => GetThis (fun this => prog_bind f (k this))
  | SetThis this k => SetThis this (prog_bind f k)
  | Now k => Now (fun t => prog_bind f (k t))
  | Await c k => Await c (fun v => prog_bind f (k v))
  end.

#[global] Instance prog_mret : MRet prog := @Ret.
#[global] Instance prog_mbind : MBind prog := @prog_bind.

(** Where a synchronous stretch of an [async] function ends. *)
Inductive suspended :=
| Returned
| Threw (e : Error)
| Awaiting (c : TestLink.call) (k : list Entity -> prog unit).

(** Run an [async] function up to its next [await], its return or its
    throw. *)
Fixpoint run_sync (now : string) (p : prog unit) (this : This) : This * suspended :=
  match p with
  | Ret _ => (this, Returned)
  | Throw e => (this, Threw e)
  | GetThis k => run_sync now (k this) this
  | SetThis this' k => run_sync now k this'
  | Now k => run_sync now (k now) this
  | Await c k => (this, Awaiting c k)
  end.

Definition getThis : prog This := GetThis Ret.
Definition setThis (this : This) : prog unit := SetThis this (Ret tt).
Definition toISOString : prog string := Now Ret.
Definition await (c : TestLink.call) : prog (list Entity) := Await c Ret.

(** [res[0].id]: reading [id] of [undefined] throws a TypeError. *)
Definition first_id (res : list Entity) : prog jsval :=
  match res with
  | e :: _ => Ret (id e)
  | [] => Throw (mkError "Cannot read properties of undefined (reading 'id')" "")
  end.

(** The step [publishTestResults] chains for one case id. *)
Definition publishStep (optionsGen : This -> string -> Options) (caseId : string) : prog unit :=
  this ← getThis;
  let options := optionsGen this caseId in
  this ← getThis;
  _ ← match this_testproject this with
      | Some testproject =>
          _ ← await (TestLink.addTestCaseToTestPlan
                       (id testproject) (this_testplanid this)
                       (testcaseexternalid options) 1);
          Ret tt
      | None => Ret tt
      end;
  _ ← await (TestLink.reportTCResult options);
  Ret tt.

(** The step [createTestPlan] chains when no plan id is configured. *)
Definition provisionStep (options : gmap string jsval) : prog unit :=
  date ← toISOString;
  planRes ← await (TestLink.createTestPlan
                     ("Automated test plan " ++ date) (prop options "prefix"));
  planId ← first_id planRes;
  this ← getThis;
  _ ← setThis (mkThis planId (this_buildid this) (this_testproject this));
  this ← getThis;
  buildRes ← await (TestLink.createBuild
                      (this_testplanid this) "automated build" "" true true "");
  buildId ← first_id buildRes;
  this ← getThis;
  _ ← setThis (mkThis (this_testplanid this) buildId (this_testproject this));
  projects ← await TestLink.getProjects;
  this ← getThis;
  setThis (mkThis (this_testplanid this) (this_buildid this)
             (find (fun p => strict_eq (prefix p) (prop options "prefix")) projects)).

(** ** The promise chain *)

(** Bookkeeping that the source does not hold: which event attached a step
    (0 is the constructor) and what the fields were at that moment. *)
Record origin := mkOrigin { seq : nat; enqueued_with : This }.

(** A link of the chain: [.then(step)] or [.catch(console.error)]. *)
Inductive link :=
| LThen (o : origin) (step : prog unit)
| LCatch.

Inductive settlement :=
| Fulfilled
| RejectedWith (e : Error).

(** The promise the next link hangs on: still running a step that awaits the
    call issued last (with the fields the step started with), or settled. *)
Inductive chain_head :=
| InFlight (o : origin) (started_with : This) (k : list Entity -> prog unit)
| Settled (s : settlement).

(** What the client sees, oldest first. *)
Inductive entry :=
| Issued (o : origin) (started_with : This) (c : TestLink.call)
| Answered (r : TestLink.outcome).

Record Reporter := mkReporter {
  reporterOptions : gmap string jsval;
  this : This;
  head : chain_head;
  promiseChain : list link;
  begun : bool;
  wire : list entry;
  console : list Error;
  emitted : nat;
  started : list origin;
  skipped : list origin
}.

Definition with_this (t : This) (r : Reporter) : Reporter :=
  mkReporter (reporterOptions r) t (head r) (promiseChain r) (begun r) (wire r)
             (console r) (emitted r) (started r) (skipped r).

(** [this.promiseChain = this.promiseChain.then(step).catch(console.error)] *)
Definition chain (step : prog unit) (r : Reporter) : Reporter :=
  mkReporter (reporterOptions r) (this r) (head r)
             (promiseChain r ++ [LThen (mkOrigin (emitted r) (this r)) step; LCatch])
             (begun r) (wire r) (console r) (emitted r) (started r) (skipped r).

(** [publishTestResults] *)
Definition publishTestResults (title : string) (optionsGen : This -> string -> Options)
    (r : Reporter) : Reporter :=
  fold_left (fun r caseId => chain (publishStep optionsGen caseId) r)
            (titleToCaseIds title) r.

(** [createTestPlan] *)
Definition createTestPlan (options : gmap string jsval) (r : Reporter) : Reporter :=
  if truthy (prop options "testplanid")
  then with_this (mkThis (prop options "testplanid") (prop options "buildid")
                         (this_testproject (this r))) r
  else chain (provisionStep options) r.

(** ** The runner's events *)

Inductive event :=
| EVENT_RUN_BEGIN
| EVENT_SUITE_END (suite : Suite)
| EVENT_TEST_PASS (test : Test)
| EVENT_TEST_FAIL (test : Test) (err : Error).

Definition count_event (r : Reporter) : Reporter :=
  mkReporter (reporterOptions r) (this r) (head r) (promiseChain r) (begun r)
             (wire r) (console r) (S (emitted r)) (started r) (skipped r).

Definition mark_begun (r : Reporter) : Reporter :=
  mkReporter (reporterOptions r) (this r) (head r) (promiseChain r) true
             (wire r) (console r) (emitted r) (started r) (skipped r).

(** The four listeners the constructor registers; the first is registered
    with [once]. *)
Definition listener (ev : event) (r : Reporter) : Reporter :=
  match ev with
  | EVENT_RUN_BEGIN =>
      if begun r then r else createTestPlan (reporterOptions r) (mark_begun r)
  | EVENT_SUITE_END suite =>
      publishTestResults (suite_title suite)
        (fun this caseId => suiteOptions this caseId suite) r
  | EVENT_TEST_PASS test =>
      publishTestResults (test_title test)
        (fun this caseId => tcOptions this caseId (duration test) None) r
  | EVENT_TEST_FAIL test err =>
      publishTestResults (test_title test)
        (fun this caseId => tcOptions this caseId (duration test) (Some err)) r
  end.

Definition emit (ev : event) (r : Reporter) : Reporter :=
  listener ev (count_event r).

(** ** Settling the chain *)

(** A step ran up to [s]: either the chain's promise settles, or the call
    the step awaits goes out. *)
Definition suspend (o : origin) (started_with : This) (rest : list link)
    (ts : This * suspended) (r : Reporter) : Reporter :=
  match ts with
  | (t, Returned) =>
      mkReporter (reporterOptions r) t (Settled Fulfilled) rest (begun r)
                 (wire r) (console r) (emitted r) (started r) (skipped r)
  | (t, Threw e) =>
      mkReporter (reporterOptions r) t (Settled (RejectedWith e)) rest (begun r)
                 (wire r) (console r) (emitted r) (started r) (skipped r)
  | (t, Awaiting c k) =>
      mkReporter (reporterOptions r) t (InFlight o started_with k) rest (begun r)
                 (wire r ++ [Issued o started_with c]) (console r) (emitted r)
                 (started r) (skipped r)
  end.

Definition answer (a : TestLink.outcome) (r : Reporter) : Reporter :=
  mkReporter (reporterOptions r) (this r) (head r) (promiseChain r) (begun r)
             (wire r ++ [Answered a]) (console r) (emitted r) (started r) (skipped r).

(** The call in flight settles: the step that awaits it goes on, or rejects
    with the call's error. *)
Definition settle (now : string) (a : TestLink.outcome) (r : Reporter) : Reporter :=
  match head r with
  | InFlight o started_with k =>
      match a with
      | TestLink.Resolved v =>
          suspend o started_with (promiseChain r) (run_sync now (k v) (this r)) (answer a r)
      | TestLink.Rejected e =>
          suspend o started_with (promiseChain r) (this r, Threw e) (answer a r)
      end
  | Settled _ => r
  end.

(** The settled promise reaches its next link: [then] runs its step on
    fulfilment and passes a rejection on, [catch] hands a rejection to
    [console.error] and is fulfilled. *)
Definition tick (now : string) (r : Reporter) : Reporter :=
  match head r, promiseChain r with
  | Settled Fulfilled, LThen o step :: rest =>
      suspend o (this r) rest (run_sync now step (this r))
        (mkReporter (reporterOptions r) (this r) (head r) (promiseChain r) (begun r)
                    (wire r) (console r) (emitted r) (started r ++ [o]) (skipped r))
  | Settled (RejectedWith e), LThen o step :: rest =>
      mkReporter (reporterOptions r) (this r) (head r) rest (begun r)
                 (wire r) (console r) (emitted r) (started r) (skipped r ++ [o])
  | Settled Fulfilled, LCatch :: rest =>
      mkReporter (reporterOptions r) (this r) (head r) rest (begun r)
                 (wire r) (console r) (emitted r) (started r) (skipped r)
  | Settled (RejectedWith e), LCatch :: rest =>
      mkReporter (reporterOptions r) (this r) (Settled Fulfilled) rest (begun r)
                 (wire r) (console r ++ [e]) (emitted r) (started r) (skipped r)
  | _, _ => r
  end.

(** What can happen next: the runner emits an event, the call in flight
    settles, or the chain moves to its next link. *)
Inductive label :=
| Emit (ev : event)
| Settle (now : string) (a : TestLink.outcome)
| Tick (now : string).

Definition step (l : label) (r : Reporter) : Reporter :=
  match l with
  | Emit ev => emit ev r
  | Settle now a => settle now a r
  | Tick now => tick now r
  end.

Definition run (ls : list label) (r : Reporter) : Reporter :=
  fold_left (fun r l => step l r) ls r.

(** ** Construction *)

Definition this0 : This := mkThis JUndefined JUndefined None.

(** The constructor runs before any event: its steps carry number 0. *)
Definition origin0 : origin := mkOrigin 0 this0.

(** A constructor statement: given the calls that went out so far, it throws
    or yields a value, and returns the calls that went out by then. *)
Definition ctor (A : Type) : Type := list entry -> (Error + A) * list entry.

Definition ctor_ret {A : Type} (a : A) : ctor A := fun w => (inr a, w).

Definition ctor_bind {A B : Type} (m : ctor A) (f : A -> ctor B) : ctor B :=
  fun w =>
    match m w with
    | (inl e, w') => (inl e, w')
    | (inr a, w') => f a w'
    end.

Definition throw {A : Type} (e : Error) : ctor A := fun w => (inl e, w).

Definition issue (c : TestLink.call) : ctor unit :=
  fun w => (inr tt, (w ++ [Issued origin0 this0 c])%list).

Definition issued_so_far : ctor (list entry) := fun w => (inr w, w).

Section Construction.

(** The URL parser of the platform; [None] is its TypeError. *)
Variable parseURL : jsval -> option URL.

(** [establishTestLinkConnection] *)
Definition establishTestLinkConnection (options : gmap string jsval)
    : ctor TestLink.connection :=
  match parseURL (prop options "URL") with
  | None => throw (mkError "Invalid URL" "")
  | Some url =>
      ctor_ret (TestLink.mkConnection (hostname url) (url_port url)
                  (String.eqb (protocol url) "https:") (prop options "apiKey"))
  end.

(** [constructor], after [super(runner, options)]: validation, the
    connection, then [checkDevKey().catch(console.error)] as the head of
    the chain. The listeners are [listener] above. *)
Definition constructor (reporterOptions : option (gmap string jsval))
    : ctor (TestLink.connection * Reporter) :=
  ctor_bind (match validateReporterOptions reporterOptions with
             | Some e => throw e
             | None => ctor_ret tt
             end) (fun _ =>
  ctor_bind (match reporterOptions with
             | Some options => ctor_ret options
             | None => throw (mkError "Cannot read properties of undefined" "")
             end) (fun options =>
  ctor_bind (establishTestLinkConnection options) (fun testlink =>
  ctor_bind (issue TestLink.checkDevKey) (fun _ =>
  ctor_bind issued_so_far (fun w =>
  ctor_ret (testlink,
            mkReporter options this0
                       (InFlight origin0 this0 (fun _ => Ret tt))
                       [LCatch] false w [] 0 [] [])))))).

End Construction.

(** The reporter a successful construction yields. *)
Definition fresh (options : gmap string jsval) : Reporter :=
  mkReporter options this0 (InFlight origin0 this0 (fun _ => Ret tt))
             [LCatch] false [Issued origin0 this0 TestLink.checkDevKey] [] 0 [] [].

(** ** Reading the wire and the chain *)

(** The number of the event a call was issued for. *)
Definition entry_seq (e : entry) : option nat :=
  match e with
  | Issued o _ _ => Some (seq o)
  | Answered _ => None
  end.

(** The call of an entry that is one. *)
Definition entry_call (e : entry) : option TestLink.call :=
  match e with
  | Issued _ _ c => Some c
  | Answered _ => None
  end.

Definition link_seq (l : link) : option nat :=
  match l with
  | LThen o _ => Some (seq o)
  | LCatch => None
  end.

Definition head_seq (h : chain_head) : list nat :=
  match h with
  | InFlight o _ _ => [seq o]
  | Settled _ => []
  end.

(** The event numbers of the calls issued, of the step that runs and of the
    steps that wait, in this order. *)
Definition seqs (r : Reporter) : list nat :=
  omap entry_seq (wire r) ++ head_seq (head r) ++ omap link_seq (promiseChain r).

Definition is_issued (e : entry) : bool :=
  match e with
  | Issued _ _ _ => true
  | Answered _ => false
  end.

Definition in_flight (h : chain_head) : bool :=
  match h with
  | InFlight _ _ _ => true
  | Settled _ => false
  end.

(** Calls go out in the order of the events they were chained for, and no
    call is chained for an event that has not happened. *)
Definition ordered (r : Reporter) : Prop :=
  StronglySorted le (seqs r) /\ Forall (fun n => n <= emitted r) (seqs r).

(** Calls and answers take turns on the wire, a call first; the chain runs a
    step exactly when the last call has no answer yet. *)
Definition alternates (w : list entry) : Prop :=
  forall i e, w !! i = Some e -> is_issued e = Nat.even i.

Definition one_at_a_time (r : Reporter) : Prop :=
  alternates (wire r) /\ Nat.even (length (wire r)) = negb (in_flight (head r)).

(** ** What the chained steps may do *)

(** The options generators the three result listeners hand over. *)
Inductive listener_gen : (This -> string -> Options) -> Prop :=
| gen_suite (suite : Suite) :
    listener_gen (fun this caseId => suiteOptions this caseId suite)
| gen_pass (test : Test) :
    listener_gen (fun this caseId => tcOptions this caseId (duration test) None)
| gen_fail (test : Test) (err : Error) :
    listener_gen (fun this caseId => tcOptions this caseId (duration test) (Some err)).

(** The call that is in flight. *)
Definition awaited (r : Reporter) : option TestLink.call :=
  match head r, last (wire r) with
  | InFlight _ _ _, Some (Issued _ _ c) => Some c
  | _, _ => None
  end.

Section Obeys.

Local Open Scope list_scope.

(** [I] relates the wire and the fields whenever no step is running, [R]
    bounds what the client may resolve a call with, [C] is what must hold of
    a call when it goes out: of the wire before it, of the step's origin and
    of the fields the step started with. *)
Variable I : list entry -> This -> Prop.
Variable R : TestLink.call -> list Entity -> Prop.
Variable C : list entry -> origin -> This -> TestLink.call -> Prop.

(** A step started by [o] with fields [st] keeps to [I], [R] and [C] from
    the wire [w] and the fields [this] on; while it awaits a call the
    listeners may have changed the fields. *)
Fixpoint obeys (o : origin) (st : This) (p : prog unit) (w : list entry) (this : This) : Prop :=
  match p with
  | Ret _ => I w this
  | Throw _ => I w this
  | GetThis k => obeys o st (k this) w this
  | SetThis t k => obeys o st k w t
  | Now k => forall now, obeys o st (k now) w this
  | Await c k =>
      C w o st c /\ I (w ++ [Issued o st c]) this /\
      forall v this', R c v -> I (w ++ [Issued o st c]) this' ->
        obeys o st (k v) ((w ++ [Issued o st c]) ++ [Answered (TestLink.Resolved v)]) this'
  end.

(** What a synchronous stretch of an obedient step leaves. *)
Definition stretch_ok (o : origin) (st : This) (w : list entry) (ts : This * suspended) : Prop :=
  match ts with
  | (t, Returned) => I w t
  | (t, Threw _) => I w t
  | (t, Awaiting c k) =>
      C w o st c /\ I (w ++ [Issued o st c]) t /\
      forall v this', R c v -> I (w ++ [Issued o st c]) this' ->
        obeys o st (k v) ((w ++ [Issued o st c]) ++ [Answered (TestLink.Resolved v)]) this'
  end.

Definition obedient (l : link) : Prop :=
  match l with
  | LThen o p => forall w st, I w st -> obeys o st p w st
  | LCatch => True
  end.

Definition safe (options : gmap string jsval) (r : Reporter) : Prop :=
  reporterOptions r = options /\
  I (wire r) (this r) /\
  Forall obedient (promiseChain r) /\
  match head r with
  | InFlight o st k =>
      exists w c, wire r = w ++ [Issued o st c] /\
        forall v this', R c v -> I (wire r) this' ->
          obeys o st (k v) (wire r ++ [Answered (TestLink.Resolved v)]) this'
  | Settled _ => True
  end /\
  (forall j o st c, wire r !! j = Some (Issued o st c) -> C (take j (wire r)) o st c).

(** The answers of a run keep to [R]. *)
Fixpoint respects (ls : list label) (r : Reporter) : Prop :=
  match ls with
  | [] => True
  | l :: ls' =>
      match l with
      | Settle _ (TestLink.Resolved v) => forall c, awaited r = Some c -> R c v
      | _ => True
      end /\ respects ls' (step l r)
  end.

End Obeys.

(** ** What the wire says about provisioning *)

(** The plan id the provisioning step has assigned, read off the wire from
    its latest entry backwards: the id of the first element of the latest
    non-empty answer to [createTestPlan]; likewise the build id. *)
Fixpoint provisioned_plan (latest_first : list entry) : jsval :=
  match latest_first with
  | [] => JUndefined
  | Answered (TestLink.Resolved (e :: _)) :: (Issued _ _ (TestLink.createTestPlan _ _) :: _) => id e
  | _ :: earlier => provisioned_plan earlier
  end.

Fixpoint provisioned_build (latest_first : list entry) : jsval :=
  match latest_first with
  | [] => JUndefined
  | Answered (TestLink.Resolved (e :: _)) :: (Issued _ _ (TestLink.createBuild _ _ _ _ _ _) :: _) => id e
  | _ :: earlier => provisioned_build earlier
  end.

(** Whether an entry is the call that creates the plan, or the build. *)
Definition is_createTestPlan (x : entry) : bool :=
  match x with
  | Issued _ _ (TestLink.createTestPlan _ _) => true
  | _ => false
  end.

Definition is_createBuild (x : entry) : bool :=
  match x with
  | Issued _ _ (TestLink.createBuild _ _ _ _ _ _) => true
  | _ => false
  end.

(** ** Draining the chain *)

(** The steps of a chain, in the order they were chained. *)
Definition link_origin (l : link) : option origin :=
  match l with
  | LThen o _ => Some o
  | LCatch => None
  end.

(** Every [then] is followed by its [catch]. *)
Inductive paired : list link -> Prop :=
| paired_nil : paired []
| paired_cons (o : origin) (p : prog unit) (ch : list link) :
    paired ch -> paired (LThen o p :: LCatch :: ch).

(** A promise that runs or is rejected has a [catch] as its next link. *)
Definition guarded (r : Reporter) : Prop :=
  skipped r = [] /\
  match head r with
  | Settled Fulfilled =>
      paired (promiseChain r) \/
      exists ch, promiseChain r = LCatch :: ch /\ paired ch
  | _ => exists ch, promiseChain r = LCatch :: ch /\ paired ch
  end.

(** The world outside: how the client answers the call in flight and what
    the clock reads, given what went over the wire so far. *)
Record env := mkEnv {
  answer_of : list entry -> TestLink.outcome;
  clock_of : list entry -> string
}.

(** With no more events, what happens next: the call in flight settles, or
    the chain moves on; nothing when the chain is used up. *)
Definition next_label (e : env) (r : Reporter) : option label :=
  match head r with
  | InFlight _ _ _ => Some (Settle (clock_of e (wire r)) (answer_of e (wire r)))
  | Settled _ =>
      match promiseChain r with
      | [] => None
      | _ :: _ => Some (Tick (clock_of e (wire r)))
      end
  end.

Fixpoint drain (e : env) (fuel : nat) (r : Reporter) : Reporter :=
  match fuel with
  | O => r
  | S fuel' =>
      match next_label e r with
      | None => r
      | Some l => drain e fuel' (step l r)
      end
  end.

(** ** A run with auto-provisioning *)

(** Options with a prefix and no plan id. *)
Definition xpj_options : gmap string jsval :=
  <["URL" := JStr "http://localhost/lib/api/xmlrpc/v1/xmlrpc.php"]>
    (<["apiKey" := JStr "6bfa04dbfbc5463925786ef48d1793d4"]>
       (<["prefix" := JStr "XPJ"]> ∅)).

Definition xpj_test : Test :=
  mkTest "does X [XPJ-5]" STATE_PASSED (Some 1200%float) None.

(** The run begins and a test passes while [checkDevKey] is still in flight;
    then the chain settles link by link: the plan gets id 7, the build id 9,
    the project with prefix XPJ is found, the case is added to the plan and
    its result is reported. *)
Definition xpj_run : list label :=
  [Emit EVENT_RUN_BEGIN;
   Emit (EVENT_TEST_PASS xpj_test);
   Settle "2020-01-01T00:00:00.000Z" (TestLink.Resolved []);
   Tick "2020-01-01T00:00:00.001Z";
   Tick "2020-01-01T00:00:00.002Z";
   Settle "2020-01-01T00:00:00.003Z" (TestLink.Resolved [mkEntity (JNum 7) JUndefined]);
   Settle "2020-01-01T00:00:00.004Z" (TestLink.Resolved [mkEntity (JNum 9) JUndefined]);
   Settle "2020-01-01T00:00:00.005Z" (TestLink.Resolved [mkEntity (JNum 1) (JStr "XPJ")]);
   Tick "2020-01-01T00:00:00.006Z";
   Tick "2020-01-01T00:00:00.007Z";
   Settle "2020-01-01T00:00:00.008Z" (TestLink.Resolved []);
   Settle "2020-01-01T00:00:00.009Z" (TestLink.Resolved []);
   Tick "2020-01-01T00:00:00.010Z"].

(** ** A run with a plan from the options *)

Definition plan_options : gmap string jsval :=
  <["URL" := JStr "http://localhost/lib/api/xmlrpc/v1/xmlrpc.php"]>
    (<["apiKey" := JStr "6bfa04dbfbc5463925786ef48d1793d4"]>
       (<["testplanid" := JStr "14"]> (<["buildid" := JStr "1"]> ∅))).

Definition plan_run : list label :=
  [Emit EVENT_RUN_BEGIN;
   Emit (EVENT_TEST_PASS xpj_test);
   Settle "2020-01-01T00:00:00.000Z" (TestLink.Resolved []);
   Tick "2020-01-01T00:00:00.001Z";
   Tick "2020-01-01T00:00:00.002Z";
   Settle "2020-01-01T00:00:00.003Z" (TestLink.Resolved []);
   Tick "2020-01-01T00:00:00.004Z"].

(** ** Runs without a matching project *)

(** The fields are what the wire says, and no project is resolved. *)
Definition as_provisioned (w : list entry) (t : This) : Prop :=
  this_testproject t = None /\
  this_testplanid t = provisioned_plan (rev w) /\
  this_buildid t = provisioned_build (rev w).

(** No project that [getProjects] resolves with has the configured prefix. *)
Definition no_match (options : gmap string jsval) (c : TestLink.call) (v : list Entity) : Prop :=
  c = TestLink.getProjects ->
  find (fun p => strict_eq (prefix p) (prop options "prefix")) v = None.

(** The step that makes the call started without a project, the call adds no
    case to a plan, and a result carries the provisioned ids. *)
Definition report_provisioned (w : list entry) (o : origin) (st : This)
    (c : TestLink.call) : Prop :=
  this_testproject st = None /\
  (forall a b d e, c <> TestLink.addTestCaseToTestPlan a b d e) /\
  (forall opts, c = TestLink.reportTCResult opts ->
     testplanid opts = provisioned_plan (rev w) /\
     buildid opts = provisioned_build (rev w)).

(** As [xpj_run], but the only project has another prefix. *)
Definition unmatched_run : list label :=
  [Emit EVENT_RUN_BEGIN;
   Emit (EVENT_TEST_PASS xpj_test);
   Settle "2020-01-01T00:00:00.000Z" (TestLink.Resolved []);
   Tick "2020-01-01T00:00:00.001Z";
   Tick "2020-01-01T00:00:00.002Z";
   Settle "2020-01-01T00:00:00.003Z" (TestLink.Resolved [mkEntity (JNum 7) JUndefined]);
   Settle "2020-01-01T00:00:00.004Z" (TestLink.Resolved [mkEntity (JNum 9) JUndefined]);
   Settle "2020-01-01T00:00:00.005Z" (TestLink.Resolved [mkEntity (JNum 1) (JStr "ABC")]);
   Tick "2020-01-01T00:00:00.006Z";
   Tick "2020-01-01T00:00:00.007Z";
   Settle "2020-01-01T00:00:00.008Z" (TestLink.Resolved []);
   Tick "2020-01-01T00:00:00.009Z"].

(** ** Runs in which provisioning fails *)

(** As [xpj_run], but [createTestPlan] resolves with an empty list: the
    provisioning step throws, the rejection is logged and the result of the
    test is reported all the same. *)
Definition noplan_run : list label :=
  [Emit EVENT_RUN_BEGIN;
   Emit (EVENT_TEST_PASS xpj_test);
   Settle "2020-01-01T00:00:00.000Z" (TestLink.Resolved []);
   Tick "2020-01-01T00:00:00.001Z";
   Tick "2020-01-01T00:00:00.002Z";
   Settle "2020-01-01T00:00:00.003Z" (TestLink.Resolved []);
   Tick "2020-01-01T00:00:00.004Z";
   Tick "2020-01-01T00:00:00.005Z";
   Settle "2020-01-01T00:00:00.006Z" (TestLink.Resolved []);
   Tick "2020-01-01T00:00:00.007Z"].

(** As [xpj_run], but [createBuild] resolves with an empty list. *)
Definition nobuild_run : list label :=
  [Emit EVENT_RUN_BEGIN;
   Emit (EVENT_TEST_PASS xpj_test);
   Settle "2020-01-01T00:00:00.000Z" (TestLink.Resolved []);
   Tick "2020-01-01T00:00:00.001Z";
   Tick "2020-01-01T00:00:00.002Z";
   Settle "2020-01-01T00:00:00.003Z" (TestLink.Resolved [mkEntity (JNum 7) JUndefined]);
   Settle "2020-01-01T00:00:00.004Z" (TestLink.Resolved []);
   Tick "2020-01-01T00:00:00.005Z";
   Tick "2020-01-01T00:00:00.006Z";
   Settle "2020-01-01T00:00:00.007Z" (TestLink.Resolved []);
   Tick "2020-01-01T00:00:00.008Z"].

(** ** Notions for further properties *)

(** The text does not end in the middle of what could become a token: its
    last character is no word character, no hyphen and no opening bracket. *)
Definition ends_clear (a : list ascii) : Prop :=
  match last a with
  | Some c => Re.is_word c = false /\ c <> "-"%char /\ c <> "["%char
  | None => True
  end.

(** The links a listener chains for one case id: the step and its [catch]. *)
Definition pair_for (r : Reporter) (gen : This -> string -> Options) (caseId : string)
    : list link :=
  [LThen (mkOrigin (emitted r) (this r)) (publishStep gen caseId); LCatch].

(** The fields once the plan of the options is adopted. *)
Definition adopted (options : gmap string jsval) : This :=
  mkThis (prop options "testplanid") (prop options "buildid") None.

(** The fields are untouched or adopted. *)
Definition untouched_or_adopted (options : gmap string jsval) (w : list entry) (t : This) : Prop :=
  t = this0 \/ t = adopted options.

(** Only the key check and results go out, and a result carries the ids of
    the fields its step started with. *)
Definition checks_and_reports (options : gmap string jsval)
    (w : list entry) (o : origin) (st : This) (c : TestLink.call) : Prop :=
  (st = this0 \/ st = adopted options) /\
  (c = TestLink.checkDevKey \/
   exists opts, c = TestLink.reportTCResult opts /\
     testplanid opts = this_testplanid st /\ buildid opts = this_buildid st).

(** What a provisioning call is given and what went before it. *)
Definition provisioning_order (options : gmap string jsval)
    (w : list entry) (o : origin) (st : This) (c : TestLink.call) : Prop :=
  match c with
  | TestLink.createTestPlan name pfx =>
      pfx = prop options "prefix" /\
      exists date, name = ("Automated test plan " ++ date)%string
  | TestLink.createBuild plan name notes active open released =>
      name = "automated build" /\ notes = "" /\ active = true /\ open = true /\
      released = "" /\
      exists w0 n p e es,
        w = (w0 ++ [Issued o st (TestLink.createTestPlan n p);
                    Answered (TestLink.Resolved (e :: es))])%list /\
        plan = id e
  | TestLink.getProjects =>
      exists w0 plan e es,
        w = (w0 ++ [Issued o st (TestLink.createBuild plan "automated build" "" true true "");
                    Answered (TestLink.Resolved (e :: es))])%list
  | _ => True
  end.

(** A label that is no event. *)
Definition quiet (l : label) : Prop := forall ev, l <> Emit ev.

(** The reporter while only the key check has happened. *)
Definition only_checked (options : gmap string jsval) (r : Reporter) : Prop :=
  reporterOptions r = options /\ this r = this0 /\ begun r = false /\
  emitted r = 0 /\ started r = [] /\ skipped r = [] /\
  (head r = InFlight origin0 this0 (fun _ => Ret tt) /\
   promiseChain r = [LCatch] /\
   wire r = [Issued origin0 this0 TestLink.checkDevKey]
   \/
   exists a s,
     head r = Settled s /\
     (promiseChain r = [LCatch] \/ promiseChain r = [] /\ s = Fulfilled) /\
     wire r = [Issued origin0 this0 TestLink.checkDevKey; Answered a]).

(** Every result carries the ids of the options. *)
Definition reports_adopted (options : gmap string jsval)
    (w : list entry) (o : origin) (st : This) (c : TestLink.call) : Prop :=
  c = TestLink.checkDevKey \/
  exists opts, c = TestLink.reportTCResult opts /\
    testplanid opts = prop options "testplanid" /\
    buildid opts = prop options "buildid".

(** The plan is never created: the call rejects or resolves with nothing. *)
Definition plan_fails (c : TestLink.call) (v : list Entity) : Prop :=
  forall n p, c = TestLink.createTestPlan n p -> v = [].

(** The build is never created. *)
Definition build_fails (c : TestLink.call) (v : list Entity) : Prop :=
  forall plan n s a b d, c = TestLink.createBuild plan n s a b d -> v = [].

Definition unassigned (w : list entry) (t : This) : Prop := t = this0.

Definition without_plan (w : list entry) (o : origin) (st : This) (c : TestLink.call) : Prop :=
  st = this0 /\
  (c = TestLink.checkDevKey \/
   (exists n p, c = TestLink.createTestPlan n p) \/
   exists opts, c = TestLink.reportTCResult opts /\
     testplanid opts = JUndefined /\ buildid opts = JUndefined).

Definition no_build (w : list entry) (t : This) : Prop :=
  this_testproject t = None /\ this_buildid t = JUndefined.

Definition without_build (w : list entry) (o : origin) (st : This) (c : TestLink.call) : Prop :=
  this_testproject st = None /\
  match c with
  | TestLink.getProjects => False
  | TestLink.addTestCaseToTestPlan _ _ _ _ => False
  | TestLink.reportTCResult opts => buildid opts = JUndefined
  | _ => True
  end.

Definition creates_plan (c : TestLink.call) : bool :=
  match c with
  | TestLink.createTestPlan _ _ => true
  | _ => false
  end.

(** How many plans were asked for. *)
Fixpoint plans_on (w : list entry) : nat :=
  match w with
  | [] => 0
  | Issued _ _ c :: w' => (if creates_plan c then 1 else 0) + plans_on w'
  | Answered _ :: w' => plans_on w'
  end.

(** The step asks for at most [n] plans, however its calls are answered. *)
Fixpoint plans_le (n : nat) (p : prog unit) : Prop :=
  match p with
  | Ret _ => True
  | Throw _ => True
  | GetThis k => forall t, plans_le n (k t)
  | SetThis _ k => plans_le n k
  | Now k => forall s, plans_le n (k s)
  | Await c k =>
      if creates_plan c
      then match n with
           | O => False
           | S m => forall v, plans_le m (k v)
           end
      else forall v, plans_le n (k v)
  end.

Definition link_plans_le (n : nat) (l : link) : Prop :=
  match l with
  | LThen _ p => plans_le n p
  | LCatch => True
  end.

(** The plans asked for and those that the running step and the waiting
    steps may still ask for are one at most, none before the run begins. *)
Definition one_plan (r : Reporter) : Prop :=
  exists (bs : list nat) (bh : nat),
    Forall2 link_plans_le bs (promiseChain r) /\
    match head r with
    | InFlight _ _ k => forall v, plans_le bh (k v)
    | Settled _ => True
    end /\
    plans_on (wire r) + bh + sum_list bs <= (if begun r then 1 else 0).

(** What a stretch of a step that asks for at most [n] plans leaves. *)
Definition plans_left (n : nat) (ts : This * suspended) : Prop :=
  match ts with
  | (_, Awaiting c k) =>
      if creates_plan c
      then exists m, n = S m /\ forall v, plans_le m (k v)
      else forall v, plans_le n (k v)
  | _ => True
  end.

(** A result goes out only after a plan was asked for. *)
Definition reports_after_plan (w : list entry) : Prop :=
  forall j o st opts,
    w !! j = Some (Issued o st (TestLink.reportTCResult opts)) -> 1 <= plans_on (take j w).

(** The provisioning step waits in the chain, in front of every other step,
    and nothing but the key check has run. *)
Definition provisioning_next (options : gmap string jsval) (r : Reporter) : Prop :=
  exists o rest,
    (head r = InFlight origin0 this0 (fun _ => Ret tt) /\
     promiseChain r = LCatch :: LThen o (provisionStep options) :: rest) \/
    (exists s, head r = Settled s /\
     promiseChain r = LCatch :: LThen o (provisionStep options) :: rest) \/
    (head r = Settled Fulfilled /\
     promiseChain r = LThen o (provisionStep options) :: rest).

Definition plan_first (options : gmap string jsval) (r : Reporter) : Prop :=
  reports_after_plan (wire r) /\
  (1 <= plans_on (wire r) \/ provisioning_next options r).

(** ** The older reporter *)

(** src/index.js, the reporter before reporter options and provisioning
    were added. [titleToCaseIds], [suiteOptions] and [tcOptions] are the
    same there; the constructor, [createTestPlan] and [publishTestResults]
    differ. The connection is built from constants and no options are read. *)
Module Legacy.

(** [createTestPlan] *)
Definition createTestPlan : jsval := JNum 14.

(** The fields after [this.buildid = 1]. *)
Definition this0 : This := mkThis JUndefined (JNum 1) None.

Definition origin0 : origin := mkOrigin 0 this0.

(** The callback [() => this.testlink.reportTCResult(options)]: the chain
    goes on when the promise it returns settles. *)
Definition reportStep (options : Options) : prog unit :=
  _ ← await (TestLink.reportTCResult options);
  Ret tt.

(** [publishTestResults]: the record is built in the loop, before the step
    is chained. *)
Definition publishTestResults (title : string) (optionsGen : This -> string -> Options)
    (r : Reporter) : Reporter :=
  fold_left (fun r caseId =>
               let options := optionsGen (this r) caseId in
               chain (reportStep options) r)
            (titleToCaseIds title) r.

(** The four listeners the constructor registers; the first is registered
    with [once]. *)
Definition listener (ev : event) (r : Reporter) : Reporter :=
  match ev with
  | EVENT_RUN_BEGIN =>
      if begun r then r
      else with_this (mkThis createTestPlan (this_buildid (this r))
                             (this_testproject (this r)))
                     (mark_begun r)
  | EVENT_SUITE_END suite =>
      publishTestResults (suite_title suite)
        (fun this caseId => suiteOptions this caseId suite) r
  | EVENT_TEST_PASS test =>
      publishTestResults (test_title test)
        (fun this caseId => tcOptions this caseId (duration test) None) r
  | EVENT_TEST_FAIL test err =>
      publishTestResults (test_title test)
        (fun this caseId => tcOptions this caseId (duration test) (Some err)) r
  end.

Definition emit (ev : event) (r : Reporter) : Reporter :=
  listener ev (count_event r).

Definition step (l : label) (r : Reporter) : Reporter :=
  match l with
  | Emit ev => emit ev r
  | Settle now a => settle now a r
  | Tick now => tick now r
  end.

Definition run (ls : list label) (r : Reporter) : Reporter :=
  fold_left (fun r l => step l r) ls r.

(** The reporter the constructor yields: [this.buildid = 1], then
    [checkDevKey().catch(console.error)] as the head of the chain. No
    options are kept. *)
Definition fresh : Reporter :=
  mkReporter ∅ this0 (InFlight origin0 this0 (fun _ => Ret tt))
             [LCatch] false [Issued origin0 this0 TestLink.checkDevKey] [] 0 [] [].

(** The fields before and after the run began. *)
Definition fields (begun : bool) : This :=
  mkThis (if begun then createTestPlan else JUndefined) (JNum 1) None.

(** The record carries the plan id the fields held when its step was
    chained, and build id 1. *)
Definition eager (P : This -> Prop) (o : origin) (opts : Options) : Prop :=
  P (enqueued_with o) /\
  testplanid opts = this_testplanid (enqueued_with o) /\
  buildid opts = JNum 1.

Definition link_eager (P : This -> Prop) (l : link) : Prop :=
  match l with
  | LThen o p => exists opts, p = reportStep opts /\ eager P o opts
  | LCatch => True
  end.

Definition call_eager (P : This -> Prop) (o : origin) (c : TestLink.call) : Prop :=
  c = TestLink.checkDevKey \/
  exists opts, c = TestLink.reportTCResult opts /\ eager P o opts.

(** What every state of the older reporter satisfies, for fields that keep
    to [P] while steps are chained. *)
Definition built_when_chained (P : This -> Prop) (r : Reporter) : Prop :=
  this r = fields (begun r) /\ P (this r) /\
  Forall (link_eager P) (promiseChain r) /\
  match head r with
  | InFlight _ _ k => forall v, k v = Ret tt
  | Settled _ => True
  end /\
  (forall j o st c, wire r !! j = Some (Issued o st c) -> call_eager P o c).

End Legacy.

(** * Properties *)

(** ** The title pattern *)

Module ReFacts.
Import Re ReAux.
Local Open Scope list_scope.

Lemma shift_advance (n : nat) (x : MatchState) :
  shift n (advance x) = shift (S n) x.
Proof. unfold shift, advance. simpl. f_equal. lia. Qed.

Lemma matchNodes_plus_cons (cls : ascii -> bool) (r : list node)
    (ch : ascii) (rest : list ascii) (x : MatchState) :
  matchNodes (PlusClass cls :: r) (ch :: rest) x =
    if cls ch then
      match matchNodes (PlusClass cls :: r) rest (advance x) with
      | Some y => Some y
      | None => matchNodes r rest (advance x)
      end
    else None.
Proof. reflexivity. Qed.

Lemma plus_stops (cls : ascii -> bool) (r : list node) (input : list ascii) (x : MatchState) :
  stops cls input -> matchNodes (PlusClass cls :: r) input x = None.
Proof.
  destruct input as [|c rest]; [reflexivity|].
  simpl. intros ->. reflexivity.
Qed.

Section Greedy.
Variables (cls : ascii -> bool) (r : list node).
Hypothesis r_rejects :
  forall c rest x, cls c = true -> matchNodes r (c :: rest) x = None.

Lemma plus_greedy (w rest : list ascii) (x : MatchState) :
  w <> [] -> Forall (fun c => cls c = true) w -> stops cls rest ->
  matchNodes (PlusClass cls :: r) (w ++ rest) x = matchNodes r rest (shift (length w) x).
Proof.
  revert x. induction w as [|c w IH]; intros x Hne Hall Hstop; [congruence|].
  inversion Hall as [|? ? Hc Hw]; subst.
  change ((c :: w) ++ rest) with (c :: (w ++ rest)).
  rewrite matchNodes_plus_cons, Hc.
  destruct w as [|c' w'].
  - simpl app. rewrite (plus_stops cls r rest (advance x) Hstop).
    reflexivity.
  - rewrite IH by (congruence || assumption).
    rewrite shift_advance. change (length (c :: c' :: w')) with (S (length (c' :: w'))).
    destruct (matchNodes r rest (shift (S (length (c' :: w'))) x)) eqn:E; [reflexivity|].
    inversion Hw; subst. simpl app. apply r_rejects. assumption.
Qed.
End Greedy.

Lemma span (cls : ascii -> bool) (l : list ascii) :
  exists w rest, l = w ++ rest /\ Forall (fun c => cls c = true) w /\ stops cls rest.
Proof.
  induction l as [|c l (w & rest & -> & Hw & Hs)].
  - exists [], []. repeat split; constructor.
  - destruct (cls c) eqn:Hc.
    + exists (c :: w), rest. repeat split; [constructor; assumption | assumption].
    + exists [], (c :: w ++ rest). repeat split; [constructor | exact Hc].
Qed.

Lemma matchNodes_char_cons (c ch : ascii) (r : list node) (rest : list ascii) (x : MatchState) :
  matchNodes (Char c :: r) (ch :: rest) x =
    if Ascii.eqb ch c then matchNodes r rest (advance x) else None.
Proof. reflexivity. Qed.

Lemma word_not_hyphen (c : ascii) : is_word c = true -> Ascii.eqb c "-" = false.
Proof.
  intros Hc. destruct (Ascii.eqb_spec c "-") as [->|]; [discriminate Hc | reflexivity].
Qed.

Lemma digit_not_bracket (c : ascii) : is_digit c = true -> Ascii.eqb c "]" = false.
Proof.
  intros Hc. destruct (Ascii.eqb_spec c "]") as [->|]; [discriminate Hc | reflexivity].
Qed.

Lemma digit_word (c : ascii) : is_digit c = true -> is_word c = true.
Proof. unfold is_word. intros ->. rewrite orb_true_r. reflexivity. Qed.

Lemma match_token (i g : nat) (c : option (nat * nat)) (w d post : list ascii) :
  well_formed w d ->
  matchNodes pattern ("["%char :: w ++ "-"%char :: d ++ "]"%char :: post) (mkState i g c)
    = Some (reached i w d).
Proof.
  intros (Hw0 & Hw & Hd0 & Hd). unfold pattern.
  rewrite matchNodes_char_cons. simpl Ascii.eqb. cbv iota.
  change (matchNodes (GroupOpen :: ?r) ?inp ?x) with (matchNodes r inp (open_group x)).
  rewrite plus_greedy; [| | assumption | assumption | reflexivity].
  2:{ intros ch rest x Hch. rewrite matchNodes_char_cons, (word_not_hyphen ch Hch). reflexivity. }
  rewrite matchNodes_char_cons. simpl Ascii.eqb. cbv iota.
  rewrite plus_greedy; [| | assumption | assumption | reflexivity].
  2:{ intros ch rest x Hch.
      change (matchNodes (GroupClose :: ?r) ?inp ?y) with (matchNodes r inp (close_group y)).
      rewrite matchNodes_char_cons, (digit_not_bracket ch Hch). reflexivity. }
  change (matchNodes (GroupClose :: ?r) ?inp ?y) with (matchNodes r inp (close_group y)).
  rewrite matchNodes_char_cons. simpl Ascii.eqb. cbv iota.
  unfold reached, close_group, shift, advance, open_group. simpl.
  f_equal. f_equal; [lia|]. f_equal. f_equal. lia.
Qed.

Lemma match_inv (input : list ascii) (x : MatchState) (y : MatchState) :
  matchNodes pattern input x = Some y ->
  exists w d post,
    input = "["%char :: w ++ "-"%char :: d ++ "]"%char :: post /\ well_formed w d.
Proof.
  unfold pattern. destruct input as [|ch rest]; [discriminate|].
  rewrite matchNodes_char_cons. destruct (Ascii.eqb_spec ch "[") as [->|]; [|discriminate].
  change (matchNodes (GroupOpen :: ?r) ?inp ?x) with (matchNodes r inp (open_group x)).
  destruct (span is_word rest) as (w & rest1 & -> & Hw & Hs1).
  destruct (decide (w = [])) as [->|Hw0].
  { simpl app. rewrite plus_stops by assumption. discriminate. }
  rewrite plus_greedy; [| | assumption | assumption | assumption].
  2:{ intros c rest x' Hc. rewrite matchNodes_char_cons, (word_not_hyphen c Hc). reflexivity. }
  destruct rest1 as [|c1 rest2]; [discriminate|].
  rewrite matchNodes_char_cons. destruct (Ascii.eqb_spec c1 "-") as [->|]; [|discriminate].
  destruct (span is_digit rest2) as (d & rest3 & -> & Hd & Hs3).
  destruct (decide (d = [])) as [->|Hd0].
  { simpl app. rewrite plus_stops by assumption. discriminate. }
  rewrite plus_greedy; [| | assumption | assumption | assumption].
  2:{ intros c rest x' Hc.
      change (matchNodes (GroupClose :: ?r) ?inp ?y) with (matchNodes r inp (close_group y)).
      rewrite matchNodes_char_cons, (digit_not_bracket c Hc). reflexivity. }
  change (matchNodes (GroupClose :: ?r) ?inp ?y) with (matchNodes r inp (close_group y)).
  destruct rest3 as [|c3 post]; [discriminate|].
  rewrite matchNodes_char_cons. destruct (Ascii.eqb_spec c3 "]") as [->|]; [|discriminate].
  intros _. exists w, d, post. split; [reflexivity|]. repeat split; assumption.
Qed.

Lemma token_at_drop (subject : list ascii) (i : nat) (tok : list ascii) :
  token_at subject i tok <->
  exists w d post,
    drop i subject = "["%char :: w ++ "-"%char :: d ++ "]"%char :: post /\
    well_formed w d /\ tok = w ++ "-"%char :: d.
Proof.
  split.
  - intros (pre & w & d & post & -> & <- & Hw0 & Hw & Hd0 & Hd & ->).
    exists w, d, post. rewrite drop_app_length. repeat split; assumption.
  - intros (w & d & post & Hdrop & (Hw0 & Hw & Hd0 & Hd) & ->).
    exists (take i subject), w, d, post.
    rewrite <- Hdrop, take_drop. repeat split; try assumption.
    rewrite length_take. apply Nat.min_l.
    destruct (decide (i <= length subject)) as [|Hgt]; [assumption|].
    rewrite drop_ge in Hdrop by lia. discriminate.
Qed.

Lemma group1_reached (subject : list ascii) (i : nat) (w d post : list ascii) :
  drop i subject = "["%char :: w ++ "-"%char :: d ++ "]"%char :: post ->
  group1 subject (mkMatch i (reached i w d)) = w ++ "-"%char :: d.
Proof.
  intros Hdrop. unfold group1, reached. simpl.
  replace (drop (S i) subject) with ((w ++ "-"%char :: d) ++ "]"%char :: post).
  - replace (length d + (length w + S (S i)) - S i) with (length (w ++ "-"%char :: d))
      by (rewrite length_app; simpl; lia).
    apply take_app_length.
  - replace (S i) with (i + 1) by lia.
    rewrite <- (drop_drop subject 1 i), Hdrop. simpl. rewrite <- app_assoc. reflexivity.
Qed.

Lemma token_attempt (subject : list ascii) (i : nat) (tok : list ascii) :
  token_at subject i tok ->
  exists y, attempt subject i = Some y /\ group1 subject (mkMatch i y) = tok.
Proof.
  rewrite token_at_drop. intros (w & d & post & Hdrop & Hwf & ->).
  exists (reached i w d). split.
  - unfold attempt. rewrite Hdrop. apply match_token, Hwf.
  - apply (group1_reached subject i w d post Hdrop).
Qed.

Lemma token_bracket (subject : list ascii) (i : nat) (tok : list ascii) :
  token_at subject i tok -> subject !! i = Some "["%char.
Proof.
  intros (pre & w & d & post & -> & <- & _). apply list_lookup_middle. reflexivity.
Qed.

Lemma attempt_token (subject : list ascii) (i : nat) (y : MatchState) :
  attempt subject i = Some y ->
  token_at subject i (group1 subject (mkMatch i y)) /\
  i < endIndex y /\
  (forall j, i < j < endIndex y -> subject !! j <> Some "["%char).
Proof.
  unfold attempt. intros Hm.
  destruct (match_inv _ _ _ Hm) as (w & d & post & Hdrop & Hwf).
  rewrite Hdrop, (match_token i 0 None w d post Hwf) in Hm. injection Hm as <-.
  split; [|split].
  - apply token_at_drop. exists w, d, post. split; [exact Hdrop|]. split; [exact Hwf|].
    apply (group1_reached subject i w d post Hdrop).
  - unfold reached. simpl. lia.
  - unfold reached. simpl. intros j Hj Hbr.
    destruct Hwf as (_ & Hw & _ & Hd).
    assert (Forall (fun c => c <> "["%char) (w ++ "-"%char :: d ++ ["]"%char])) as Hin.
    { apply Forall_app. split.
      - eapply Forall_impl; [exact Hw|]. intros c Hc ->. discriminate Hc.
      - constructor; [discriminate|]. apply Forall_app. split.
        + eapply Forall_impl; [exact Hd|]. intros c Hc ->. discriminate Hc.
        + constructor; [discriminate|constructor]. }
    assert (drop i subject !! (j - i) = Some "["%char) as Hl
      by (rewrite lookup_drop; replace (i + (j - i)) with j by lia; exact Hbr).
    rewrite Hdrop in Hl. destruct (j - i) as [|n] eqn:Hn; [lia|]. simpl in Hl.
    replace (w ++ "-"%char :: d ++ "]"%char :: post)
      with ((w ++ "-"%char :: d ++ ["]"%char]) ++ post) in Hl
      by (rewrite <- app_assoc; simpl; rewrite <- app_assoc; reflexivity).
    rewrite lookup_app_l in Hl.
    + eapply (Forall_lookup_1 _ _ _ _ Hin Hl). reflexivity.
    + rewrite length_app. simpl. rewrite length_app. simpl. lia.
Qed.

Lemma attempt_beyond (subject : list ascii) (i : nat) :
  length subject <= i -> attempt subject i = None.
Proof. intros H. unfold attempt. rewrite drop_ge by exact H. reflexivity. Qed.

Lemma exec_from_unfold (input : list ascii) (i : nat) :
  exec_from input i =
    match matchNodes pattern input (mkState i 0 None) with
    | Some y => Some (mkMatch i y)
    | None => match input with [] => None | _ :: rest => exec_from rest (S i) end
    end.
Proof. destruct input; reflexivity. Qed.

(** [exec] finds the first index from [lastIndex] on at which an attempt
    succeeds. *)
Lemma exec_first (subject : list ascii) (n p : nat) :
  length subject - p = n -> p <= length subject ->
  match exec_from (drop p subject) p with
  | Some m =>
      p <= index m /\ attempt subject (index m) = Some (found m) /\
      (forall j, p <= j < index m -> attempt subject j = None)
  | None => forall j, p <= j -> attempt subject j = None
  end.
Proof.
  revert p. induction n as [|n IH]; intros p Hn Hp.
  - rewrite exec_from_unfold. fold (attempt subject p).
    rewrite attempt_beyond by lia. rewrite drop_ge by lia.
    intros j Hj. apply attempt_beyond. lia.
  - rewrite exec_from_unfold. fold (attempt subject p).
    destruct (attempt subject p) as [y|] eqn:Ha.
    + simpl. split; [lia|]. split; [exact Ha|]. intros j Hj. lia.
    + destruct (lookup_lt_is_Some_2 subject p ltac:(lia)) as [ch Hch].
      rewrite (drop_S _ _ _ Hch).
      specialize (IH (S p) ltac:(lia) ltac:(lia)).
      destruct (exec_from (drop (S p) subject) (S p)) as [m|].
      * destruct IH as (H1 & H2 & H3). split; [lia|]. split; [exact H2|].
        intros j Hj. destruct (decide (j = p)) as [->|]; [exact Ha | apply H3; lia].
      * intros j Hj. destruct (decide (j = p)) as [->|]; [exact Ha | apply IH; lia].
Qed.

Lemma matchAll_loop_tokens (fuel : nat) (subject : list ascii) (p : nat) :
  length subject < p + fuel ->
  exists ms,
    map (group1 subject) (matchAll_loop fuel subject p) = map snd ms /\
    tokens_from subject p ms.
Proof.
  revert p. induction fuel as [|fuel IH]; intros p Hfuel.
  - exists []. split; [reflexivity|]. split; [constructor|].
    intros i tok. split; [intros []|]. intros [Hi Ht].
    apply token_bracket, lookup_lt_Some in Ht. lia.
  - simpl. unfold exec. destruct (p <=? length subject)%nat eqn:Hp.
    2:{ apply Nat.leb_gt in Hp. exists []. split; [reflexivity|]. split; [constructor|].
        intros i tok. split; [intros []|]. intros [Hi Ht].
        apply token_bracket, lookup_lt_Some in Ht. lia. }
    apply Nat.leb_le in Hp.
    pose proof (exec_first subject _ p eq_refl Hp) as Hex.
    destruct (exec_from (drop p subject) p) as [[i y]|].
    2:{ exists []. split; [reflexivity|]. split; [constructor|].
        intros i tok. split; [intros []|]. intros [Hi Ht].
        destruct (token_attempt _ _ _ Ht) as (y & Hy & _).
        rewrite (Hex i Hi) in Hy. discriminate. }
    simpl in Hex. destruct Hex as (Hpi & Hy & Hbefore).
    destruct (attempt_token _ _ _ Hy) as (Htok & Hlt & Hinside).
    simpl. destruct (Nat.eqb_spec (endIndex y) i) as [Heq|_]; [lia|].
    destruct (IH (endIndex y) ltac:(lia)) as (ms & Hmap & Hsorted & Hmem).
    exists ((i, group1 subject (mkMatch i y)) :: ms).
    split; [simpl; rewrite Hmap; reflexivity|]. split.
    + simpl. constructor; [exact Hsorted|].
      apply List.Forall_forall. intros j Hj. apply in_map_iff in Hj.
      destruct Hj as ([j' tok] & <- & Hin). apply Hmem in Hin. simpl. lia.
    + intros j tok. split.
      * intros [[= <- <-]|Hin]; [split; [exact Hpi | exact Htok]|].
        apply Hmem in Hin. split; [lia | tauto].
      * intros [Hj Ht].
        destruct (decide (j = i)) as [->|Hne].
        { left. destruct (token_attempt _ _ _ Ht) as (y' & Hy' & <-).
          rewrite Hy in Hy'. injection Hy' as <-. reflexivity. }
        right. apply Hmem. split; [|exact Ht].
        destruct (decide (endIndex y <= j)) as [|Hlow]; [assumption|].
        destruct (decide (j < i)) as [Hji|Hji].
        { destruct (token_attempt _ _ _ Ht) as (y' & Hy' & _).
          rewrite (Hbefore j) in Hy' by lia. discriminate. }
        exfalso. apply (Hinside j); [lia|]. apply (token_bracket _ _ _ Ht).
Qed.
End ReFacts.

(** C3: the case ids of a title are the texts between the brackets of all
    its tokens, a token being an opening bracket, one or more word
    characters, a hyphen, one or more digits and a closing bracket: one id
    per token, in the order of the tokens' positions, repeated when the token
    is repeated. The title "a [AB-1] b [CD-22] [AB-1]" gives AB-1, CD-22,
    AB-1; a title without a token gives no id and publishing it chains
    nothing. *)
Theorem titleToCaseIds_tokens :
  (forall title : string,
     exists ms : list (nat * list ascii),
       titleToCaseIds title = map (fun m => string_of_list_ascii (snd m)) ms /\
       StronglySorted lt (map fst ms) /\
       (forall i tok, In (i, tok) ms <-> token_at (list_ascii_of_string title) i tok)) /\
  titleToCaseIds "a [AB-1] b [CD-22] [AB-1]" = ["AB-1"; "CD-22"; "AB-1"] /\
  (forall title : string,
     (forall i tok, ~ token_at (list_ascii_of_string title) i tok) ->
     titleToCaseIds title = [] /\
     (forall optionsGen r, publishTestResults title optionsGen r = r)).
Proof.
  assert (forall title : string,
     exists ms : list (nat * list ascii),
       titleToCaseIds title = map (fun m => string_of_list_ascii (snd m)) ms /\
       StronglySorted lt (map fst ms) /\
       (forall i tok, In (i, tok) ms <-> token_at (list_ascii_of_string title) i tok)) as Hall.
  { intros title. unfold titleToCaseIds, Re.matchAll.
    set (subject := list_ascii_of_string title).
    destruct (ReFacts.matchAll_loop_tokens (S (length subject)) subject 0 ltac:(lia))
      as (ms & Hmap & Hsorted & Hmem).
    exists ms. split; [|split; [exact Hsorted|]].
    - rewrite <- (map_map (Re.group1 subject) string_of_list_ascii), Hmap.
      rewrite map_map. reflexivity.
    - intros i tok. rewrite Hmem. split; [tauto | intros H; split; [lia | exact H]]. }
  split; [exact Hall|]. split; [reflexivity|].
  intros title Hnone. destruct (Hall title) as (ms & Hids & _ & Hmem).
  assert (ms = []) as ->.
  { destruct ms as [|[i tok] ms]; [reflexivity|].
    exfalso. apply (Hnone i tok), Hmem. left. reflexivity. }
  simpl in Hids. split; [exact Hids|].
  intros optionsGen r. unfold publishTestResults. rewrite Hids. reflexivity.
Qed.

(** ** Values *)

Lemma strict_eq_STATE_PASSED (v : jsval) :
  strict_eq v STATE_PASSED = true <-> v = STATE_PASSED.
Proof.
  unfold STATE_PASSED. destruct v as [| |b|x|s]; simpl; try (split; [discriminate|discriminate]).
  rewrite String.eqb_eq. split; [intros ->; reflexivity | intros [= ->]; reflexivity].
Qed.

Lemma not_passed_spec (v : jsval) :
  negb (strict_eq v STATE_PASSED) = true <-> v <> STATE_PASSED.
Proof.
  rewrite negb_true_iff, <- not_true_iff_false, strict_eq_STATE_PASSED. reflexivity.
Qed.

(** ** Result records *)

(** C5: a single test result is failed exactly when an error is given, its
    notes are the error's stack or the empty string, its duration is the
    milliseconds divided by 60000, and it has no steps. *)
Theorem tcOptions_record (this : This) (caseId : string) (d : option float) (e : option Error) :
  (status (tcOptions this caseId d e) = FAILED <-> e <> None) /\
  (status (tcOptions this caseId d e) = PASSED <-> e = None) /\
  (forall x, e = Some x -> notes (tcOptions this caseId d e) = Some (stack x)) /\
  (e = None -> notes (tcOptions this caseId d e) = Some "") /\
  execduration (tcOptions this caseId d e) = (ToNumber d / 60000)%float /\
  steps (tcOptions this caseId d e) = [] /\
  testcaseexternalid (tcOptions this caseId d e) = caseId.
Proof.
  destruct e as [x|]; simpl; repeat split; try congruence; try discriminate.
Qed.

Lemma suite_status_failed (l : list Test) :
  existsb (fun t => negb (strict_eq (state t) STATE_PASSED)) l = true <->
  exists t, In t l /\ state t <> STATE_PASSED.
Proof.
  rewrite existsb_exists. split; intros (t & Hin & Ht); exists t; split; trivial;
    apply not_passed_spec; exact Ht.
Qed.

(** C4: a suite result is failed exactly when some test did not pass (so an
    empty suite is passed), its duration is the sum of the tests' durations
    divided by 60000, and its steps follow the tests one to one: step [i+1]
    for the test at index [i], failed exactly when that test did not pass,
    with the error's stack as notes, or the empty string without an error. *)
Theorem suiteOptions_record (this : This) (caseId : string) (suite : Suite) :
  (status (suiteOptions this caseId suite) = FAILED <->
     exists t, In t (tests suite) /\ state t <> STATE_PASSED) /\
  (status (suiteOptions this caseId suite) = PASSED <->
     forall t, In t (tests suite) -> state t = STATE_PASSED) /\
  (tests suite = [] -> status (suiteOptions this caseId suite) = PASSED) /\
  execduration (suiteOptions this caseId suite) =
    (fold_left (fun acc t => acc + ToNumber (duration t)) (tests suite) 0 / 60000)%float /\
  length (steps (suiteOptions this caseId suite)) = length (tests suite) /\
  (forall (i : nat) (t : Test), tests suite !! i = Some t ->
     exists s, steps (suiteOptions this caseId suite) !! i = Some s /\
       step_number s = i + 1 /\
       (result s = FAILED <-> state t <> STATE_PASSED) /\
       (result s = PASSED <-> state t = STATE_PASSED) /\
       (forall x, err t = Some x -> step_notes s = stack x) /\
       (err t = None -> step_notes s = "")).
Proof.
  destruct suite as [title l]. unfold suiteOptions. simpl.
  pose proof (suite_status_failed l) as Hf.
  split; [|split; [|split; [|split; [|split]]]].
  - destruct (existsb _ l).
    + split; [intros _; apply Hf; reflexivity | reflexivity].
    + split; [discriminate|]. intros H. apply Hf in H. discriminate.
  - destruct (existsb _ l) eqn:Hex.
    + split; [discriminate|]. intros Hall.
      destruct (proj1 Hf eq_refl) as (t & Hin & Hne). elim Hne. auto.
    + split; [|reflexivity]. intros _ t Hin.
      destruct (strict_eq (state t) STATE_PASSED) eqn:Hs.
      * apply strict_eq_STATE_PASSED. exact Hs.
      * assert (false = true) as Habs; [|discriminate Habs].
        apply Hf. exists t. split; [exact Hin|].
        apply not_passed_spec. rewrite Hs. reflexivity.
  - intros ->. reflexivity.
  - reflexivity.
  - apply length_imap.
  - intros i t Hi. rewrite list_lookup_imap, Hi. simpl.
    eexists. split; [reflexivity|]. simpl.
    split; [reflexivity|].
    pose proof (not_passed_spec (state t)) as Hn.
    pose proof (strict_eq_STATE_PASSED (state t)) as Hp.
    destruct (strict_eq (state t) STATE_PASSED); simpl in *.
    + split; [split; [discriminate|]|].
      * intros Hne. elim Hne. apply Hp. reflexivity.
      * split; [split; [intros _; apply Hp; reflexivity | reflexivity]|].
        destruct (err t); split; intros; congruence.
    + split; [split; [intros _; apply Hn; reflexivity | reflexivity]|].
      split; [split; [discriminate|]|].
      * intros He. apply Hp in He. discriminate.
      * destruct (err t); split; intros; congruence.
Qed.

(** C9: the duration of a record is the milliseconds divided by 60000 as a
    binary64 quotient, nothing is truncated or rounded to whole minutes:
    60000 ms are 1 minute, 0 ms are 0 minutes, 1200 ms are 0.02 minutes, for a
    single test and for the summed tests of a suite alike. *)
Theorem execduration_minutes :
  (forall this caseId (d : float) e,
     execduration (tcOptions this caseId (Some d) e) = (d / 60000)%float) /\
  (forall this caseId suite,
     execduration (suiteOptions this caseId suite) =
       (fold_left (fun acc t => acc + ToNumber (duration t)) (tests suite) 0 / 60000)%float) /\
  (forall this caseId e,
     execduration (tcOptions this caseId (Some 60000%float) e) = 1%float /\
     execduration (tcOptions this caseId (Some 0%float) e) = 0%float /\
     execduration (tcOptions this caseId (Some 1200%float) e) = 0.02%float) /\
  (forall this caseId title st1 st2 e1 e2,
     execduration (suiteOptions this caseId
        (mkSuite title [mkTest "a" st1 (Some 59000%float) e1;
                        mkTest "b" st2 (Some 1000%float) e2])) = 1%float /\
     execduration (suiteOptions this caseId (mkSuite title [])) = 0%float /\
     execduration (suiteOptions this caseId
        (mkSuite title [mkTest "a" st1 (Some 800%float) e1;
                        mkTest "b" st2 (Some 400%float) e2])) = 0.02%float).
Proof.
  split; [reflexivity|]. split; [reflexivity|].
  split; intros; repeat split; reflexivity.
Qed.

(** ** Reporter options *)

Lemma prop_absent (o : gmap string jsval) (k : string) :
  o !! k = None -> truthy (prop o k) = false.
Proof. unfold prop. intros ->. reflexivity. Qed.

Lemma check_required_missing (o : gmap string jsval) (names : list string) (k : string) :
  In k names -> truthy (prop o k) = false -> exists e, check_required o names = Some e.
Proof.
  induction names as [|n names IH]; simpl; [tauto|].
  intros [->|Hin] Hk.
  - rewrite Hk. simpl. eexists. reflexivity.
  - destruct (negb (truthy (prop o n))); [eexists; reflexivity | auto].
Qed.

Lemma validate_rejects (options : option (gmap string jsval)) :
  absent options "URL" \/ absent options "apiKey" \/
  ((absent options "testplanid" \/ absent options "buildid") /\ absent options "prefix") ->
  exists e, validateReporterOptions options = Some e.
Proof.
  destruct options as [o|]; [|intros _; eexists; reflexivity].
  unfold validateReporterOptions, absent. intros H.
  destruct (negb (truthy (prop o "testplanid") && truthy (prop o "buildid"))
            && negb (truthy (prop o "prefix"))) eqn:Hplan; [eexists; reflexivity|].
  destruct H as [H|[H|[H1 H2]]].
  - apply (check_required_missing o _ "URL"); [simpl; auto | apply prop_absent, H].
  - apply (check_required_missing o _ "apiKey"); [simpl; auto | apply prop_absent, H].
  - apply prop_absent in H2. rewrite H2 in Hplan.
    destruct H1 as [H1|H1]; apply prop_absent in H1; rewrite H1 in Hplan;
      simpl in Hplan; rewrite ?andb_false_r in Hplan; discriminate.
Qed.

(** C6: when the URL or the apiKey option is absent, or a prefix is absent
    together with testplanid or buildid, the constructor throws, and no call
    to the client has gone out by then; options with a URL, an apiKey and a
    prefix pass validation. *)
Theorem constructor_validates (parseURL : jsval -> option URL)
    (options : option (gmap string jsval)) (w : list entry) :
  (absent options "URL" \/ absent options "apiKey" \/
   ((absent options "testplanid" \/ absent options "buildid") /\ absent options "prefix") ->
   exists e, validateReporterOptions options = Some e /\
             constructor parseURL options w = (inl e, w)) /\
  (forall o, options = Some o ->
     truthy (prop o "URL") = true -> truthy (prop o "apiKey") = true ->
     truthy (prop o "prefix") = true ->
     validateReporterOptions options = None).
Proof.
  split.
  - intros H. destruct (validate_rejects options H) as [e He].
    exists e. split; [exact He|]. unfold constructor, ctor_bind, throw.
    rewrite He. reflexivity.
  - intros o -> Hu Hk Hp. simpl. rewrite Hp, Hu, Hk. simpl.
    rewrite andb_false_r. reflexivity.
Qed.

(** With valid options and a URL that parses, the constructor issues
    [checkDevKey] and nothing else, and leaves the reporter [fresh]. *)
Lemma constructor_builds_fresh (parseURL : jsval -> option URL)
    (o : gmap string jsval) (url : URL) :
  validateReporterOptions (Some o) = None ->
  parseURL (prop o "URL") = Some url ->
  constructor parseURL (Some o) [] =
    (inr (TestLink.mkConnection (hostname url) (url_port url)
            (String.eqb (protocol url) "https:") (prop o "apiKey"),
          fresh o),
     [Issued origin0 this0 TestLink.checkDevKey]).
Proof.
  intros Hv Hu. unfold constructor, ctor_bind, establishTestLinkConnection.
  rewrite Hv. simpl. rewrite Hu. reflexivity.
Qed.

Lemma constructor_validates_witness :
  (exists e, validateReporterOptions (Some (<["apiKey" := JStr "k"]> (<["prefix" := JStr "XPJ"]> ∅))) = Some e /\
     constructor (fun _ => None) (Some (<["apiKey" := JStr "k"]> (<["prefix" := JStr "XPJ"]> ∅))) [] = (inl e, [])) /\
  validateReporterOptions
    (Some (<["URL" := JStr "http://localhost/"]> (<["apiKey" := JStr "k"]> (<["prefix" := JStr "XPJ"]> ∅)))) = None.
Proof.
  split.
  - apply (proj1 (constructor_validates (fun _ => None)
             (Some (<["apiKey" := JStr "k"]> (<["prefix" := JStr "XPJ"]> ∅))) [])).
    left. reflexivity.
  - apply (proj2 (constructor_validates (fun _ => None)
             (Some (<["URL" := JStr "http://localhost/"]> (<["apiKey" := JStr "k"]> (<["prefix" := JStr "XPJ"]> ∅)))) [])
             (<["URL" := JStr "http://localhost/"]> (<["apiKey" := JStr "k"]> (<["prefix" := JStr "XPJ"]> ∅))));
      reflexivity.
Defined.

Open Scope list_scope.

(** ** Runs *)

Lemma run_app (ls1 ls2 : list label) (r : Reporter) :
  run (ls1 ++ ls2) r = run ls2 (run ls1 r).
Proof. unfold run. apply fold_left_app. Qed.

Lemma run_invariant (P : Reporter -> Prop) (ls : list label) (r : Reporter) :
  P r -> (forall l r', P r' -> P (step l r')) -> P (run ls r).
Proof.
  intros Hr Hstep. revert r Hr. induction ls as [|l ls IH]; intros r Hr; [exact Hr|].
  simpl. apply IH, Hstep, Hr.
Qed.

Lemma publish_invariant (P : Reporter -> Prop) (title : string)
    (optionsGen : This -> string -> Options) (r : Reporter) :
  P r -> (forall caseId r', P r' -> P (chain (publishStep optionsGen caseId) r')) ->
  P (publishTestResults title optionsGen r).
Proof.
  intros Hr Hchain. unfold publishTestResults.
  generalize (titleToCaseIds title). intros ids.
  revert r Hr. induction ids as [|c ids IH]; intros r Hr; [exact Hr|].
  simpl. apply IH, Hchain, Hr.
Qed.

(** The run with auto-provisioning, end to end: the key is checked, the plan
    and the build are created, the projects are listed, the case of the
    passed test is added to the plan and its result is reported as passed,
    with 0.02 minutes and empty notes. *)
Example xpj_run_calls :
  omap entry_call (wire (run xpj_run (fresh xpj_options))) =
    [TestLink.checkDevKey;
     TestLink.createTestPlan "Automated test plan 2020-01-01T00:00:00.002Z" (JStr "XPJ");
     TestLink.createBuild (JNum 7) "automated build" "" true true "";
     TestLink.getProjects;
     TestLink.addTestCaseToTestPlan (JNum 1) (JNum 7) "XPJ-5" 1;
     TestLink.reportTCResult
       (mkOptions "XPJ-5" (JNum 7) PASSED (JNum 9) 0.02%float (Some "") [])].
Proof. vm_compute. reflexivity. Qed.

(** ** Order on the wire *)

Lemma sorted_app_inv (a b : list nat) :
  StronglySorted le (a ++ b) ->
  StronglySorted le a /\ StronglySorted le b /\
  (forall x y, In x a -> In y b -> x <= y).
Proof.
  induction a as [|h a IH]; simpl; intros H.
  - split; [constructor|]. split; [exact H|]. intros x y [].
  - inversion H as [|? ? Hs Hall]; subst. destruct (IH Hs) as (Ha & Hb & Hab).
    rewrite List.Forall_forall in Hall.
    split; [|split; [exact Hb|]].
    + constructor; [exact Ha|]. apply List.Forall_forall. intros x Hx.
      apply Hall, in_or_app. left. exact Hx.
    + intros x y [<-|Hx] Hy; [apply Hall, in_or_app; right; exact Hy | apply Hab; assumption].
Qed.

Lemma sorted_app (a b : list nat) :
  StronglySorted le a -> StronglySorted le b ->
  (forall x y, In x a -> In y b -> x <= y) ->
  StronglySorted le (a ++ b).
Proof.
  induction a as [|h a IH]; simpl; intros Ha Hb Hab; [exact Hb|].
  inversion Ha as [|? ? Hs Hall]; subst. rewrite List.Forall_forall in Hall.
  constructor.
  - apply IH; [exact Hs | exact Hb | intros x y Hx Hy; apply Hab; [right|]; assumption].
  - apply List.Forall_forall. intros x Hx. apply in_app_or in Hx.
    destruct Hx as [Hx|Hx]; [apply Hall, Hx | apply Hab; [left; reflexivity | exact Hx]].
Qed.

(** Dropping an element from a sorted list, or doubling it, keeps it sorted. *)
Lemma sorted_drop (a b : list nat) (x : nat) :
  StronglySorted le (a ++ x :: b) -> StronglySorted le (a ++ b).
Proof.
  intros H. apply sorted_app_inv in H. destruct H as (Ha & Hxb & Hab).
  inversion Hxb; subst.
  apply sorted_app; [assumption | assumption |].
  intros u v Hu Hv. apply Hab; [exact Hu | right; exact Hv].
Qed.

Lemma sorted_double (a b : list nat) (x : nat) :
  StronglySorted le (a ++ x :: b) -> StronglySorted le (a ++ x :: x :: b).
Proof.
  intros H. apply sorted_app_inv in H. destruct H as (Ha & Hxb & Hab).
  apply sorted_app; [assumption | |].
  - constructor; [exact Hxb|]. constructor; [lia|]. inversion Hxb; assumption.
  - intros u v Hu [<-|Hv]; apply Hab; [exact Hu | left; reflexivity | exact Hu | exact Hv].
Qed.

Lemma sorted_snoc (a : list nat) (x : nat) :
  StronglySorted le a -> (forall u, In u a -> u <= x) -> StronglySorted le (a ++ [x]).
Proof.
  intros Ha Hle. apply sorted_app; [exact Ha | repeat constructor |].
  intros u v Hu [<-|[]]. apply Hle, Hu.
Qed.

Lemma seqs_suspend_sorted (o : origin) (st : This) (rest : list link)
    (ts : This * suspended) (r : Reporter) :
  StronglySorted le (omap entry_seq (wire r) ++ seq o :: omap link_seq rest) ->
  Forall (fun n => n <= emitted r) (omap entry_seq (wire r) ++ seq o :: omap link_seq rest) ->
  ordered (suspend o st rest ts r).
Proof.
  intros Hs Hb. destruct ts as [t [|e|c k]]; unfold ordered, seqs; simpl.
  - split; [apply (sorted_drop _ _ _ Hs)|].
    rewrite Forall_app in Hb |- *. destruct Hb as [Hb1 Hb2]. inversion Hb2; subst. tauto.
  - split; [apply (sorted_drop _ _ _ Hs)|].
    rewrite Forall_app in Hb |- *. destruct Hb as [Hb1 Hb2]. inversion Hb2; subst. tauto.
  - rewrite omap_app. simpl. rewrite <- app_assoc. simpl.
    split; [apply (sorted_double _ _ _ Hs)|].
    rewrite Forall_app in Hb |- *. destruct Hb as [Hb1 Hb2]. inversion Hb2; subst.
    split; [assumption|]. constructor; [assumption|]. constructor; assumption.
Qed.

Lemma ordered_chain (p : prog unit) (r : Reporter) :
  ordered r -> ordered (chain p r).
Proof.
  intros [Hs Hb]. unfold ordered, seqs, chain in *. simpl.
  rewrite omap_app. simpl. rewrite !app_assoc. split.
  - apply sorted_snoc; [rewrite <- app_assoc; exact Hs|].
    rewrite <- app_assoc. rewrite List.Forall_forall in Hb. exact Hb.
  - apply Forall_app. split; [rewrite <- app_assoc; exact Hb|]. constructor; [lia|constructor].
Qed.

Lemma ordered_emit (ev : event) (r : Reporter) : ordered r -> ordered (emit ev r).
Proof.
  intros [Hs Hb].
  assert (ordered (count_event r)) as H0.
  { split; [exact Hs|]. unfold seqs in *. simpl.
    eapply Forall_impl; [exact Hb|]. simpl. intros; lia. }
  unfold emit. generalize dependent (count_event r). clear. intros r H0.
  destruct ev as [|suite|test|test err]; simpl.
  - destruct (begun r); [exact H0|].
    unfold createTestPlan. destruct (truthy _).
    + exact H0.
    + apply ordered_chain. exact H0.
  - apply publish_invariant; [exact H0 | intros; apply ordered_chain; assumption].
  - apply publish_invariant; [exact H0 | intros; apply ordered_chain; assumption].
  - apply publish_invariant; [exact H0 | intros; apply ordered_chain; assumption].
Qed.

Lemma ordered_settle (now : string) (a : TestLink.outcome) (r : Reporter) :
  ordered r -> ordered (settle now a r).
Proof.
  intros [Hs Hb]. unfold settle. destruct (head r) as [o st k|s] eqn:Hh; [|split; assumption].
  unfold seqs in Hs, Hb. rewrite Hh in Hs, Hb. simpl in Hs, Hb.
  destruct a as [v|e]; apply seqs_suspend_sorted; simpl;
    rewrite omap_app; simpl; rewrite app_nil_r; assumption.
Qed.

Lemma ordered_tick (now : string) (r : Reporter) : ordered r -> ordered (tick now r).
Proof.
  intros [Hs Hb]. unfold tick.
  destruct (head r) as [o st k|[|e]] eqn:Hh; [split; assumption| |];
    (destruct (promiseChain r) as [|[o step|] rest] eqn:Hc; [split; assumption| |]);
    unfold seqs in Hs, Hb; rewrite Hh, Hc in Hs, Hb; simpl in Hs, Hb.
  - apply seqs_suspend_sorted; simpl; assumption.
  - split; unfold seqs; simpl; assumption.
  - unfold ordered, seqs. simpl. split; [apply (sorted_drop _ _ _ Hs)|].
    rewrite Forall_app in Hb |- *. destruct Hb as [Hb1 Hb2]. inversion Hb2; subst. tauto.
  - split; unfold seqs; simpl; assumption.
Qed.

Lemma ordered_run (options : gmap string jsval) (ls : list label) :
  ordered (run ls (fresh options)).
Proof.
  apply run_invariant.
  - split; unfold seqs; simpl; repeat constructor.
  - intros [ev|now a|now] r Hr; simpl;
      [apply ordered_emit | apply ordered_settle | apply ordered_tick]; exact Hr.
Qed.

Lemma sorted_lookup (w : list entry) (i j x y : nat) (a b : entry) :
  StronglySorted le (omap entry_seq w) -> i <= j ->
  w !! i = Some a -> w !! j = Some b ->
  entry_seq a = Some x -> entry_seq b = Some y -> x <= y.
Proof.
  revert i j. induction w as [|e w IH]; intros i j Hs Hij Hi Hj Ha Hb; [discriminate|].
  destruct i as [|i].
  - injection Hi as ->. destruct j as [|j].
    + injection Hj as ->. rewrite Ha in Hb. injection Hb as ->. lia.
    + simpl in Hs, Hj. rewrite Ha in Hs. inversion Hs as [|? ? _ Hall]; subst.
      rewrite List.Forall_forall in Hall. apply Hall.
      apply list_elem_of_In, list_elem_of_omap. exists b. split; [|exact Hb].
      apply list_elem_of_lookup. exists j. exact Hj.
  - destruct j as [|j]; [lia|]. simpl in Hi, Hj.
    apply (IH i j); try assumption; [|lia].
    simpl in Hs. destruct (entry_seq e); [inversion Hs; assumption | exact Hs].
Qed.

(** ** One call at a time *)

Lemma alternates_snoc (w : list entry) (e : entry) :
  alternates w -> is_issued e = Nat.even (length w) -> alternates (w ++ [e]).
Proof.
  intros Hw He i x Hi. apply lookup_app_Some in Hi.
  destruct Hi as [Hi|[Hlen Hi]]; [apply Hw, Hi|].
  destruct (i - length w) as [|n] eqn:Hn; [|discriminate].
  injection Hi as <-. replace i with (length w) by lia. exact He.
Qed.

Lemma one_at_a_time_suspend (o : origin) (st : This) (rest : list link)
    (ts : This * suspended) (r : Reporter) :
  alternates (wire r) -> Nat.even (length (wire r)) = true ->
  one_at_a_time (suspend o st rest ts r).
Proof.
  intros Hw Hlen. destruct ts as [t [|e|c k]]; unfold one_at_a_time; simpl.
  - split; assumption.
  - split; assumption.
  - split; [apply alternates_snoc; [exact Hw | rewrite Hlen; reflexivity]|].
    rewrite length_app. simpl. rewrite Nat.add_1_r, Nat.even_succ, <- Nat.negb_even, Hlen.
    reflexivity.
Qed.

Lemma one_at_a_time_emit (ev : event) (r : Reporter) :
  one_at_a_time r -> one_at_a_time (emit ev r).
Proof.
  intros H0. unfold emit.
  assert (one_at_a_time (count_event r)) as H1 by exact H0.
  generalize dependent (count_event r). clear. intros r H0.
  destruct ev as [|suite|test|test err]; simpl.
  - destruct (begun r); [exact H0|].
    unfold createTestPlan. destruct (truthy _); exact H0.
  - apply publish_invariant; [exact H0 | intros ? ? H; exact H].
  - apply publish_invariant; [exact H0 | intros ? ? H; exact H].
  - apply publish_invariant; [exact H0 | intros ? ? H; exact H].
Qed.

Lemma one_at_a_time_settle (now : string) (a : TestLink.outcome) (r : Reporter) :
  one_at_a_time r -> one_at_a_time (settle now a r).
Proof.
  intros [Hw Hlen]. unfold settle.
  destruct (head r) as [o st k|s] eqn:Hh; [|split; [exact Hw | rewrite Hh; exact Hlen]].
  simpl in Hlen.
  assert (alternates (wire (answer a r)) /\ Nat.even (length (wire (answer a r))) = true)
    as [Hw' Hlen'].
  { simpl. split; [apply alternates_snoc; [exact Hw | rewrite Hlen; reflexivity]|].
    rewrite length_app. simpl. rewrite Nat.add_1_r, Nat.even_succ, <- Nat.negb_even, Hlen.
    reflexivity. }
  destruct a as [v|e]; apply one_at_a_time_suspend; assumption.
Qed.

Lemma one_at_a_time_tick (now : string) (r : Reporter) :
  one_at_a_time r -> one_at_a_time (tick now r).
Proof.
  intros [Hw Hlen]. unfold tick.
  destruct (head r) as [o st k|[|e]] eqn:Hh; [split; [exact Hw | rewrite Hh; exact Hlen]| |];
    (destruct (promiseChain r) as [|[o step|] rest] eqn:Hc;
       [split; [exact Hw | rewrite Hh; exact Hlen]| |]); simpl in Hlen.
  - apply one_at_a_time_suspend; assumption.
  - split; assumption.
  - split; assumption.
  - split; assumption.
Qed.

Lemma one_at_a_time_run (options : gmap string jsval) (ls : list label) :
  one_at_a_time (run ls (fresh options)).
Proof.
  apply run_invariant.
  - split; [|reflexivity]. intros [|i] e He; [|discriminate]. injection He as <-. reflexivity.
  - intros [ev|now a|now] r Hr; simpl;
      [apply one_at_a_time_emit | apply one_at_a_time_settle | apply one_at_a_time_tick];
      exact Hr.
Qed.

(** C1: whatever the runner emits and however the calls settle, calls and
    their answers take turns on the wire, so that a call goes out only when
    the call before it has been answered, and the calls go out in the order
    of the events they were chained for. *)
Theorem calls_in_event_order (options : gmap string jsval) (ls : list label) :
  (forall i e, wire (run ls (fresh options)) !! i = Some e ->
     (Nat.even i = true <-> exists o st c, e = Issued o st c) /\
     (Nat.odd i = true <-> exists a, e = Answered a)) /\
  (forall i o st c, wire (run ls (fresh options)) !! (S i) = Some (Issued o st c) ->
     exists a, wire (run ls (fresh options)) !! i = Some (Answered a)) /\
  (forall i j oi sti ci oj stj cj, i <= j ->
     wire (run ls (fresh options)) !! i = Some (Issued oi sti ci) ->
     wire (run ls (fresh options)) !! j = Some (Issued oj stj cj) ->
     seq oi <= seq oj) /\
  (forall i o st c, wire (run ls (fresh options)) !! i = Some (Issued o st c) ->
     seq o <= emitted (run ls (fresh options))).
Proof.
  destruct (one_at_a_time_run options ls) as [Halt _].
  destruct (ordered_run options ls) as [Hs Hb].
  set (r := run ls (fresh options)) in *.
  assert (forall i e, wire r !! i = Some e ->
     (Nat.even i = true <-> exists o st c, e = Issued o st c) /\
     (Nat.odd i = true <-> exists a, e = Answered a)) as Hturn.
  { intros i e He. specialize (Halt i e He). rewrite <- Nat.negb_even, <- Halt.
    destruct e as [o st c|a]; simpl; (split; split).
    - eauto.
    - reflexivity.
    - discriminate.
    - intros (? & [=]).
    - discriminate.
    - intros (? & ? & ? & [=]).
    - eauto.
    - reflexivity. }
  split; [exact Hturn|]. split; [|split].
  - intros i o st c Hi.
    destruct (lookup_lt_is_Some_2 (wire r) i) as [e He];
      [apply lookup_lt_Some in Hi; lia|].
    destruct (Hturn i e He) as [_ Hodd]. destruct (Hturn _ _ Hi) as [Hev _].
    assert (Nat.even (S i) = true) as HS by (apply Hev; eauto).
    rewrite Nat.even_succ in HS. apply Hodd in HS. destruct HS as [a ->].
    exists a. exact He.
  - intros i j oi sti ci oj stj cj Hij Hi Hj.
    unfold seqs in Hs. apply sorted_app_inv in Hs. destruct Hs as [Hs _].
    apply (sorted_lookup (wire r) i j _ _ _ _ Hs Hij Hi Hj); reflexivity.
  - intros i o st c Hi. unfold seqs in Hb. apply Forall_app in Hb. destruct Hb as [Hb _].
    rewrite List.Forall_forall in Hb. apply Hb.
    apply list_elem_of_In, list_elem_of_omap. exists (Issued o st c).
    split; [|reflexivity]. apply list_elem_of_lookup. exists i. exact Hi.
Qed.

(** ** Steps that keep to a discipline *)

Section SafeRun.

Variable options : gmap string jsval.
Variable I : list entry -> This -> Prop.
Variable R : TestLink.call -> list Entity -> Prop.
Variable C : list entry -> origin -> This -> TestLink.call -> Prop.

Hypothesis I_rejected : forall w t e,
  I w t -> I (w ++ [Answered (TestLink.Rejected e)]) t.
Hypothesis I_fresh : I [Issued origin0 this0 TestLink.checkDevKey] this0.
Hypothesis I_checked : forall v t,
  I [Issued origin0 this0 TestLink.checkDevKey] t ->
  I ([Issued origin0 this0 TestLink.checkDevKey] ++ [Answered (TestLink.Resolved v)]) t.
Hypothesis C_fresh : C [] origin0 this0 TestLink.checkDevKey.
Hypothesis I_adopt : truthy (prop options "testplanid") = true ->
  forall w t, I w t ->
    I w (mkThis (prop options "testplanid") (prop options "buildid") (this_testproject t)).
Hypothesis publish_obeys : forall gen caseId o w st,
  listener_gen gen -> I w st -> obeys I R C o st (publishStep gen caseId) w st.
Hypothesis provision_obeys : truthy (prop options "testplanid") = false ->
  forall o w st, I w st -> obeys I R C o st (provisionStep options) w st.

Lemma run_sync_obeys (now : string) (o : origin) (st : This) (p : prog unit)
    (w : list entry) (this : This) :
  obeys I R C o st p w this -> stretch_ok I R C o st w (run_sync now p this).
Proof.
  revert this. induction p as [a|e|k IH|t k IH|k IH|c k IH]; intros this H; simpl in *.
  - exact H.
  - exact H.
  - apply IH, H.
  - apply IH, H.
  - apply IH, H.
  - exact H.
Qed.

Lemma issued_snoc (w : list entry) (x : entry) :
  (forall j o st c, w !! j = Some (Issued o st c) -> C (take j w) o st c) ->
  (forall o st c, x = Issued o st c -> C w o st c) ->
  forall j o st c, (w ++ [x]) !! j = Some (Issued o st c) -> C (take j (w ++ [x])) o st c.
Proof.
  intros Hw Hx j o st c Hj. apply lookup_app_Some in Hj.
  destruct Hj as [Hj|[Hlen Hj]].
  - rewrite take_app_le by (apply lookup_lt_Some in Hj; lia). apply Hw, Hj.
  - destruct (j - length w) as [|n] eqn:Hn; [|discriminate]. injection Hj as ->.
    replace j with (length w) by lia. rewrite take_app_length. apply Hx. reflexivity.
Qed.

Lemma safe_suspend (o : origin) (st : This) (rest : list link)
    (ts : This * suspended) (r : Reporter) :
  reporterOptions r = options -> Forall (obedient I R C) rest ->
  (forall j o st c, wire r !! j = Some (Issued o st c) -> C (take j (wire r)) o st c) ->
  stretch_ok I R C o st (wire r) ts ->
  safe I R C options (suspend o st rest ts r).
Proof.
  intros Hopt Hrest Hwire Hts. destruct ts as [t [|e|c k]]; simpl in *.
  - repeat split; assumption.
  - repeat split; assumption.
  - destruct Hts as (Hc & Hi & Hk). split; [exact Hopt|]. split; [exact Hi|].
    split; [exact Hrest|]. split.
    + exists (wire r), c. split; [reflexivity | exact Hk].
    + apply issued_snoc; [exact Hwire|]. intros ? ? ? [= <- <- <-]. exact Hc.
Qed.

Lemma safe_chain (p : prog unit) (r : Reporter) :
  (forall o w st, I w st -> obeys I R C o st p w st) ->
  safe I R C options r -> safe I R C options (chain p r).
Proof.
  intros Hp (Hopt & Hi & Hch & Hh & Hw). unfold chain. repeat split; simpl; try assumption.
  apply Forall_app. split; [exact Hch|]. constructor; [|constructor; [exact Logic.I|constructor]].
  intros w st. apply Hp.
Qed.

Lemma safe_publish (title : string) (gen : This -> string -> Options) (r : Reporter) :
  listener_gen gen -> safe I R C options r ->
  safe I R C options (publishTestResults title gen r).
Proof.
  intros Hgen Hr. apply publish_invariant; [exact Hr|].
  intros caseId r' Hr'. apply safe_chain; [|exact Hr'].
  intros o w st. apply publish_obeys, Hgen.
Qed.

Lemma safe_emit (ev : event) (r : Reporter) :
  safe I R C options r -> safe I R C options (emit ev r).
Proof.
  intros Hr. unfold emit.
  assert (safe I R C options (count_event r)) as H1 by exact Hr.
  clear Hr. revert H1. generalize (count_event r). clear r. intros r Hr.
  destruct ev as [|suite|test|test err]; simpl.
  - destruct (begun r) eqn:Hb; [exact Hr|].
    assert (safe I R C options (mark_begun r)) as Hm by exact Hr.
    destruct Hr as (Hopt & _). rewrite Hopt. unfold createTestPlan.
    pose proof I_adopt as Hadopt. pose proof provision_obeys as Hprov.
    destruct (truthy (prop options "testplanid")).
    + destruct Hm as (Hopt' & Hi & Hch & Hh & Hw).
      repeat split; simpl; try assumption. apply (Hadopt eq_refl), Hi.
    + apply safe_chain; [|exact Hm]. apply (Hprov eq_refl).
  - apply safe_publish; [constructor | exact Hr].
  - apply safe_publish; [constructor | exact Hr].
  - apply safe_publish; [constructor | exact Hr].
Qed.

Lemma safe_settle (now : string) (a : TestLink.outcome) (r : Reporter) :
  match a with
  | TestLink.Resolved v => forall c, awaited r = Some c -> R c v
  | TestLink.Rejected _ => True
  end ->
  safe I R C options r -> safe I R C options (settle now a r).
Proof.
  intros Ha Hr. pose proof Hr as (Hopt & Hi & Hch & Hh & Hw). unfold settle.
  destruct (head r) as [o st k|s] eqn:Hhead; [|exact Hr].
  destruct Hh as (w & c & Hwire & Hk).
  assert (forall j o st c, wire (answer a r) !! j = Some (Issued o st c) ->
            C (take j (wire (answer a r))) o st c) as Hw'.
  { simpl. apply issued_snoc; [exact Hw|]. intros ? ? ? [=]. }
  destruct a as [v|e]; apply safe_suspend; try assumption.
  - apply run_sync_obeys. simpl. apply Hk; [|exact Hi].
    apply Ha. unfold awaited. rewrite Hhead, Hwire, last_snoc. reflexivity.
  - simpl. apply I_rejected, Hi.
Qed.

Lemma safe_tick (now : string) (r : Reporter) :
  safe I R C options r -> safe I R C options (tick now r).
Proof.
  intros Hr. pose proof Hr as (Hopt & Hi & Hch & Hh & Hw). unfold tick.
  destruct (head r) as [o st k|[|e]] eqn:Hhead; [exact Hr| |];
    (destruct (promiseChain r) as [|[o step|] rest] eqn:Hc; [exact Hr| |]);
    apply Forall_cons in Hch; destruct Hch as [Hl Hrest].
  - apply safe_suspend; simpl; try assumption.
    apply run_sync_obeys. apply Hl, Hi.
  - repeat split; simpl; assumption.
  - repeat split; simpl; assumption.
  - repeat split; simpl; assumption.
Qed.

Lemma safe_fresh : safe I R C options (fresh options).
Proof.
  split; [reflexivity|]. split; [exact I_fresh|]. split; [repeat constructor|]. split.
  - exists [], TestLink.checkDevKey. split; [reflexivity|]. intros v t _ Ht. simpl.
    apply I_checked, Ht.
  - intros [|j] o st c Hj; [|discriminate]. injection Hj as <- <- <-. exact C_fresh.
Qed.

Lemma safe_run (ls : list label) (r : Reporter) :
  safe I R C options r -> respects R ls r -> safe I R C options (run ls r).
Proof.
  revert r. induction ls as [|l ls IH]; intros r Hr Hls; [exact Hr|].
  destruct Hls as [Hl Hls]. simpl. apply IH; [|exact Hls].
  destruct l as [ev|now a|now]; simpl.
  - apply safe_emit, Hr.
  - apply safe_settle; [|exact Hr]. destruct a; [exact Hl | exact Logic.I].
  - apply safe_tick, Hr.
Qed.

Lemma safe_from_fresh (ls : list label) :
  respects R ls (fresh options) -> safe I R C options (run ls (fresh options)).
Proof. apply safe_run, safe_fresh. Qed.

End SafeRun.

Lemma respects_any (ls : list label) (r : Reporter) :
  respects (fun _ _ => True) ls r.
Proof.
  revert r. induction ls as [|l ls IH]; intros r; [exact Logic.I|].
  split; [|apply IH]. destruct l as [|? []|]; auto.
Qed.

(** ** The steps of the reporter *)

Ltac unfold_step :=
  unfold publishStep, provisionStep, mbind, prog_mbind, getThis, setThis,
         toISOString, await, first_id; simpl.

Lemma listener_gen_fields (gen : This -> string -> Options) (st : This) (caseId : string) :
  listener_gen gen ->
  testcaseexternalid (gen st caseId) = caseId /\
  testplanid (gen st caseId) = this_testplanid st /\
  buildid (gen st caseId) = this_buildid st.
Proof. intros [suite|test|test err]; repeat split. Qed.

(** ** When a record is built *)

Lemma built_when_run (options : gmap string jsval) (ls : list label) :
  safe (fun _ _ => True) (fun _ _ => True)
       (fun _ _ st c => forall opts, c = TestLink.reportTCResult opts ->
          exists gen caseId, listener_gen gen /\ opts = gen st caseId)
       options (run ls (fresh options)).
Proof.
  apply safe_from_fresh; try (intros; exact Logic.I); [| | |apply respects_any].
  - intros opts [=].
  - intros gen caseId o w st Hgen _. unfold_step.
    destruct (this_testproject st); simpl.
    + split; [intros opts [=]|]. split; [exact Logic.I|]. intros _ _ _ _. simpl.
      split; [intros opts [= <-]; exists gen, caseId; split; [exact Hgen | reflexivity]|].
      split; [exact Logic.I|]. intros; exact Logic.I.
    + split; [intros opts [= <-]; exists gen, caseId; split; [exact Hgen | reflexivity]|].
      split; [exact Logic.I|]. intros; exact Logic.I.
  - intros _ o w st _. unfold_step. intros now.
    split; [intros opts [=]|]. split; [exact Logic.I|]. intros [|e1 v1] t1 _ _; simpl;
      [exact Logic.I|].
    split; [intros opts [=]|]. split; [exact Logic.I|]. intros [|e2 v2] t2 _ _; simpl;
      [exact Logic.I|].
    split; [intros opts [=]|]. split; [exact Logic.I|]. intros; exact Logic.I.
Qed.

(** C2, as the code has it: a record that is reported is what the listener's
    generator yields on the reporter's fields as they are when the chained
    step starts to run; its plan id and its build id are the values the fields
    have then. *)
Theorem record_built_when_step_runs (options : gmap string jsval) (ls : list label)
    (j : nat) (o : origin) (st : This) (opts : Options) :
  wire (run ls (fresh options)) !! j = Some (Issued o st (TestLink.reportTCResult opts)) ->
  testplanid opts = this_testplanid st /\ buildid opts = this_buildid st /\
  exists gen caseId, listener_gen gen /\ opts = gen st caseId.
Proof.
  intros Hj. destruct (built_when_run options ls) as (_ & _ & _ & _ & Hw).
  destruct (Hw j o st _ Hj opts eq_refl) as (gen & caseId & Hgen & ->).
  destruct (listener_gen_fields gen st caseId Hgen) as (_ & Hp & Hb).
  split; [exact Hp|]. split; [exact Hb|]. exists gen, caseId. split; [exact Hgen | reflexivity].
Qed.

Lemma record_built_when_step_runs_witness :
  wire (run xpj_run (fresh xpj_options)) !! 10 =
    Some (Issued (mkOrigin 2 this0)
            (mkThis (JNum 7) (JNum 9) (Some (mkEntity (JNum 1) (JStr "XPJ"))))
            (TestLink.reportTCResult
               (mkOptions "XPJ-5" (JNum 7) PASSED (JNum 9) 0.02%float (Some "") []))) /\
  testplanid (mkOptions "XPJ-5" (JNum 7) PASSED (JNum 9) 0.02%float (Some "") []) =
    this_testplanid (mkThis (JNum 7) (JNum 9) (Some (mkEntity (JNum 1) (JStr "XPJ")))) /\
  buildid (mkOptions "XPJ-5" (JNum 7) PASSED (JNum 9) 0.02%float (Some "") []) =
    this_buildid (mkThis (JNum 7) (JNum 9) (Some (mkEntity (JNum 1) (JStr "XPJ")))).
Proof.
  split; [vm_compute; reflexivity|].
  destruct (record_built_when_step_runs xpj_options xpj_run 10 (mkOrigin 2 this0)
              (mkThis (JNum 7) (JNum 9) (Some (mkEntity (JNum 1) (JStr "XPJ"))))
              (mkOptions "XPJ-5" (JNum 7) PASSED (JNum 9) 0.02%float (Some "") []))
    as (Hp & Hb & _); [vm_compute; reflexivity|].
  split; [exact Hp | exact Hb].
Defined.

(** C2 as claimed fails: in [xpj_run] the test passes before the plan is
    provisioned, the fields are still undefined when its step is chained, and
    the record that is reported carries plan 7 and build 9. *)
Lemma record_not_built_when_chained :
  ~ (forall (options : gmap string jsval) (ls : list label)
            (j : nat) (o : origin) (st : This) (opts : Options),
       wire (run ls (fresh options)) !! j = Some (Issued o st (TestLink.reportTCResult opts)) ->
       testplanid opts = this_testplanid (enqueued_with o) /\
       buildid opts = this_buildid (enqueued_with o)).
Proof.
  intros H.
  destruct (H xpj_options xpj_run 10 (mkOrigin 2 this0)
              (mkThis (JNum 7) (JNum 9) (Some (mkEntity (JNum 1) (JStr "XPJ"))))
              (mkOptions "XPJ-5" (JNum 7) PASSED (JNum 9) 0.02%float (Some "") []))
    as [Hplan _]; [vm_compute; reflexivity|].
  discriminate Hplan.
Qed.

(** ** Adding cases to the plan *)

Lemma added_before_reported (options : gmap string jsval) (ls : list label) :
  safe (fun _ _ => True) (fun _ _ => True)
       (fun w o st c => forall opts p,
          c = TestLink.reportTCResult opts -> this_testproject st = Some p ->
          exists w0 v,
            w = w0 ++ [Issued o st (TestLink.addTestCaseToTestPlan (id p) (this_testplanid st)
                                      (testcaseexternalid opts) 1);
                       Answered (TestLink.Resolved v)])
       options (run ls (fresh options)).
Proof.
  apply safe_from_fresh; try (intros; exact Logic.I); [| | |apply respects_any].
  - intros opts p [=].
  - intros gen caseId o w st Hgen _. unfold_step.
    destruct (this_testproject st) as [p|] eqn:Hp; simpl.
    + split; [intros opts p' [=]|]. split; [exact Logic.I|]. intros v _ _ _. simpl.
      split; [|split; [exact Logic.I | intros; exact Logic.I]].
      intros opts p' Ho Hp'.
      assert (p' = p) as -> by congruence.
      assert (opts = gen st caseId) as -> by congruence.
      exists w, v. symmetry. apply (List.app_assoc w [_] [_]).
    + split; [intros opts p' _ Hp'; rewrite Hp in Hp'; discriminate Hp'|].
      split; [exact Logic.I|]. intros; exact Logic.I.
  - intros _ o w st _. unfold_step. intros now.
    split; [intros opts p [=]|]. split; [exact Logic.I|]. intros [|e1 v1] t1 _ _; simpl;
      [exact Logic.I|].
    split; [intros opts p [=]|]. split; [exact Logic.I|]. intros [|e2 v2] t2 _ _; simpl;
      [exact Logic.I|].
    split; [intros opts p [=]|]. split; [exact Logic.I|]. intros; exact Logic.I.
Qed.

Lemma never_added_with_plan (options : gmap string jsval) (ls : list label) :
  truthy (prop options "testplanid") = true ->
  safe (fun _ t => this_testproject t = None) (fun _ _ => True)
       (fun _ _ st c => this_testproject st = None /\
          forall a b d e, c <> TestLink.addTestCaseToTestPlan a b d e)
       options (run ls (fresh options)).
Proof.
  intros Hplan.
  apply safe_from_fresh; try (intros; assumption); try reflexivity; [| | |apply respects_any].
  - split; [reflexivity | discriminate].
  - intros gen caseId o w st Hgen Hst. unfold_step. rewrite Hst. simpl.
    split; [split; [exact Hst | discriminate]|]. split; [exact Hst|].
    intros v t _ Ht. exact Ht.
  - intros Hauto. rewrite Hplan in Hauto. discriminate Hauto.
Qed.

(** C8: a result that is reported by a step which found a resolved project
    has the call that adds the same case to the same plan right before it on
    the wire, resolved; with a plan id in the options no project is ever
    resolved and no call that adds a case to a plan goes out. *)
Theorem case_added_before_result (options : gmap string jsval) (ls : list label) :
  (forall j o st opts p,
     wire (run ls (fresh options)) !! j = Some (Issued o st (TestLink.reportTCResult opts)) ->
     this_testproject st = Some p ->
     exists i v,
       j = S (S i) /\
       wire (run ls (fresh options)) !! i =
         Some (Issued o st (TestLink.addTestCaseToTestPlan
                              (id p) (testplanid opts) (testcaseexternalid opts) 1)) /\
       wire (run ls (fresh options)) !! (S i) = Some (Answered (TestLink.Resolved v))) /\
  (truthy (prop options "testplanid") = true ->
   this_testproject (this (run ls (fresh options))) = None /\
   forall j o st c,
     wire (run ls (fresh options)) !! j = Some (Issued o st c) ->
     this_testproject st = None /\
     forall a b d e, c <> TestLink.addTestCaseToTestPlan a b d e).
Proof.
  split.
  - intros j o st opts p Hj Hp.
    destruct (added_before_reported options ls) as (_ & _ & _ & _ & Hw).
    destruct (Hw j o st _ Hj opts p eq_refl Hp) as (w0 & v & Htake).
    destruct (built_when_run options ls) as (_ & _ & _ & _ & Hbuilt).
    destruct (Hbuilt j o st _ Hj opts eq_refl) as (gen & caseId & Hgen & Hopts).
    assert (testplanid opts = this_testplanid st) as Hplan
      by (rewrite Hopts; apply (listener_gen_fields gen st caseId Hgen)).
    assert (j = S (S (length w0))) as ->.
    { apply (f_equal length) in Htake. rewrite length_take, length_app in Htake.
      apply lookup_lt_Some in Hj. simpl in Htake. lia. }
    exists (length w0), v. split; [reflexivity|]. rewrite Hplan.
    split.
    + rewrite <- (lookup_take_lt _ (S (S (length w0)))) by lia.
      rewrite Htake. apply list_lookup_middle. reflexivity.
    + rewrite <- (lookup_take_lt _ (S (S (length w0)))) by lia.
      rewrite Htake. change (w0 ++ [?a; ?b]) with (w0 ++ [a] ++ [b]).
      rewrite List.app_assoc.
      apply list_lookup_middle. rewrite length_app. simpl. lia.
  - intros Hplan.
    destruct (never_added_with_plan options ls Hplan) as (_ & Hi & _ & _ & Hw).
    split; [exact Hi|]. intros j o st c Hj. apply (Hw j o st c Hj).
Qed.

Lemma case_added_before_result_witness :
  (exists i v,
     10 = S (S i) /\
     wire (run xpj_run (fresh xpj_options)) !! i =
       Some (Issued (mkOrigin 2 this0)
               (mkThis (JNum 7) (JNum 9) (Some (mkEntity (JNum 1) (JStr "XPJ"))))
               (TestLink.addTestCaseToTestPlan (JNum 1) (JNum 7) "XPJ-5" 1)) /\
     wire (run xpj_run (fresh xpj_options)) !! (S i) = Some (Answered (TestLink.Resolved v))) /\
  (this_testproject (this (run plan_run (fresh plan_options))) = None /\
   forall j o st c,
     wire (run plan_run (fresh plan_options)) !! j = Some (Issued o st c) ->
     this_testproject st = None /\
     forall a b d e, c <> TestLink.addTestCaseToTestPlan a b d e).
Proof.
  split.
  - apply (proj1 (case_added_before_result xpj_options xpj_run) 10 (mkOrigin 2 this0)
             (mkThis (JNum 7) (JNum 9) (Some (mkEntity (JNum 1) (JStr "XPJ"))))
             (mkOptions "XPJ-5" (JNum 7) PASSED (JNum 9) 0.02%float (Some "") [])
             (mkEntity (JNum 1) (JStr "XPJ"))).
    + vm_compute. reflexivity.
    + reflexivity.
  - apply (proj2 (case_added_before_result plan_options plan_run)). reflexivity.
Defined.

(** ** Provisioning without a matching project *)

Lemma provisioned_plan_skip (x y : entry) (rw : list entry) :
  is_createTestPlan y = false ->
  provisioned_plan (x :: y :: rw) = provisioned_plan (y :: rw).
Proof.
  intros Hy. destruct x as [o st c|[[|e v]|e]]; try reflexivity.
  destruct y as [o st []|a]; try reflexivity. discriminate Hy.
Qed.

Lemma provisioned_build_skip (x y : entry) (rw : list entry) :
  is_createBuild y = false ->
  provisioned_build (x :: y :: rw) = provisioned_build (y :: rw).
Proof.
  intros Hy. destruct x as [o st c|[[|e v]|e]]; try reflexivity.
  destruct y as [o st []|a]; try reflexivity. discriminate Hy.
Qed.

Lemma provisioned_plan_latest (w1 w2 : list entry) (o : origin) (st : This)
    (n : string) (p : jsval) (e : Entity) (es : list Entity) :
  Forall (fun x => is_createTestPlan x = false) w2 ->
  provisioned_plan
    (rev (w1 ++ [Issued o st (TestLink.createTestPlan n p);
                 Answered (TestLink.Resolved (e :: es))] ++ w2)) = id e.
Proof.
  intros Hw2. rewrite !rev_app_distr. simpl. rewrite <- app_assoc. simpl.
  apply Forall_rev in Hw2. induction (rev w2) as [|x rw IH]; [reflexivity|].
  apply Forall_cons in Hw2. destruct Hw2 as [Hx Hrw]. specialize (IH Hrw).
  destruct rw as [|y rw]; simpl app in *.
  - rewrite provisioned_plan_skip by reflexivity. exact IH.
  - apply Forall_cons in Hrw. destruct Hrw as [Hy _].
    rewrite provisioned_plan_skip by exact Hy. exact IH.
Qed.

Lemma provisioned_build_latest (w1 w2 : list entry) (o : origin) (st : This)
    (t : jsval) (n s : string) (b1 b2 : bool) (d : string) (e : Entity) (es : list Entity) :
  Forall (fun x => is_createBuild x = false) w2 ->
  provisioned_build
    (rev (w1 ++ [Issued o st (TestLink.createBuild t n s b1 b2 d);
                 Answered (TestLink.Resolved (e :: es))] ++ w2)) = id e.
Proof.
  intros Hw2. rewrite !rev_app_distr. simpl. rewrite <- app_assoc. simpl.
  apply Forall_rev in Hw2. induction (rev w2) as [|x rw IH]; [reflexivity|].
  apply Forall_cons in Hw2. destruct Hw2 as [Hx Hrw]. specialize (IH Hrw).
  destruct rw as [|y rw]; simpl app in *.
  - rewrite provisioned_build_skip by reflexivity. exact IH.
  - apply Forall_cons in Hrw. destruct Hrw as [Hy _].
    rewrite provisioned_build_skip by exact Hy. exact IH.
Qed.

Section Unresolved.

Variable options : gmap string jsval.
Hypothesis auto_provision : truthy (prop options "testplanid") = false.

Lemma unresolved_safe (ls : list label) :
  respects (no_match options) ls (fresh options) ->
  safe as_provisioned (no_match options) report_provisioned options (run ls (fresh options)).
Proof.
  apply safe_from_fresh.
  - intros w t e (Hp & Hplan & Hbuild). unfold as_provisioned.
    rewrite rev_app_distr. simpl. auto.
  - repeat split.
  - intros v t (Hp & Hplan & Hbuild). unfold as_provisioned. simpl in *.
    destruct v; simpl; auto.
  - split; [reflexivity|]. split; [discriminate|]. intros opts [=].
  - intros Hplan. rewrite auto_provision in Hplan. discriminate Hplan.
  - intros gen caseId o w st Hgen (Hp & Hplan & Hbuild). unfold_step. rewrite Hp. simpl.
    destruct (listener_gen_fields gen st caseId Hgen) as (_ & Hgp & Hgb).
    split; [split; [exact Hp|split; [discriminate|]]|].
    { intros opts [= <-]. rewrite Hgp, Hgb. auto. }
    split; [unfold as_provisioned; rewrite rev_app_distr; simpl; auto|].
    intros v t _ (Hp' & Hplan' & Hbuild'). unfold as_provisioned.
    rewrite rev_app_distr in Hplan', Hbuild'. rewrite !rev_app_distr.
    simpl in *. destruct v; simpl; auto.
  - intros _ o w st (Hp & Hplan & Hbuild). unfold_step. intros now.
    split; [split; [exact Hp | split; [discriminate | intros opts [=]]]|].
    split; [unfold as_provisioned; rewrite rev_app_distr; simpl; auto|].
    intros v1 t1 _ (Hp1 & Hplan1 & Hbuild1).
    rewrite rev_app_distr in Hplan1, Hbuild1. simpl in Hplan1, Hbuild1.
    destruct v1 as [|e1 v1]; simpl.
    { unfold as_provisioned. rewrite !rev_app_distr. simpl. auto. }
    split; [split; [exact Hp | split; [discriminate | intros opts [=]]]|].
    split; [unfold as_provisioned; rewrite !rev_app_distr; simpl; auto|].
    intros v2 t2 _ (Hp2 & Hplan2 & Hbuild2).
    rewrite !rev_app_distr in Hplan2, Hbuild2. simpl in Hplan2, Hbuild2.
    destruct v2 as [|e2 v2]; simpl.
    { unfold as_provisioned. rewrite !rev_app_distr. simpl. auto. }
    split; [split; [exact Hp | split; [discriminate | intros opts [=]]]|].
    split; [unfold as_provisioned; rewrite !rev_app_distr; simpl; auto|].
    intros v3 t3 Hfind (Hp3 & Hplan3 & Hbuild3).
    rewrite !rev_app_distr in Hplan3, Hbuild3. simpl in Hplan3, Hbuild3.
    unfold as_provisioned. rewrite !rev_app_distr. simpl.
    split; [apply Hfind; reflexivity|].
    destruct v3; simpl; auto.
Qed.

End Unresolved.

(** C10: without a plan id in the options, when no project that
    [getProjects] resolves with has the configured prefix, no project is
    resolved, no call that adds a case to a plan goes out, every result that
    is reported carries the plan id and the build id that provisioning has
    assigned by then (the ids of the first elements of the latest non-empty
    answers to [createTestPlan] and [createBuild]), and a publishing step
    that comes to run sends its result at once. *)
Theorem unmatched_prefix_reports_only (options : gmap string jsval) (ls : list label) :
  truthy (prop options "testplanid") = false ->
  respects (no_match options) ls (fresh options) ->
  this_testproject (this (run ls (fresh options))) = None /\
  (forall j o st c,
     wire (run ls (fresh options)) !! j = Some (Issued o st c) ->
     this_testproject st = None /\
     forall a b d e, c <> TestLink.addTestCaseToTestPlan a b d e) /\
  (forall j o st opts,
     wire (run ls (fresh options)) !! j = Some (Issued o st (TestLink.reportTCResult opts)) ->
     testplanid opts = provisioned_plan (rev (take j (wire (run ls (fresh options))))) /\
     buildid opts = provisioned_build (rev (take j (wire (run ls (fresh options)))))) /\
  (forall j o st opts w1 w2 o1 st1 n p e es,
     wire (run ls (fresh options)) !! j = Some (Issued o st (TestLink.reportTCResult opts)) ->
     take j (wire (run ls (fresh options))) =
       w1 ++ [Issued o1 st1 (TestLink.createTestPlan n p);
              Answered (TestLink.Resolved (e :: es))] ++ w2 ->
     Forall (fun x => is_createTestPlan x = false) w2 ->
     testplanid opts = id e) /\
  (forall j o st opts w1 w2 o1 st1 t n s b1 b2 d e es,
     wire (run ls (fresh options)) !! j = Some (Issued o st (TestLink.reportTCResult opts)) ->
     take j (wire (run ls (fresh options))) =
       w1 ++ [Issued o1 st1 (TestLink.createBuild t n s b1 b2 d);
              Answered (TestLink.Resolved (e :: es))] ++ w2 ->
     Forall (fun x => is_createBuild x = false) w2 ->
     buildid opts = id e) /\
  (forall now o gen caseId rest,
     head (run ls (fresh options)) = Settled Fulfilled ->
     promiseChain (run ls (fresh options)) = LThen o (publishStep gen caseId) :: rest ->
     wire (tick now (run ls (fresh options))) =
       wire (run ls (fresh options)) ++
       [Issued o (this (run ls (fresh options)))
          (TestLink.reportTCResult (gen (this (run ls (fresh options))) caseId))]).
Proof.
  intros Hauto Hls.
  destruct (unresolved_safe options Hauto ls Hls) as (_ & (Hp & _) & _ & _ & Hw).
  split; [exact Hp|]. split; [|split; [|split; [|split]]].
  - intros j o st c Hj. destruct (Hw j o st c Hj) as (Hst & Hadd & _).
    split; assumption.
  - intros j o st opts Hj. apply (Hw j o st _ Hj). reflexivity.
  - intros j o st opts w1 w2 o1 st1 n p e es Hj Htake Hw2.
    destruct (Hw j o st _ Hj) as (_ & _ & Hids). destruct (Hids opts eq_refl) as [-> _].
    rewrite Htake. apply provisioned_plan_latest, Hw2.
  - intros j o st opts w1 w2 o1 st1 t n s b1 b2 d e es Hj Htake Hw2.
    destruct (Hw j o st _ Hj) as (_ & _ & Hids). destruct (Hids opts eq_refl) as [_ ->].
    rewrite Htake. apply provisioned_build_latest, Hw2.
  - intros now o gen caseId rest Hh Hc. unfold tick. rewrite Hh, Hc.
    unfold_step. rewrite Hp. reflexivity.
Qed.

Lemma unmatched_prefix_reports_only_witness :
  (truthy (prop xpj_options "testplanid") = false /\
   respects (no_match xpj_options) unmatched_run (fresh xpj_options)) /\
  wire (run unmatched_run (fresh xpj_options)) !! 8 =
    Some (Issued (mkOrigin 2 this0) (mkThis (JNum 7) (JNum 9) None)
            (TestLink.reportTCResult
               (mkOptions "XPJ-5" (JNum 7) PASSED (JNum 9) 0.02%float (Some "") []))) /\
  this_testproject (this (run unmatched_run (fresh xpj_options))) = None /\
  (forall j o st c,
     wire (run unmatched_run (fresh xpj_options)) !! j = Some (Issued o st c) ->
     this_testproject st = None /\
     forall a b d e, c <> TestLink.addTestCaseToTestPlan a b d e).
Proof.
  assert (truthy (prop xpj_options "testplanid") = false) as Hauto by reflexivity.
  assert (respects (no_match xpj_options) unmatched_run (fresh xpj_options)) as Hls.
  { repeat split. }
  split; [split; assumption|]. split; [vm_compute; reflexivity|].
  destruct (unmatched_prefix_reports_only xpj_options unmatched_run Hauto Hls)
    as (Hp & Hadd & _).
  split; assumption.
Defined.

(** ** Rejections *)

Lemma paired_app (a b : list link) : paired a -> paired b -> paired (a ++ b).
Proof.
  intros Ha Hb. induction Ha as [|o p ch Hch IH]; [exact Hb|].
  simpl. constructor. exact IH.
Qed.

Lemma guarded_chain (p : prog unit) (r : Reporter) : guarded r -> guarded (chain p r).
Proof.
  assert (paired [LThen (mkOrigin (emitted r) (this r)) p; LCatch]) as Hnew
    by (repeat constructor).
  intros [Hs Hh]. split; [exact Hs|]. unfold chain. simpl.
  destruct (head r) as [o st k|[|e]].
  - destruct Hh as (ch & -> & Hch). exists (ch ++ [LThen (mkOrigin (emitted r) (this r)) p; LCatch]).
    split; [reflexivity | apply paired_app; assumption].
  - destruct Hh as [Hch|(ch & -> & Hch)].
    + left. apply paired_app; assumption.
    + right. exists (ch ++ [LThen (mkOrigin (emitted r) (this r)) p; LCatch]).
      split; [reflexivity | apply paired_app; assumption].
  - destruct Hh as (ch & -> & Hch). exists (ch ++ [LThen (mkOrigin (emitted r) (this r)) p; LCatch]).
    split; [reflexivity | apply paired_app; assumption].
Qed.

Lemma guarded_emit (ev : event) (r : Reporter) : guarded r -> guarded (emit ev r).
Proof.
  intros Hr. unfold emit.
  assert (guarded (count_event r)) as H1 by exact Hr.
  clear Hr. revert H1. generalize (count_event r). clear r. intros r Hr.
  destruct ev as [|suite|test|test err]; simpl.
  - destruct (begun r); [exact Hr|]. unfold createTestPlan.
    destruct (truthy _); [exact Hr|]. apply guarded_chain. exact Hr.
  - apply publish_invariant; [exact Hr | intros; apply guarded_chain; assumption].
  - apply publish_invariant; [exact Hr | intros; apply guarded_chain; assumption].
  - apply publish_invariant; [exact Hr | intros; apply guarded_chain; assumption].
Qed.

Lemma guarded_suspend (o : origin) (st : This) (ch : list link)
    (ts : This * suspended) (r : Reporter) :
  skipped r = [] -> paired ch -> guarded (suspend o st (LCatch :: ch) ts r).
Proof.
  intros Hs Hch. destruct ts as [t [|e|c k]]; (split; [exact Hs|]); simpl; eauto.
Qed.

Lemma guarded_settle (now : string) (a : TestLink.outcome) (r : Reporter) :
  guarded r -> guarded (settle now a r).
Proof.
  intros Hr. pose proof Hr as [Hs Hh]. unfold settle.
  destruct (head r) as [o st k|s]; [|exact Hr].
  destruct Hh as (ch & -> & Hch).
  destruct a as [v|e]; apply guarded_suspend; assumption.
Qed.

Lemma guarded_tick (now : string) (r : Reporter) : guarded r -> guarded (tick now r).
Proof.
  intros Hr. pose proof Hr as [Hs Hh]. unfold tick.
  destruct (head r) as [o st k|[|e]] eqn:Hhead; [exact Hr| |].
  - destruct (promiseChain r) as [|[o p|] rest] eqn:Hc; [exact Hr| |].
    + destruct Hh as [Hch|(ch & [=] & _)].
      inversion Hch as [|? ? ch Hch' Heq]; subst.
      apply guarded_suspend; assumption.
    + destruct Hh as [Hch|(ch & [= <-] & Hch)]; [inversion Hch|].
      split; [exact Hs|]. simpl. left. exact Hch.
  - destruct Hh as (ch & -> & Hch). split; [exact Hs|]. simpl. left. exact Hch.
Qed.

Lemma guarded_run (options : gmap string jsval) (ls : list label) :
  guarded (run ls (fresh options)).
Proof.
  apply run_invariant.
  - split; [reflexivity|]. simpl. exists []. split; [reflexivity | constructor].
  - intros [ev|now a|now] r Hr; simpl;
      [apply guarded_emit | apply guarded_settle | apply guarded_tick]; exact Hr.
Qed.

(** ** Draining the chain *)

Lemma drain_add (e : env) (a b : nat) (r : Reporter) :
  drain e (a + b) r = drain e b (drain e a r).
Proof.
  revert r. induction a as [|a IH]; intros r; [reflexivity|].
  simpl. destruct (next_label e r) as [l|] eqn:Hl; [apply IH|].
  destruct b as [|b]; [reflexivity|]. simpl. rewrite Hl. reflexivity.
Qed.

Lemma drain_is_run (e : env) (fuel : nat) (r : Reporter) :
  exists ls, drain e fuel r = run ls r /\ Forall (fun l => forall ev, l <> Emit ev) ls.
Proof.
  revert r. induction fuel as [|fuel IH]; intros r; [exists []; split; [reflexivity|constructor]|].
  simpl. destruct (next_label e r) as [l|] eqn:Hl; [|exists []; split; [reflexivity|constructor]].
  destruct (IH (step l r)) as (ls & Hls & Hne). exists (l :: ls). split; [exact Hls|].
  constructor; [|exact Hne]. intros ev ->. unfold next_label in Hl.
  destruct (head r); [discriminate|]. destruct (promiseChain r); discriminate.
Qed.

(** A step that has started runs to its end, whatever the client answers. *)
Lemma finish_step (e : env) (p : prog unit) :
  forall now t r0 o st rest,
  exists fuel s,
    head (drain e fuel (suspend o st rest (run_sync now p t) r0)) = Settled s /\
    promiseChain (drain e fuel (suspend o st rest (run_sync now p t) r0)) = rest /\
    started (drain e fuel (suspend o st rest (run_sync now p t) r0)) = started r0 /\
    skipped (drain e fuel (suspend o st rest (run_sync now p t) r0)) = skipped r0.
Proof.
  induction p as [a|err|k IH|t' k IH|k IH|c k IH]; intros now t r0 o st rest; simpl.
  - exists 0, Fulfilled. repeat split.
  - exists 0, (RejectedWith err). repeat split.
  - apply IH.
  - apply IH.
  - apply IH.
  - destruct (answer_of e (wire r0 ++ [Issued o st c])) as [v|err] eqn:Ha.
    + destruct (IH v (clock_of e (wire r0 ++ [Issued o st c])) t
                  (answer (TestLink.Resolved v)
                     (mkReporter (reporterOptions r0) t (InFlight o st k) rest (begun r0)
                        (wire r0 ++ [Issued o st c]) (console r0) (emitted r0)
                        (started r0) (skipped r0))) o st rest)
        as (fuel & s & H1 & H2 & H3 & H4).
      exists (S fuel), s. simpl. rewrite Ha. simpl. repeat split; assumption.
    + exists 1, (RejectedWith err). simpl. rewrite Ha. simpl. repeat split.
Qed.

Lemma finish_in_flight (e : env) (r : Reporter) (o : origin) (st : This)
    (k : list Entity -> prog unit) :
  head r = InFlight o st k ->
  exists fuel s,
    head (drain e fuel r) = Settled s /\
    promiseChain (drain e fuel r) = promiseChain r /\
    started (drain e fuel r) = started r /\
    skipped (drain e fuel r) = skipped r.
Proof.
  intros Hh. destruct (answer_of e (wire r)) as [v|err] eqn:Ha.
  - destruct (finish_step e (k v) (clock_of e (wire r)) (this r)
                (answer (TestLink.Resolved v) r) o st (promiseChain r))
      as (fuel & s & H1 & H2 & H3 & H4).
    exists (S fuel), s. simpl. unfold next_label. rewrite Hh, Ha. simpl.
    unfold settle. rewrite Hh. repeat split; assumption.
  - exists 1, (RejectedWith err). simpl. unfold next_label. rewrite Hh, Ha. simpl.
    unfold settle. rewrite Hh. repeat split.
Qed.

(** From a fulfilled promise every pair of [then] and [catch] is used up:
    each step starts, none is passed over. *)
Lemma drain_paired (e : env) (ch : list link) :
  paired ch ->
  forall r, head r = Settled Fulfilled -> promiseChain r = ch ->
  exists fuel,
    head (drain e fuel r) = Settled Fulfilled /\
    promiseChain (drain e fuel r) = [] /\
    started (drain e fuel r) = started r ++ omap link_origin ch /\
    skipped (drain e fuel r) = skipped r.
Proof.
  induction 1 as [|o p ch Hch IH]; intros r Hh Hc.
  - exists 0. simpl. rewrite app_nil_r. repeat split; assumption.
  - set (r1 := mkReporter (reporterOptions r) (this r) (head r) (promiseChain r) (begun r)
                 (wire r) (console r) (emitted r) (started r ++ [o]) (skipped r)).
    destruct (finish_step e p (clock_of e (wire r)) (this r) r1 o (this r) (LCatch :: ch))
      as (fuel1 & s & H1 & H2 & H3 & H4).
    set (r2 := drain e fuel1 (suspend o (this r) (LCatch :: ch)
                                (run_sync (clock_of e (wire r)) p (this r)) r1)) in *.
    assert (exists r3, drain e 1 r2 = r3 /\ head r3 = Settled Fulfilled /\
              promiseChain r3 = ch /\ started r3 = started r2 /\ skipped r3 = skipped r2)
      as (r3 & Hr3 & G1 & G2 & G3 & G4).
    { eexists. split; [reflexivity|]. simpl. unfold next_label. rewrite H1, H2. simpl.
      unfold tick. rewrite H1, H2. destruct s; simpl; repeat split. }
    destruct (IH r3 G1 G2) as (fuel3 & K1 & K2 & K3 & K4).
    exists (1 + (fuel1 + (1 + fuel3))).
    assert (drain e (1 + (fuel1 + (1 + fuel3))) r = drain e fuel3 r3) as ->.
    { rewrite (drain_add e 1). rewrite (drain_add e fuel1). rewrite (drain_add e 1).
      replace (drain e 1 r) with (suspend o (this r) (LCatch :: ch)
                                (run_sync (clock_of e (wire r)) p (this r)) r1).
      - fold r2. rewrite Hr3. reflexivity.
      - simpl. unfold next_label. rewrite Hh, Hc. simpl. unfold tick. rewrite Hh, Hc.
        reflexivity. }
    split; [exact K1|]. split; [exact K2|]. split.
    + rewrite K3, G3, H3. simpl. rewrite <- app_assoc. reflexivity.
    + rewrite K4, G4, H4. reflexivity.
Qed.

Lemma drain_caught (e : env) (r : Reporter) (s : settlement) (ch : list link) :
  head r = Settled s -> promiseChain r = LCatch :: ch -> paired ch ->
  exists fuel,
    head (drain e fuel r) = Settled Fulfilled /\
    promiseChain (drain e fuel r) = [] /\
    started (drain e fuel r) = started r ++ omap link_origin ch /\
    skipped (drain e fuel r) = skipped r.
Proof.
  intros Hh Hc Hch.
  assert (exists r1, drain e 1 r = r1 /\ head r1 = Settled Fulfilled /\
            promiseChain r1 = ch /\ started r1 = started r /\ skipped r1 = skipped r)
    as (r1 & Hr1 & G1 & G2 & G3 & G4).
  { eexists. split; [reflexivity|]. simpl. unfold next_label. rewrite Hh, Hc. simpl.
    unfold tick. rewrite Hh, Hc. destruct s; simpl; repeat split. }
  destruct (drain_paired e ch Hch r1 G1 G2) as (fuel & K1 & K2 & K3 & K4).
  exists (1 + fuel). rewrite (drain_add e 1), Hr1.
  rewrite K3, K4, G3, G4. repeat split; assumption.
Qed.

Lemma drain_guarded (e : env) (r : Reporter) :
  guarded r ->
  exists fuel,
    head (drain e fuel r) = Settled Fulfilled /\
    promiseChain (drain e fuel r) = [] /\
    started (drain e fuel r) = started r ++ omap link_origin (promiseChain r) /\
    skipped (drain e fuel r) = [].
Proof.
  intros [Hs Hh]. rewrite <- Hs.
  destruct (head r) as [o st k|[|err]] eqn:Hhead.
  - destruct Hh as (ch & Hc & Hch).
    destruct (finish_in_flight e r o st k Hhead) as (fuel1 & s & H1 & H2 & H3 & H4).
    rewrite Hc in H2.
    destruct (drain_caught e _ s ch H1 H2 Hch) as (fuel2 & K1 & K2 & K3 & K4).
    exists (fuel1 + fuel2). rewrite drain_add, K3, K4, H3, H4, Hc. repeat split; assumption.
  - destruct Hh as [Hch|(ch & Hc & Hch)].
    + apply (drain_paired e _ Hch r Hhead eq_refl).
    + rewrite Hc. apply (drain_caught e r Fulfilled ch Hhead Hc Hch).
  - destruct Hh as (ch & Hc & Hch). rewrite Hc.
    apply (drain_caught e r (RejectedWith err) ch Hhead Hc Hch).
Qed.

Lemma emit_chains_only (ev : event) (r : Reporter) :
  head (emit ev r) = head r /\ wire (emit ev r) = wire r /\
  console (emit ev r) = console r /\ skipped (emit ev r) = skipped r /\
  started (emit ev r) = started r /\
  exists added, promiseChain (emit ev r) = promiseChain r ++ added.
Proof.
  unfold emit.
  change (head r) with (head (count_event r)).
  change (wire r) with (wire (count_event r)).
  change (console r) with (console (count_event r)).
  change (skipped r) with (skipped (count_event r)).
  change (started r) with (started (count_event r)).
  change (promiseChain r) with (promiseChain (count_event r)).
  generalize (count_event r). clear r. intros r.
  assert (forall title gen r0,
    head r0 = head r /\ wire r0 = wire r /\ console r0 = console r /\
    skipped r0 = skipped r /\ started r0 = started r /\
    (exists added, promiseChain r0 = promiseChain r ++ added) ->
    head (publishTestResults title gen r0) = head r /\
    wire (publishTestResults title gen r0) = wire r /\
    console (publishTestResults title gen r0) = console r /\
    skipped (publishTestResults title gen r0) = skipped r /\
    started (publishTestResults title gen r0) = started r /\
    (exists added, promiseChain (publishTestResults title gen r0) = promiseChain r ++ added))
    as Hpub.
  { intros title gen r0 H0. apply publish_invariant; [exact H0|].
    intros caseId r' (H1 & H2 & H3 & H4 & H5 & added & H6). unfold chain. simpl.
    repeat split; try assumption. rewrite H6, <- app_assoc. eexists. reflexivity. }
  assert (head r = head r /\ wire r = wire r /\ console r = console r /\
          skipped r = skipped r /\ started r = started r /\
          (exists added, promiseChain r = promiseChain r ++ added)) as Hrefl.
  { repeat split. exists []. rewrite app_nil_r. reflexivity. }
  destruct ev as [|suite|test|test err]; simpl.
  - destruct (begun r); [exact Hrefl|]. unfold createTestPlan.
    destruct (truthy _); simpl; [exact Hrefl|].
    repeat split. eexists. reflexivity.
  - apply Hpub, Hrefl.
  - apply Hpub, Hrefl.
  - apply Hpub, Hrefl.
Qed.

(** C7: a call that rejects makes its step reject, the next link of a
    rejected promise is always [catch(console.error)], which logs the error
    and leaves the chain fulfilled; no step is ever passed over; the listeners
    only add links and see nothing of a rejection; and however the client
    answers from then on, the chain runs dry with every step that was chained
    started, in the order of chaining. *)
Theorem rejections_caught_and_logged (options : gmap string jsval) (ls : list label)
    (world : env) :
  skipped (run ls (fresh options)) = [] /\
  (forall o st k now err,
     head (run ls (fresh options)) = InFlight o st k ->
     head (settle now (TestLink.Rejected err) (run ls (fresh options)))
       = Settled (RejectedWith err) /\
     promiseChain (settle now (TestLink.Rejected err) (run ls (fresh options)))
       = promiseChain (run ls (fresh options))) /\
  (forall err,
     head (run ls (fresh options)) = Settled (RejectedWith err) ->
     exists ch,
       promiseChain (run ls (fresh options)) = LCatch :: ch /\
       forall now,
         head (tick now (run ls (fresh options))) = Settled Fulfilled /\
         console (tick now (run ls (fresh options)))
           = console (run ls (fresh options)) ++ [err] /\
         promiseChain (tick now (run ls (fresh options))) = ch) /\
  (forall ev,
     head (emit ev (run ls (fresh options))) = head (run ls (fresh options)) /\
     wire (emit ev (run ls (fresh options))) = wire (run ls (fresh options)) /\
     console (emit ev (run ls (fresh options))) = console (run ls (fresh options)) /\
     exists added,
       promiseChain (emit ev (run ls (fresh options)))
         = promiseChain (run ls (fresh options)) ++ added) /\
  (exists fuel ls',
     drain world fuel (run ls (fresh options)) = run (ls ++ ls') (fresh options) /\
     Forall (fun l => forall ev, l <> Emit ev) ls' /\
     head (drain world fuel (run ls (fresh options))) = Settled Fulfilled /\
     promiseChain (drain world fuel (run ls (fresh options))) = [] /\
     started (drain world fuel (run ls (fresh options)))
       = started (run ls (fresh options))
         ++ omap link_origin (promiseChain (run ls (fresh options))) /\
     skipped (drain world fuel (run ls (fresh options))) = []).
Proof.
  pose proof (guarded_run options ls) as Hg.
  set (r := run ls (fresh options)) in *.
  split; [exact (proj1 Hg)|]. split; [|split; [|split]].
  - intros o st k now err Hh. unfold settle. rewrite Hh. simpl. split; reflexivity.
  - intros err Hh. destruct Hg as [_ Hch]. rewrite Hh in Hch.
    destruct Hch as (ch & Hc & _). exists ch. split; [exact Hc|].
    intros now. unfold tick. rewrite Hh, Hc. simpl. repeat split.
  - intros ev. destruct (emit_chains_only ev r) as (H1 & H2 & H3 & _ & _ & H6).
    repeat split; assumption.
  - destruct (drain_guarded world r Hg) as (fuel & H1 & H2 & H3 & H4).
    destruct (drain_is_run world fuel r) as (ls' & Hrun & Hne).
    exists fuel, ls'. unfold r at 2. rewrite run_app. fold r.
    repeat split; assumption.
Qed.

(** * Further properties *)

(** ** More on case ids *)

Module Ids.
Import Re ReAux ReFacts.

Lemma sorted_same (l1 l2 : list (nat * list ascii)) :
  StronglySorted lt (map fst l1) -> StronglySorted lt (map fst l2) ->
  (forall x, In x l1 <-> In x l2) -> l1 = l2.
Proof.
  revert l2. induction l1 as [|a1 l1 IH]; intros l2 H1 H2 Hmem.
  - destruct l2 as [|a2 l2]; [reflexivity|]. destruct (proj2 (Hmem a2)). left. reflexivity.
  - destruct l2 as [|a2 l2]; [destruct (proj1 (Hmem a1)); left; reflexivity|].
    simpl in H1, H2. inversion H1 as [|? ? Hs1 Hlt1]; inversion H2 as [|? ? Hs2 Hlt2]; subst.
    rewrite List.Forall_forall in Hlt1, Hlt2.
    assert (a1 = a2) as ->.
    { destruct (proj1 (Hmem a1) (or_introl eq_refl)) as [<-|Hin1]; [reflexivity|].
      destruct (proj2 (Hmem a2) (or_introl eq_refl)) as [->|Hin2]; [reflexivity|].
      pose proof (Hlt2 _ (in_map fst _ _ Hin1)). pose proof (Hlt1 _ (in_map fst _ _ Hin2)). lia. }
    f_equal. apply IH; [assumption | assumption |].
    intros x. split; intros Hx.
    + destruct (proj1 (Hmem x) (or_intror Hx)) as [->|Hin]; [|exact Hin].
      pose proof (Hlt1 _ (in_map fst _ _ Hx)). lia.
    + destruct (proj2 (Hmem x) (or_intror Hx)) as [->|Hin]; [|exact Hin].
      pose proof (Hlt2 _ (in_map fst _ _ Hx)). lia.
Qed.

(** Any sorted list of all the tokens of a title gives its case ids. *)
Lemma ids_of_tokens (title : string) (ms : list (nat * list ascii)) :
  tokens_from (list_ascii_of_string title) 0 ms ->
  titleToCaseIds title = map (fun m => string_of_list_ascii (snd m)) ms.
Proof.
  intros [Hs Hm]. unfold titleToCaseIds, matchAll.
  set (subject := list_ascii_of_string title) in *.
  destruct (matchAll_loop_tokens (S (length subject)) subject 0 ltac:(lia))
    as (ms' & Hmap & Hs' & Hm').
  rewrite <- (map_map (group1 subject) string_of_list_ascii), Hmap, map_map.
  f_equal. apply sorted_same; try assumption.
  intros [i tok]. rewrite Hm, Hm'. reflexivity.
Qed.

Lemma token_at_unique (subject : list ascii) (i : nat) (t1 t2 : list ascii) :
  token_at subject i t1 -> token_at subject i t2 -> t1 = t2.
Proof.
  intros H1 H2. destruct (token_attempt _ _ _ H1) as (y1 & Hy1 & <-).
  destruct (token_attempt _ _ _ H2) as (y2 & Hy2 & <-).
  rewrite Hy1 in Hy2. injection Hy2 as <-. reflexivity.
Qed.

(** A token ends inside the subject, and is at least five characters long. *)
Lemma token_extent (subject : list ascii) (i : nat) (tok : list ascii) :
  token_at subject i tok ->
  3 <= length tok /\ i + length tok + 2 <= length subject /\
  (forall j, i < j < i + length tok + 2 -> subject !! j <> Some "["%char).
Proof.
  intros Ht. pose proof Ht as (pre & w & d & post & -> & <- & Hw0 & Hw & Hd0 & Hd & ->).
  destruct (token_attempt _ _ _ Ht) as (y & Hy & Hg).
  destruct (attempt_token _ _ _ Hy) as (_ & _ & Hin).
  assert (endIndex y = length pre + length (w ++ "-"%char :: d) + 2) as He.
  { unfold attempt in Hy. rewrite drop_app_length in Hy.
    rewrite (match_token (length pre) 0 None w d post) in Hy by (repeat split; assumption).
    injection Hy as <-. unfold reached. simpl. rewrite length_app. simpl. lia. }
  rewrite He in Hin. split; [|split; [|exact Hin]].
  - destruct w; [congruence|]. destruct d; [congruence|]. rewrite length_app. simpl. lia.
  - repeat (rewrite length_app; simpl). lia.
Qed.

Lemma list_ascii_of_string_app (a b : string) :
  list_ascii_of_string (a +:+ b) = list_ascii_of_string a ++ list_ascii_of_string b.
Proof. induction a as [|c a IH]; simpl; [reflexivity | rewrite IH; reflexivity]. Qed.

Lemma length_list_ascii_of_string (a : string) :
  length (list_ascii_of_string a) = String.length a.
Proof. induction a as [|c a IH]; simpl; [reflexivity | rewrite IH; reflexivity]. Qed.

(** Tokens of a subject that is put together from two. *)
Lemma token_at_app_l (a b : list ascii) (i : nat) (tok : list ascii) :
  token_at a i tok -> token_at (a ++ b) i tok.
Proof.
  intros (pre & w & d & post & -> & <- & H). exists pre, w, d, (post ++ b).
  split; [|split; [reflexivity | exact H]].
  repeat (rewrite <- List.app_assoc; simpl). reflexivity.
Qed.

Lemma token_at_app_r (a b : list ascii) (i : nat) (tok : list ascii) :
  token_at b i tok -> token_at (a ++ b) (length a + i) tok.
Proof.
  intros (pre & w & d & post & -> & <- & H). exists (a ++ pre), w, d, post.
  split; [rewrite <- List.app_assoc; reflexivity|]. split; [apply length_app | exact H].
Qed.

Lemma token_at_app_beyond (a b : list ascii) (i : nat) (tok : list ascii) :
  token_at (a ++ b) i tok -> length a <= i -> token_at b (i - length a) tok.
Proof.
  rewrite !token_at_drop. intros (w & d & post & Hdrop & H) Hi.
  exists w, d, post. split; [|exact H]. rewrite <- Hdrop.
  rewrite drop_app_ge by exact Hi. reflexivity.
Qed.

Lemma token_at_app_within (a b : list ascii) (i : nat) (tok : list ascii) :
  token_at (a ++ b) i tok -> i + length tok + 2 <= length a -> token_at a i tok.
Proof.
  rewrite !token_at_drop. intros (w & d & post & Hdrop & Hwf & ->) Hi.
  rewrite length_app in Hi. simpl in Hi.
  rewrite drop_app_le in Hdrop by lia.
  exists w, d, (take (length a - i - (length w + length d + 3)) post).
  split; [|split; [exact Hwf | reflexivity]].
  assert (drop i a = take (length a - i) (drop i a ++ b)) as ->.
  { rewrite take_app_le by (rewrite length_drop; lia).
    rewrite take_ge by (rewrite length_drop; lia). reflexivity. }
  rewrite Hdrop.
  replace ("["%char :: w ++ "-"%char :: d ++ "]"%char :: post)
    with (("["%char :: w ++ "-"%char :: d ++ ["]"%char]) ++ post)
    by (simpl; repeat (rewrite <- List.app_assoc; simpl); reflexivity).
  rewrite take_app_ge by (simpl; repeat (rewrite length_app; simpl); lia).
  simpl. repeat (rewrite <- List.app_assoc; simpl).
  repeat f_equal. repeat (rewrite length_app; simpl). lia.
Qed.

(** What stands between the brackets of a token. *)
Lemma token_inside (subject : list ascii) (i : nat) (tok : list ascii) (j : nat) :
  token_at subject i tok -> i < j < i + length tok + 1 ->
  exists c, subject !! j = Some c /\ (is_word c = true \/ c = "-"%char).
Proof.
  intros (pre & w & d & post & -> & <- & Hw0 & Hw & Hd0 & Hd & ->) Hj.
  assert (Forall (fun c => is_word c = true \/ c = "-"%char) (w ++ "-"%char :: d)) as Hall.
  { apply Forall_app. split; [eapply Forall_impl; [exact Hw|]; auto|].
    constructor; [auto|]. eapply Forall_impl; [exact Hd|]. intros c Hc. left.
    apply digit_word, Hc. }
  destruct (lookup_lt_is_Some_2 (w ++ "-"%char :: d) (j - S (length pre))) as [c Hc]; [lia|].
  exists c. split; [|apply (Forall_lookup_1 _ _ _ _ Hall Hc)].
  rewrite lookup_app_r by lia.
  destruct (j - length pre) as [|n] eqn:Hn; [lia|]. simpl.
  replace (w ++ "-"%char :: d ++ "]"%char :: post) with ((w ++ "-"%char :: d) ++ "]"%char :: post)
    by (rewrite <- List.app_assoc; reflexivity).
  rewrite lookup_app_l by lia. replace n with (j - S (length pre)) by lia. exact Hc.
Qed.

Lemma sorted_lt_app (a b : list nat) :
  StronglySorted lt a -> StronglySorted lt b ->
  (forall x y, In x a -> In y b -> x < y) -> StronglySorted lt (a ++ b).
Proof.
  induction a as [|h a IH]; simpl; intros Ha Hb Hab; [exact Hb|].
  inversion Ha as [|? ? Hs Hall]; subst. rewrite List.Forall_forall in Hall.
  constructor.
  - apply IH; [exact Hs | exact Hb | intros x y Hx Hy; apply Hab; [right|]; assumption].
  - apply List.Forall_forall. intros x Hx. apply in_app_or in Hx.
    destruct Hx as [Hx|Hx]; [apply Hall, Hx | apply Hab; [left; reflexivity | exact Hx]].
Qed.

Lemma sorted_lt_shift (n : nat) (ms : list (nat * list ascii)) :
  StronglySorted lt (map fst ms) ->
  StronglySorted lt (map fst (map (fun m => (n + fst m, snd m)) ms)).
Proof.
  induction ms as [|m ms IH]; simpl; intros H; [constructor|].
  inversion H as [|? ? Hs Hall]; subst. constructor; [apply IH, Hs|].
  rewrite List.Forall_forall in *. intros x Hx. rewrite map_map in Hx. simpl in Hx.
  apply in_map_iff in Hx. destruct Hx as (m' & <- & Hm').
  pose proof (Hall _ (in_map fst _ _ Hm')). lia.
Qed.

Lemma ids_tokens (title : string) :
  exists ms, tokens_from (list_ascii_of_string title) 0 ms /\
    titleToCaseIds title = map (fun m => string_of_list_ascii (snd m)) ms.
Proof.
  destruct (matchAll_loop_tokens (S (length (list_ascii_of_string title)))
              (list_ascii_of_string title) 0 ltac:(lia)) as (ms & _ & Hms).
  exists ms. split; [exact Hms | apply ids_of_tokens, Hms].
Qed.

Lemma in_shift (n i : nat) (tok : list ascii) (ms : list (nat * list ascii)) :
  In (i, tok) (map (fun m => (n + fst m, snd m)) ms) <->
  n <= i /\ In (i - n, tok) ms.
Proof.
  rewrite in_map_iff. split.
  - intros ([i' tok'] & [= <- <-] & Hin). simpl. split; [lia|].
    replace (n + i' - n) with i' by lia. exact Hin.
  - intros [Hn Hin]. exists (i - n, tok). split; [simpl; f_equal; lia | exact Hin].
Qed.

Lemma ids_app_tokens (a b : list ascii) (ma mb : list (nat * list ascii)) :
  tokens_from a 0 ma -> tokens_from b 0 mb ->
  (forall i tok, token_at (a ++ b) i tok -> i < length a -> i + length tok + 2 <= length a) ->
  tokens_from (a ++ b) 0 (ma ++ map (fun m => (length a + fst m, snd m)) mb).
Proof.
  intros [Hsa Hma] [Hsb Hmb] Hstraddle. split.
  - rewrite map_app. apply sorted_lt_app; [exact Hsa | apply sorted_lt_shift, Hsb|].
    intros x y Hx Hy. apply in_map_iff in Hx. destruct Hx as ([i tok] & <- & Hin).
    apply Hma in Hin. destruct Hin as [_ Hin]. apply token_extent in Hin.
    rewrite map_map in Hy. apply in_map_iff in Hy. destruct Hy as (m & <- & _). simpl. lia.
  - intros i tok. rewrite in_app_iff, in_shift, Hma, Hmb. split.
    + intros [[_ H]|[Hi [_ H]]]; (split; [lia|]).
      * apply token_at_app_l, H.
      * replace i with (length a + (i - length a)) by lia. apply token_at_app_r, H.
    + intros [_ H]. destruct (decide (length a <= i)) as [Hi|Hi].
      * right. split; [exact Hi|]. split; [lia|]. apply token_at_app_beyond; assumption.
      * left. split; [lia|]. apply (token_at_app_within a b); [exact H|].
        apply Hstraddle; [exact H | lia].
Qed.

(** X1: the case ids of two texts put together are the ids of the first
    followed by the ids of the second, when the first does not end in a word
    character, a hyphen or an opening bracket. *)
Theorem titleToCaseIds_app (a b : string) :
  ends_clear (list_ascii_of_string a) ->
  titleToCaseIds (a +:+ b) = titleToCaseIds a ++ titleToCaseIds b.
Proof.
  intros Hend.
  destruct (ids_tokens a) as (ma & Hma & ->). destruct (ids_tokens b) as (mb & Hmb & ->).
  rewrite (ids_of_tokens (a +:+ b)
             (ma ++ map (fun m => (length (list_ascii_of_string a) + fst m, snd m)) mb)).
  - rewrite map_app, map_map. reflexivity.
  - rewrite list_ascii_of_string_app. apply ids_app_tokens; [exact Hma | exact Hmb|].
    set (la := list_ascii_of_string a) in *. set (lb := list_ascii_of_string b).
    intros i tok Ht Hi. destruct (decide (i + length tok + 2 <= length la)) as [|Hover];
      [assumption|exfalso].
    unfold ends_clear in Hend. rewrite last_lookup in Hend.
    assert ((la ++ lb) !! pred (length la) = la !! pred (length la)) as Hsame
      by (apply lookup_app_l; lia).
    destruct (decide (pred (length la) = i)) as [Heq|Hne].
    + rewrite Heq in *. rewrite (token_bracket _ _ _ Ht) in Hsame. rewrite <- Hsame in Hend.
      destruct Hend as (_ & _ & Hb). apply Hb. reflexivity.
    + destruct (token_inside _ _ _ (pred (length la)) Ht ltac:(lia)) as (c & Hc & Hwc).
      rewrite Hc in Hsame. rewrite <- Hsame in Hend. destruct Hend as (Hw & Hh & _).
      destruct Hwc as [Hwc| ->]; [congruence | apply Hh; reflexivity].
Qed.

(** X2: text without an opening bracket in front of a title adds no case id
    and takes none away. *)
Theorem titleToCaseIds_skip (pre s : string) :
  ~ In "["%char (list_ascii_of_string pre) ->
  titleToCaseIds (pre +:+ s) = titleToCaseIds s.
Proof.
  intros Hpre. destruct (ids_tokens s) as (ms & Hms & ->).
  rewrite (ids_of_tokens (pre +:+ s)
             ([] ++ map (fun m => (length (list_ascii_of_string pre) + fst m, snd m)) ms)).
  - simpl. rewrite map_map. reflexivity.
  - rewrite list_ascii_of_string_app. apply ids_app_tokens; [|exact Hms|].
    + split; [constructor|]. intros i tok. split; [intros []|]. intros [_ Ht].
      apply Hpre. apply token_bracket in Ht. apply list_elem_of_In, list_elem_of_lookup.
      exists i. exact Ht.
    + intros i tok Ht Hi. exfalso. apply Hpre. apply token_bracket in Ht.
      rewrite lookup_app_l in Ht by exact Hi.
      apply list_elem_of_In, list_elem_of_lookup. exists i. exact Ht.
Qed.

(** X3: a well-formed id between brackets is read back as it is, and alone. *)
Theorem titleToCaseIds_bracketed (w d : list ascii) :
  well_formed w d ->
  titleToCaseIds (string_of_list_ascii ("["%char :: w ++ "-"%char :: d ++ ["]"%char]))
    = [string_of_list_ascii (w ++ "-"%char :: d)].
Proof.
  intros Hwf. set (s := "["%char :: w ++ "-"%char :: d ++ ["]"%char]).
  assert (token_at s 0 (w ++ "-"%char :: d)) as H0.
  { destruct Hwf as (Hw0 & Hw & Hd0 & Hd). exists [], w, d, []. repeat split; assumption. }
  rewrite (ids_of_tokens _ [(0, w ++ "-"%char :: d)]); [reflexivity|].
  rewrite list_ascii_of_string_of_list_ascii. split; [repeat constructor|].
  intros i tok. split.
  - intros [[= <- <-]|[]]. split; [lia | exact H0].
  - intros [_ Ht]. left. destruct (token_extent _ _ _ H0) as (_ & _ & Hin).
    destruct (decide (i = 0)) as [->|Hi].
    + f_equal. apply (token_at_unique s 0); assumption.
    + exfalso. apply (Hin i); [|apply (token_bracket _ _ _ Ht)].
      apply token_extent in Ht. unfold s in Ht. simpl in Ht.
      repeat (rewrite length_app in *; simpl in * ). lia.
Qed.

(** X4: a title without an opening bracket, without a closing bracket,
    without a hyphen or without a digit has no case id. *)
Theorem titleToCaseIds_needs (title : string) :
  ~ In "["%char (list_ascii_of_string title) \/
  ~ In "]"%char (list_ascii_of_string title) \/
  ~ In "-"%char (list_ascii_of_string title) \/
  Forall (fun c => is_digit c = false) (list_ascii_of_string title) ->
  titleToCaseIds title = [].
Proof.
  intros H. destruct (ids_tokens title) as (ms & [_ Hms] & ->).
  destruct ms as [|[i tok] ms]; [reflexivity|exfalso].
  destruct (proj1 (Hms i tok) (or_introl eq_refl)) as [_ Ht].
  destruct Ht as (pre & w & d & post & Heq & _ & _ & _ & Hd0 & Hd & _).
  rewrite Heq in H. destruct H as [H|[H|[H|H]]].
  - apply H. apply in_or_app. right. left. reflexivity.
  - apply H. apply in_or_app. right. right. apply in_or_app. right. right.
    apply in_or_app. right. left. reflexivity.
  - apply H. apply in_or_app. right. right. apply in_or_app. right. left. reflexivity.
  - destruct d as [|c d]; [congruence|]. inversion Hd as [|? ? Hc _]; subst.
    rewrite List.Forall_forall in H. rewrite H in Hc; [discriminate|].
    apply in_or_app. right. right. apply in_or_app. right. right. left. reflexivity.
Qed.

Lemma tokens_count (subject : list ascii) (ms : list (nat * list ascii)) (p : nat) :
  StronglySorted lt (map fst ms) ->
  (forall i tok, In (i, tok) ms -> p <= i /\ token_at subject i tok) ->
  5 * length ms <= length subject - p.
Proof.
  revert p. induction ms as [|[i tok] ms IH]; intros p Hs Hm; [simpl; lia|].
  simpl in Hs. inversion Hs as [|? ? Hs' Hall]; subst. rewrite List.Forall_forall in Hall.
  destruct (Hm i tok (or_introl eq_refl)) as [Hp Ht].
  destruct (token_extent _ _ _ Ht) as (H3 & Hext & Hin).
  assert (5 * length ms <= length subject - (i + 5)) as IH'.
  { apply IH; [exact Hs'|]. intros j tok' Hj.
    destruct (Hm j tok' (or_intror Hj)) as [_ Ht']. split; [|exact Ht'].
    pose proof (Hall _ (in_map fst _ _ Hj)) as Hlt. simpl in Hlt.
    destruct (decide (i + length tok + 2 <= j)) as [|Hn]; [lia|].
    exfalso. apply (Hin j); [lia | apply (token_bracket _ _ _ Ht')]. }
  simpl length. lia.
Qed.

(** X5: a title has at most a fifth as many case ids as it has characters. *)
Theorem titleToCaseIds_count (title : string) :
  5 * length (titleToCaseIds title) <= String.length title.
Proof.
  destruct (ids_tokens title) as (ms & [Hs Hm] & ->).
  rewrite length_map, <- length_list_ascii_of_string.
  pose proof (tokens_count (list_ascii_of_string title) ms 0 Hs) as H.
  rewrite Nat.sub_0_r in H. apply H. intros i tok Hin. apply Hm, Hin.
Qed.
End Ids.

Lemma titleToCaseIds_app_witness :
  ends_clear (list_ascii_of_string "suite [A-1] ") /\
  titleToCaseIds ("suite [A-1] " +:+ "[B-2] done") = ["A-1"; "B-2"].
Proof.
  assert (ends_clear (list_ascii_of_string "suite [A-1] ")) as H.
  { simpl. repeat split; discriminate. }
  split; [exact H|].
  rewrite (Ids.titleToCaseIds_app "suite [A-1] " "[B-2] done" H). vm_compute. reflexivity.
Defined.

Lemma titleToCaseIds_skip_witness :
  ~ In "["%char (list_ascii_of_string "login: ") /\
  titleToCaseIds ("login: " +:+ "[XPJ-5] works") = titleToCaseIds "[XPJ-5] works".
Proof.
  assert (~ In "["%char (list_ascii_of_string "login: ")) as H.
  { simpl. intros Hin. repeat (destruct Hin as [Hin|Hin]; [discriminate|]). exact Hin. }
  split; [exact H|]. exact (Ids.titleToCaseIds_skip "login: " "[XPJ-5] works" H).
Defined.

Lemma titleToCaseIds_bracketed_witness :
  ReAux.well_formed (list_ascii_of_string "XPJ") (list_ascii_of_string "12") /\
  titleToCaseIds "[XPJ-12]" = ["XPJ-12"].
Proof.
  assert (ReAux.well_formed (list_ascii_of_string "XPJ") (list_ascii_of_string "12")) as H.
  { repeat split; try discriminate; repeat constructor. }
  split; [exact H|].
  exact (Ids.titleToCaseIds_bracketed (list_ascii_of_string "XPJ") (list_ascii_of_string "12") H).
Defined.

Lemma titleToCaseIds_needs_witness :
  Forall (fun c => Re.is_digit c = false) (list_ascii_of_string "[XPJ-] x") /\
  titleToCaseIds "[XPJ-] x" = [].
Proof.
  assert (Forall (fun c => Re.is_digit c = false) (list_ascii_of_string "[XPJ-] x")) as H.
  { repeat constructor. }
  split; [exact H|].
  apply (Ids.titleToCaseIds_needs "[XPJ-] x"). right. right. right. exact H.
Defined.

(** ** More on result records *)

Lemma steps_numbered (this : This) (caseId : string) (suite : Suite) :
  map step_number (steps (suiteOptions this caseId suite)) = List.seq 1 (length (tests suite)).
Proof.
  apply list_eq. intros i. unfold suiteOptions. simpl.
  change (map step_number ?l) with (step_number <$> l).
  rewrite list_lookup_fmap, list_lookup_imap.
  destruct (tests suite !! i) as [t|] eqn:Ht; simpl.
  - rewrite lookup_seq_lt by (apply lookup_lt_Some in Ht; exact Ht). f_equal. lia.
  - symmetry. apply lookup_seq_ge. apply lookup_ge_None in Ht. exact Ht.
Qed.

(** X6: a suite result is failed exactly when one of its steps is failed and
    passed exactly when all of them are passed, and its steps are numbered
    1, 2, ... up to the number of tests. *)
Theorem suite_status_from_steps (this : This) (caseId : string) (suite : Suite) :
  (status (suiteOptions this caseId suite) = FAILED <->
     exists s, In s (steps (suiteOptions this caseId suite)) /\ result s = FAILED) /\
  (status (suiteOptions this caseId suite) = PASSED <->
     forall s, In s (steps (suiteOptions this caseId suite)) -> result s = PASSED) /\
  map step_number (steps (suiteOptions this caseId suite)) = List.seq 1 (length (tests suite)).
Proof.
  split; [|split; [|apply steps_numbered]].
  - unfold suiteOptions. simpl. split.
    + destruct (existsb _ (tests suite)) eqn:Hex; [|discriminate]. intros _.
      apply existsb_exists in Hex. destruct Hex as (t & Hin & Ht).
      apply list_elem_of_In, list_elem_of_lookup in Hin. destruct Hin as [i Hi].
      eexists. split.
      * apply list_elem_of_In, list_elem_of_lookup. exists i.
        rewrite list_lookup_imap, Hi. reflexivity.
      * simpl. rewrite Ht. reflexivity.
    + intros (s & Hin & Hs). apply list_elem_of_In, list_elem_of_lookup in Hin.
      destruct Hin as [i Hi]. rewrite list_lookup_imap in Hi.
      destruct (tests suite !! i) as [t|] eqn:Ht; [|discriminate]. injection Hi as <-.
      simpl in Hs.
      assert (existsb (fun t => negb (strict_eq (state t) STATE_PASSED)) (tests suite) = true)
        as ->; [|reflexivity].
      apply existsb_exists. exists t. split.
      * apply list_elem_of_In, list_elem_of_lookup. exists i. exact Ht.
      * destruct (negb (strict_eq (state t) STATE_PASSED)); [reflexivity | discriminate].
  - unfold suiteOptions. simpl. split.
    + destruct (existsb _ (tests suite)) eqn:Hex; [discriminate|]. intros _ s Hin.
      apply list_elem_of_In, list_elem_of_lookup in Hin. destruct Hin as [i Hi].
      rewrite list_lookup_imap in Hi.
      destruct (tests suite !! i) as [t|] eqn:Ht; [|discriminate]. injection Hi as <-.
      simpl. destruct (negb (strict_eq (state t) STATE_PASSED)) eqn:Hn; [|reflexivity].
      assert (existsb (fun t => negb (strict_eq (state t) STATE_PASSED)) (tests suite) = true)
        as Habs; [|rewrite Habs in Hex; discriminate].
      apply existsb_exists. exists t. split; [|exact Hn].
      apply list_elem_of_In, list_elem_of_lookup. exists i. exact Ht.
    + intros Hall. destruct (existsb _ (tests suite)) eqn:Hex; [|reflexivity].
      apply existsb_exists in Hex. destruct Hex as (t & Hin & Ht).
      apply list_elem_of_In, list_elem_of_lookup in Hin. destruct Hin as [i Hi].
      assert (result (mkStep (i + 1)
                (if negb (strict_eq (state t) STATE_PASSED) then FAILED else PASSED)
                (match err t with Some e => stack e | None => "" end)) = PASSED) as Hp.
      { apply Hall. apply list_elem_of_In, list_elem_of_lookup. exists i.
        rewrite list_lookup_imap, Hi. reflexivity. }
      simpl in Hp. rewrite Ht in Hp. discriminate.
Qed.

(** ** Durations that are not numbers *)

Lemma add_nan_r (x : float) : (x + nan)%float = nan.
Proof.
  rewrite <- (SF2Prim_Prim2SF (x + nan)), add_spec.
  change (Prim2SF nan) with S754_nan.
  destruct (Prim2SF x); reflexivity.
Qed.

Lemma add_nan_l (x : float) : (nan + x)%float = nan.
Proof.
  rewrite <- (SF2Prim_Prim2SF (nan + x)), add_spec.
  change (Prim2SF nan) with S754_nan. reflexivity.
Qed.

Lemma sum_nan (l : list Test) :
  fold_left (fun acc t => (acc + ToNumber (duration t))%float) l nan = nan.
Proof. induction l as [|t l IH]; simpl; [reflexivity | rewrite add_nan_l; exact IH]. Qed.

Lemma sum_undefined (l : list Test) (acc : float) :
  (exists t, In t l /\ duration t = None) ->
  fold_left (fun acc t => (acc + ToNumber (duration t))%float) l acc = nan.
Proof.
  revert acc. induction l as [|t l IH]; intros acc (t' & Hin & Ht'); [destruct Hin|].
  simpl. destruct Hin as [<-|Hin].
  - rewrite Ht'. simpl. rewrite add_nan_r. apply sum_nan.
  - apply IH. exists t'. split; assumption.
Qed.

(** X7: a suite with a test that has no duration is reported with a
    duration that is not a number, and so is a single test without one. *)
Theorem execduration_undefined :
  (forall this caseId suite,
     (exists t, In t (tests suite) /\ duration t = None) ->
     execduration (suiteOptions this caseId suite) = nan) /\
  (forall this caseId e, execduration (tcOptions this caseId None e) = nan).
Proof.
  split.
  - intros this caseId suite H. unfold suiteOptions. simpl.
    rewrite sum_undefined by exact H. reflexivity.
  - reflexivity.
Qed.

Lemma execduration_undefined_witness :
  (exists t, In t [xpj_test; mkTest "is pending" STATE_PASSED None None] /\ duration t = None) /\
  execduration
    (suiteOptions this0 "XPJ-5"
       (mkSuite "suite [XPJ-5]" [xpj_test; mkTest "is pending" STATE_PASSED None None])) = nan.
Proof.
  assert (exists t, In t [xpj_test; mkTest "is pending" STATE_PASSED None None] /\
                    duration t = None) as H.
  { exists (mkTest "is pending" STATE_PASSED None None). split; [right; left|]; reflexivity. }
  split; [exact H|].
  exact (proj1 execduration_undefined this0 "XPJ-5"
           (mkSuite "suite [XPJ-5]" [xpj_test; mkTest "is pending" STATE_PASSED None None]) H).
Defined.

(** ** More on reporter options *)

(** X8: validation passes exactly when there are options in which URL and
    apiKey are truthy and either testplanid and buildid are both truthy or
    prefix is; an option that is given as an empty string, [false], 0 or
    [null] counts as missing. *)
Theorem validate_accepts_iff :
  validateReporterOptions None <> None /\
  forall o : gmap string jsval,
    validateReporterOptions (Some o) = None <->
    (truthy (prop o "testplanid") = true /\ truthy (prop o "buildid") = true \/
     truthy (prop o "prefix") = true) /\
    truthy (prop o "URL") = true /\ truthy (prop o "apiKey") = true.
Proof.
  split; [discriminate|]. intros o. simpl.
  destruct (truthy (prop o "testplanid")), (truthy (prop o "buildid")),
    (truthy (prop o "prefix")), (truthy (prop o "URL")), (truthy (prop o "apiKey")); simpl;
    (split;
     [ intros H; first [discriminate H | intuition congruence]
     | intros (Hplan & Hu & Hk);
       first [reflexivity | discriminate Hu | discriminate Hk
             | destruct Hplan as [[Ha Hb]|Hc];
               first [discriminate Ha | discriminate Hb | discriminate Hc]] ]).
Qed.

(** X9: which error validation throws: missing options first, then the
    plan-or-prefix requirement, then URL, then apiKey, each with its own
    message. *)
Theorem validate_error_order (options : option (gmap string jsval)) :
  (options = None ->
   validateReporterOptions options = Some (mkError "Missing --reporter-options" "")) /\
  (forall o, options = Some o ->
     (truthy (prop o "testplanid") = false \/ truthy (prop o "buildid") = false) ->
     truthy (prop o "prefix") = false ->
     validateReporterOptions options =
       Some (mkError "Either testplanid or prefix must be specified in --reporter-options" "")) /\
  (forall o, options = Some o ->
     (truthy (prop o "testplanid") = true /\ truthy (prop o "buildid") = true \/
      truthy (prop o "prefix") = true) ->
     truthy (prop o "URL") = false ->
     validateReporterOptions options =
       Some (mkError "Missing URL option in --reporter-options" "")) /\
  (forall o, options = Some o ->
     (truthy (prop o "testplanid") = true /\ truthy (prop o "buildid") = true \/
      truthy (prop o "prefix") = true) ->
     truthy (prop o "URL") = true -> truthy (prop o "apiKey") = false ->
     validateReporterOptions options =
       Some (mkError "Missing apiKey option in --reporter-options" "")).
Proof.
  split; [intros ->; reflexivity|]. split; [|split].
  - intros o -> Hplan Hprefix. simpl. rewrite Hprefix.
    destruct Hplan as [-> | ->]; simpl; rewrite ?andb_false_r; reflexivity.
  - intros o -> Hplan Hu. simpl. rewrite Hu.
    destruct Hplan as [[-> ->] | ->]; simpl; rewrite ?andb_false_r; reflexivity.
  - intros o -> Hplan Hu Hk. simpl. rewrite Hu, Hk.
    destruct Hplan as [[-> ->] | ->]; simpl; rewrite ?andb_false_r; reflexivity.
Qed.

Lemma validate_error_order_witness :
  truthy (prop (<["prefix" := JStr "XPJ"]> (<["URL" := JStr ""]> ∅)) "prefix") = true /\
  truthy (prop (<["prefix" := JStr "XPJ"]> (<["URL" := JStr ""]> ∅)) "URL") = false /\
  validateReporterOptions (Some (<["prefix" := JStr "XPJ"]> (<["URL" := JStr ""]> ∅))) =
    Some (mkError "Missing URL option in --reporter-options" "").
Proof.
  assert (truthy (prop (<["prefix" := JStr "XPJ"]> (<["URL" := JStr ""]> ∅)) "prefix") = true)
    as Hp by reflexivity.
  assert (truthy (prop (<["prefix" := JStr "XPJ"]> (<["URL" := JStr ""]> ∅)) "URL") = false)
    as Hu by reflexivity.
  split; [exact Hp|]. split; [exact Hu|].
  exact (proj1 (proj2 (proj2 (validate_error_order
                                (Some (<["prefix" := JStr "XPJ"]> (<["URL" := JStr ""]> ∅))))))
           _ eq_refl (or_intror Hp) Hu).
Defined.

(** ** More on construction *)

(** X10: when the constructor throws, also for a URL that does not parse, no
    call has gone out; when it succeeds, exactly [checkDevKey] has gone out,
    the connection is secure exactly for the protocol "https:", and the
    reporter starts with undefined fields and [catch(console.error)] as the
    only link behind the key check. *)
Theorem constructor_issues_one_call (parseURL : jsval -> option URL)
    (options : option (gmap string jsval)) (w : list entry) :
  match constructor parseURL options w with
  | (inl e, w') =>
      w' = w /\
      (validateReporterOptions options = Some e \/
       exists o, options = Some o /\ validateReporterOptions options = None /\
                 parseURL (prop o "URL") = None)
  | (inr (testlink, r), w') =>
      w' = w ++ [Issued origin0 this0 TestLink.checkDevKey] /\
      wire r = w' /\
      exists o url,
        options = Some o /\ validateReporterOptions options = None /\
        parseURL (prop o "URL") = Some url /\
        TestLink.host testlink = hostname url /\
        TestLink.port testlink = url_port url /\
        (TestLink.secure testlink = true <-> protocol url = "https:") /\
        TestLink.apiKey testlink = prop o "apiKey" /\
        reporterOptions r = o /\ this r = this0 /\ promiseChain r = [LCatch] /\
        in_flight (head r) = true
  end.
Proof.
  unfold constructor, ctor_bind, establishTestLinkConnection, throw, ctor_ret, issue,
    issued_so_far.
  destruct (validateReporterOptions options) as [e|] eqn:Hv.
  - split; [reflexivity | left; reflexivity].
  - destruct options as [o|]; [|discriminate Hv].
    destruct (parseURL (prop o "URL")) as [url|] eqn:Hu.
    + split; [reflexivity|]. split; [reflexivity|]. exists o, url. simpl.
      repeat split; try reflexivity; try assumption.
      * apply String.eqb_eq.
      * apply String.eqb_eq.
    + split; [reflexivity|]. right. exists o. repeat split; assumption.
Qed.

(** ** What a result listener chains *)

(** X11: publishing a title chains one step and one [catch] per case id of
    the title, in the order of the ids and once more for an id that is
    repeated, and changes nothing else: no call goes out and no field is
    assigned when a listener runs. *)
Theorem publishTestResults_chains (title : string) (gen : This -> string -> Options)
    (r : Reporter) :
  promiseChain (publishTestResults title gen r) =
    promiseChain r ++ flat_map (pair_for r gen) (titleToCaseIds title) /\
  length (promiseChain (publishTestResults title gen r)) =
    length (promiseChain r) + 2 * length (titleToCaseIds title) /\
  this (publishTestResults title gen r) = this r /\
  head (publishTestResults title gen r) = head r /\
  wire (publishTestResults title gen r) = wire r /\
  console (publishTestResults title gen r) = console r /\
  begun (publishTestResults title gen r) = begun r /\
  emitted (publishTestResults title gen r) = emitted r.
Proof.
  unfold publishTestResults. generalize (titleToCaseIds title). intros ids.
  assert (forall r0,
    this r0 = this r -> emitted r0 = emitted r ->
    promiseChain (fold_left (fun r caseId => chain (publishStep gen caseId) r) ids r0) =
      promiseChain r0 ++ flat_map (pair_for r gen) ids /\
    this (fold_left (fun r caseId => chain (publishStep gen caseId) r) ids r0) = this r0 /\
    head (fold_left (fun r caseId => chain (publishStep gen caseId) r) ids r0) = head r0 /\
    wire (fold_left (fun r caseId => chain (publishStep gen caseId) r) ids r0) = wire r0 /\
    console (fold_left (fun r caseId => chain (publishStep gen caseId) r) ids r0) = console r0 /\
    begun (fold_left (fun r caseId => chain (publishStep gen caseId) r) ids r0) = begun r0 /\
    emitted (fold_left (fun r caseId => chain (publishStep gen caseId) r) ids r0) = emitted r0)
    as H.
  { induction ids as [|c ids IH]; intros r0 Ht He; simpl.
    - rewrite app_nil_r. repeat split.
    - destruct (IH (chain (publishStep gen c) r0) Ht He) as (H1 & H2 & H3 & H4 & H5 & H6 & H7).
      rewrite H1, H2, H3, H4, H5, H6, H7. simpl. rewrite <- List.app_assoc. simpl.
      unfold pair_for at 2. rewrite Ht, He. repeat split. }
  destruct (H r eq_refl eq_refl) as (H1 & H2 & H3 & H4 & H5 & H6 & H7).
  rewrite H1. repeat split; try assumption.
  rewrite length_app. f_equal. clear. induction ids as [|c ids IH]; simpl; [reflexivity|lia].
Qed.

(** ** Positions on the wire *)

Lemma two_before (w w0 : list entry) (j : nat) (x y z : entry) :
  w !! j = Some z -> take j w = w0 ++ [x; y] ->
  exists i, j = S (S i) /\ w !! i = Some x /\ w !! (S i) = Some y.
Proof.
  intros Hj Htake. exists (length w0).
  assert (j = S (S (length w0))) as ->.
  { apply (f_equal length) in Htake. rewrite length_take, length_app in Htake.
    apply lookup_lt_Some in Hj. simpl in Htake. lia. }
  split; [reflexivity|]. split.
  - rewrite <- (lookup_take_lt _ (S (S (length w0)))) by lia.
    rewrite Htake. apply list_lookup_middle. reflexivity.
  - rewrite <- (lookup_take_lt _ (S (S (length w0)))) by lia.
    rewrite Htake. change (w0 ++ [x; y]) with (w0 ++ [x] ++ [y]).
    rewrite List.app_assoc. apply list_lookup_middle. rewrite length_app. simpl. lia.
Qed.

(** ** Runs with a plan from the options *)


Lemma plan_mode_safe (options : gmap string jsval) (ls : list label) :
  truthy (prop options "testplanid") = true ->
  safe (untouched_or_adopted options) (fun _ _ => True) (checks_and_reports options)
       options (run ls (fresh options)).
Proof.
  intros Hplan.
  apply safe_from_fresh; try (intros; assumption); [| | | | |apply respects_any].
  - left. reflexivity.
  - split; [left; reflexivity | left; reflexivity].
  - intros _ w t [->| ->]; right; reflexivity.
  - intros gen caseId o w st Hgen Hst. unfold_step.
    destruct (listener_gen_fields gen st caseId Hgen) as (_ & Hp & Hb).
    assert (this_testproject st = None) as -> by (destruct Hst as [->| ->]; reflexivity).
    simpl. split; [split; [exact Hst|right; eexists; repeat split; assumption]|].
    split; [exact Hst|]. intros v t _ Ht. exact Ht.
  - intros Hauto. rewrite Hplan in Hauto. discriminate Hauto.
Qed.

(** X12: with a plan id in the options only [checkDevKey] and [reportTCResult]
    ever go out, the fields are either untouched or hold the ids of the
    options, and a result carries one or the other pair of ids. *)
Theorem plan_mode_calls (options : gmap string jsval) (ls : list label) :
  truthy (prop options "testplanid") = true ->
  (this (run ls (fresh options)) = this0 \/
   this (run ls (fresh options)) = adopted options) /\
  forall j o st c,
    wire (run ls (fresh options)) !! j = Some (Issued o st c) ->
    c = TestLink.checkDevKey \/
    exists opts, c = TestLink.reportTCResult opts /\
      (testplanid opts = JUndefined /\ buildid opts = JUndefined \/
       testplanid opts = prop options "testplanid" /\
       buildid opts = prop options "buildid").
Proof.
  intros Hplan. destruct (plan_mode_safe options ls Hplan) as (_ & Hi & _ & _ & Hw).
  split; [exact Hi|]. intros j o st c Hj.
  destruct (Hw j o st c Hj) as (Hst & [->|(opts & -> & Hp & Hb)]); [left; reflexivity|].
  right. exists opts. split; [reflexivity|]. rewrite Hp, Hb.
  destruct Hst as [->| ->]; [left | right]; split; reflexivity.
Qed.

Lemma plan_mode_calls_witness :
  truthy (prop plan_options "testplanid") = true /\
  (exists o st,
     wire (run plan_run (fresh plan_options)) !! 2 =
       Some (Issued o st
               (TestLink.reportTCResult
                  (mkOptions "XPJ-5" (JStr "14") PASSED (JStr "1") 0.02%float (Some "") [])))) /\
  (this (run plan_run (fresh plan_options)) = this0 \/
   this (run plan_run (fresh plan_options)) = adopted plan_options) /\
  (forall j o st c,
     wire (run plan_run (fresh plan_options)) !! j = Some (Issued o st c) ->
     c = TestLink.checkDevKey \/
     exists opts, c = TestLink.reportTCResult opts /\
       (testplanid opts = JUndefined /\ buildid opts = JUndefined \/
        testplanid opts = prop plan_options "testplanid" /\
        buildid opts = prop plan_options "buildid")).
Proof.
  assert (truthy (prop plan_options "testplanid") = true) as H by reflexivity.
  split; [exact H|]. split; [eexists _, _; vm_compute; reflexivity|].
  exact (plan_mode_calls plan_options plan_run H).
Defined.

(** ** The order of provisioning *)


Lemma provisioning_safe (options : gmap string jsval) (ls : list label) :
  safe (fun _ _ => True) (fun _ _ => True) (provisioning_order options)
       options (run ls (fresh options)).
Proof.
  apply safe_from_fresh; try (intros; exact Logic.I); [| |apply respects_any].
  - intros gen caseId o w st Hgen _. unfold_step.
    destruct (this_testproject st); simpl; repeat split; intros; simpl; repeat split;
      intros; exact Logic.I.
  - intros _ o w st _. unfold_step. intros now.
    split; [split; [reflexivity | eexists; reflexivity]|]. split; [exact Logic.I|].
    intros [|e1 v1] t1 _ _; simpl; [exact Logic.I|].
    split.
    { repeat split. eexists w, _, _, e1, v1. split; [|reflexivity].
      symmetry. apply (List.app_assoc w [_] [_]). }
    split; [exact Logic.I|]. intros [|e2 v2] t2 _ _; simpl; [exact Logic.I|].
    split.
    { eexists _, _, e2, v2. symmetry. apply (List.app_assoc _ [_] [_]). }
    split; [exact Logic.I|]. intros; exact Logic.I.
Qed.

(** X14: the build is created only right after a plan was created and
    resolved with a non-empty list, under the id of its first element; the
    projects are listed only right after a build was created likewise; the
    plan is created under the prefix of the options with a name that starts
    with "Automated test plan ". *)
Theorem provisioning_in_order (options : gmap string jsval) (ls : list label) :
  (forall j o st name pfx,
     wire (run ls (fresh options)) !! j = Some (Issued o st (TestLink.createTestPlan name pfx)) ->
     pfx = prop options "prefix" /\ exists date, name = ("Automated test plan " ++ date)%string) /\
  (forall j o st plan name notes active open released,
     wire (run ls (fresh options)) !! j =
       Some (Issued o st (TestLink.createBuild plan name notes active open released)) ->
     exists i n p e es,
       j = S (S i) /\
       wire (run ls (fresh options)) !! i = Some (Issued o st (TestLink.createTestPlan n p)) /\
       wire (run ls (fresh options)) !! (S i) = Some (Answered (TestLink.Resolved (e :: es))) /\
       plan = id e) /\
  (forall j o st,
     wire (run ls (fresh options)) !! j = Some (Issued o st TestLink.getProjects) ->
     exists i plan e es,
       j = S (S i) /\
       wire (run ls (fresh options)) !! i =
         Some (Issued o st (TestLink.createBuild plan "automated build" "" true true "")) /\
       wire (run ls (fresh options)) !! (S i) = Some (Answered (TestLink.Resolved (e :: es)))).
Proof.
  destruct (provisioning_safe options ls) as (_ & _ & _ & _ & Hw).
  split; [|split].
  - intros j o st name pfx Hj. apply (Hw j o st _ Hj).
  - intros j o st plan name notes active open released Hj.
    destruct (Hw j o st _ Hj) as (_ & _ & _ & _ & _ & w0 & n & p & e & es & Htake & Hplan).
    destruct (two_before _ _ _ _ _ _ Hj Htake) as (i & -> & Hi & HSi).
    exists i, n, p, e, es. repeat split; assumption.
  - intros j o st Hj.
    destruct (Hw j o st _ Hj) as (w0 & plan & e & es & Htake).
    destruct (two_before _ _ _ _ _ _ Hj Htake) as (i & -> & Hi & HSi).
    exists i, plan, e, es. repeat split; assumption.
Qed.

Lemma provisioning_in_order_witness :
  (exists o st,
     wire (run xpj_run (fresh xpj_options)) !! 4 =
       Some (Issued o st (TestLink.createBuild (JNum 7) "automated build" "" true true ""))) /\
  (forall o st,
     wire (run xpj_run (fresh xpj_options)) !! 4 =
       Some (Issued o st (TestLink.createBuild (JNum 7) "automated build" "" true true "")) ->
     exists i n p e es,
       4 = S (S i) /\
       wire (run xpj_run (fresh xpj_options)) !! i =
         Some (Issued o st (TestLink.createTestPlan n p)) /\
       wire (run xpj_run (fresh xpj_options)) !! (S i) =
         Some (Answered (TestLink.Resolved (e :: es))) /\
       JNum 7 = id e).
Proof.
  split; [eexists _, _; vm_compute; reflexivity|].
  intros o st H.
  exact (proj1 (proj2 (provisioning_in_order xpj_options xpj_run)) 4 o st _ _ _ _ _ _ H).
Defined.

(** ** Before the first event *)


Lemma only_checked_step (options : gmap string jsval) (l : label) (r : Reporter) :
  quiet l -> only_checked options r -> only_checked options (step l r).
Proof.
  intros Hq (Ho & Ht & Hb & He & Hst & Hsk & Hcase).
  destruct l as [ev|now a|now]; [elim (Hq ev eq_refl)| |]; simpl.
  - unfold settle. destruct Hcase as [(Hh & Hc & Hw)|(a' & s & Hh & Hc & Hw)]; rewrite Hh.
    + destruct a as [v|e]; simpl; (repeat split; try assumption); right;
        eexists _, _; (split; [reflexivity|]); rewrite Hc, Hw; split; auto.
    + repeat split; try assumption. right. exists a', s. repeat split; assumption.
  - unfold tick. destruct Hcase as [(Hh & Hc & Hw)|(a' & s & Hh & Hc & Hw)]; rewrite Hh.
    + repeat split; try assumption. left. repeat split; assumption.
    + destruct Hc as [Hc|[Hc ->]]; rewrite Hc.
      * destruct s; simpl; (repeat split; try assumption); right;
          exists a', Fulfilled; (split; [reflexivity|]);
          (split; [right; split; reflexivity | exact Hw]).
      * repeat split; try assumption. right. exists a', Fulfilled.
        split; [exact Hh|]. split; [right; split; [exact Hc | reflexivity] | exact Hw].
Qed.

Lemma only_checked_run (options : gmap string jsval) (pre : list label) :
  Forall quiet pre -> only_checked options (run pre (fresh options)).
Proof.
  assert (only_checked options (fresh options)) as H0.
  { repeat split. left. repeat split. }
  revert H0. generalize (fresh options). induction pre as [|l pre IH]; intros r Hr Hq;
    [exact Hr|].
  apply Forall_cons in Hq. destruct Hq as [Hl Hq]. simpl.
  apply IH; [apply only_checked_step; assumption | exact Hq].
Qed.

Lemma adopted_safe (options : gmap string jsval) (pre ls : list label) :
  truthy (prop options "testplanid") = true -> Forall quiet pre ->
  safe (fun _ t => t = adopted options) (fun _ _ => True) (reports_adopted options)
       options (run (pre ++ Emit EVENT_RUN_BEGIN :: ls) (fresh options)).
Proof.
  intros Hplan Hpre. rewrite run_app. simpl.
  apply safe_run; try (intros; assumption); [| | | |apply respects_any].
  - intros _ w t ->. reflexivity.
  - intros gen caseId o w st Hgen ->. unfold_step.
    destruct (listener_gen_fields gen (adopted options) caseId Hgen) as (_ & Hp & Hb).
    split; [right; eexists; repeat split; assumption|].
    split; [reflexivity|]. intros v t _ Ht. exact Ht.
  - intros Hauto. rewrite Hplan in Hauto. discriminate Hauto.
  - destruct (only_checked_run options pre Hpre) as (Ho & Ht & Hb & He & Hst & Hsk & Hcase).
    unfold emit. simpl. rewrite Hb. rewrite Ho. unfold createTestPlan. rewrite Hplan.
    split; [exact Ho|]. simpl. rewrite Ht. split; [reflexivity|].
    destruct Hcase as [(Hh & Hc & Hw)|(a' & s & Hh & Hc & Hw)]; rewrite Hh, Hw.
    + split; [rewrite Hc; repeat constructor|]. split.
      * exists [], TestLink.checkDevKey. split; [reflexivity|]. intros v t _ Hadopt. exact Hadopt.
      * intros [|j] o st c Hj; [|discriminate]. injection Hj as <- <- <-. left. reflexivity.
    + split; [destruct Hc as [->|[-> _]]; repeat constructor|]. split; [exact Logic.I|].
      intros [|[|j]] o st c Hj; try discriminate. injection Hj as <- <- <-. left. reflexivity.
Qed.

(** X13: with a plan id in the options, when the run begins before any other
    event, the fields hold the ids of the options from then on and every
    result that is reported carries them. *)
Theorem plan_mode_reports_adopted (options : gmap string jsval) (pre ls : list label) :
  truthy (prop options "testplanid") = true -> Forall quiet pre ->
  this (run (pre ++ Emit EVENT_RUN_BEGIN :: ls) (fresh options)) = adopted options /\
  forall j o st opts,
    wire (run (pre ++ Emit EVENT_RUN_BEGIN :: ls) (fresh options)) !! j =
      Some (Issued o st (TestLink.reportTCResult opts)) ->
    testplanid opts = prop options "testplanid" /\
    buildid opts = prop options "buildid".
Proof.
  intros Hplan Hpre.
  destruct (adopted_safe options pre ls Hplan Hpre) as (_ & Hi & _ & _ & Hw).
  split; [exact Hi|]. intros j o st opts Hj.
  destruct (Hw j o st _ Hj) as [[=]|(opts' & [= <-] & H)]. exact H.
Qed.

Lemma plan_mode_reports_adopted_witness :
  (truthy (prop plan_options "testplanid") = true /\
   Forall quiet [Settle "2020-01-01T00:00:00.000Z" (TestLink.Resolved [])]) /\
  this (run (Settle "2020-01-01T00:00:00.000Z" (TestLink.Resolved []) :: plan_run)
            (fresh plan_options)) = adopted plan_options /\
  (forall j o st opts,
     wire (run (Settle "2020-01-01T00:00:00.000Z" (TestLink.Resolved []) :: plan_run)
               (fresh plan_options)) !! j =
       Some (Issued o st (TestLink.reportTCResult opts)) ->
     testplanid opts = JStr "14" /\ buildid opts = JStr "1").
Proof.
  assert (truthy (prop plan_options "testplanid") = true) as H by reflexivity.
  assert (Forall quiet [Settle "2020-01-01T00:00:00.000Z" (TestLink.Resolved [])]) as Hq.
  { repeat constructor. intros ev Hev. discriminate Hev. }
  split; [split; assumption|].
  exact (plan_mode_reports_adopted plan_options
           [Settle "2020-01-01T00:00:00.000Z" (TestLink.Resolved [])] (List.tl plan_run) H Hq).
Defined.

(** ** Provisioning that fails *)


Lemma plan_fails_safe (options : gmap string jsval) (ls : list label) :
  truthy (prop options "testplanid") = false ->
  respects plan_fails ls (fresh options) ->
  safe unassigned plan_fails without_plan options (run ls (fresh options)).
Proof.
  intros Hauto. apply safe_from_fresh; try (intros; assumption); try reflexivity.
  - split; [reflexivity | left; reflexivity].
  - intros Hplan. rewrite Hauto in Hplan. discriminate Hplan.
  - intros gen caseId o w st Hgen ->. unfold_step.
    destruct (listener_gen_fields gen this0 caseId Hgen) as (_ & Hp & Hb).
    split; [split; [reflexivity | right; right; eexists; repeat split; assumption]|].
    split; [reflexivity|]. intros v t _ Ht. exact Ht.
  - intros _ o w st ->. unfold_step. intros now.
    split; [split; [reflexivity | right; left; eexists _, _; reflexivity]|].
    split; [reflexivity|]. intros v t Hv Ht. rewrite (Hv _ _ eq_refl). simpl. exact Ht.
Qed.

(** X15: without a plan id in the options, while the plan cannot be created
    the fields are never assigned: only the key check, plan creation and
    results go out, and every result that is reported carries an undefined
    plan id and an undefined build id. *)
Theorem plan_creation_fails (options : gmap string jsval) (ls : list label) :
  truthy (prop options "testplanid") = false ->
  respects plan_fails ls (fresh options) ->
  this (run ls (fresh options)) = this0 /\
  forall j o st c,
    wire (run ls (fresh options)) !! j = Some (Issued o st c) ->
    c = TestLink.checkDevKey \/
    (exists n p, c = TestLink.createTestPlan n p) \/
    exists opts, c = TestLink.reportTCResult opts /\
      testplanid opts = JUndefined /\ buildid opts = JUndefined.
Proof.
  intros Hauto Hls. destruct (plan_fails_safe options ls Hauto Hls) as (_ & Hi & _ & _ & Hw).
  split; [exact Hi|]. intros j o st c Hj. apply (Hw j o st c Hj).
Qed.

Lemma plan_creation_fails_witness :
  (truthy (prop xpj_options "testplanid") = false /\
   respects plan_fails noplan_run (fresh xpj_options)) /\
  (exists o st,
     wire (run noplan_run (fresh xpj_options)) !! 4 =
       Some (Issued o st
               (TestLink.reportTCResult
                  (mkOptions "XPJ-5" JUndefined PASSED JUndefined 0.02%float (Some "") [])))) /\
  this (run noplan_run (fresh xpj_options)) = this0 /\
  (forall j o st c,
     wire (run noplan_run (fresh xpj_options)) !! j = Some (Issued o st c) ->
     c = TestLink.checkDevKey \/
     (exists n p, c = TestLink.createTestPlan n p) \/
     exists opts, c = TestLink.reportTCResult opts /\
       testplanid opts = JUndefined /\ buildid opts = JUndefined).
Proof.
  assert (truthy (prop xpj_options "testplanid") = false) as Hauto by reflexivity.
  assert (respects plan_fails noplan_run (fresh xpj_options)) as Hls.
  { repeat split. }
  split; [split; assumption|]. split; [eexists _, _; vm_compute; reflexivity|].
  exact (plan_creation_fails xpj_options noplan_run Hauto Hls).
Defined.

Lemma build_fails_safe (options : gmap string jsval) (ls : list label) :
  truthy (prop options "testplanid") = false ->
  respects build_fails ls (fresh options) ->
  safe no_build build_fails without_build options (run ls (fresh options)).
Proof.
  intros Hauto. apply safe_from_fresh; try (intros; assumption).
  - split; reflexivity.
  - split; [reflexivity | exact Logic.I].
  - intros Hplan. rewrite Hauto in Hplan. discriminate Hplan.
  - intros gen caseId o w st Hgen [Hproj Hbuild]. unfold_step. rewrite Hproj. simpl.
    destruct (listener_gen_fields gen st caseId Hgen) as (_ & _ & Hb).
    split; [split; [exact Hproj | rewrite Hb; exact Hbuild]|].
    split; [split; assumption|]. intros v t _ Ht. exact Ht.
  - intros _ o w st [Hproj Hbuild]. unfold_step. intros now.
    split; [split; [exact Hproj | exact Logic.I]|]. split; [split; assumption|].
    intros [|e1 v1] t1 _ [Hp1 Hb1]; simpl; [split; assumption|].
    split; [split; [exact Hproj | exact Logic.I]|]. split; [split; assumption|].
    intros v2 t2 Hv2 Ht2. rewrite (Hv2 _ _ _ _ _ _ eq_refl). simpl. exact Ht2.
Qed.

(** X16: without a plan id in the options, while the build cannot be created
    the projects are never listed, no project is resolved, no case is added
    to a plan, and every result that is reported carries an undefined build
    id. *)
Theorem build_creation_fails (options : gmap string jsval) (ls : list label) :
  truthy (prop options "testplanid") = false ->
  respects build_fails ls (fresh options) ->
  this_testproject (this (run ls (fresh options))) = None /\
  this_buildid (this (run ls (fresh options))) = JUndefined /\
  forall j o st c,
    wire (run ls (fresh options)) !! j = Some (Issued o st c) ->
    c <> TestLink.getProjects /\
    (forall a b d e, c <> TestLink.addTestCaseToTestPlan a b d e) /\
    (forall opts, c = TestLink.reportTCResult opts -> buildid opts = JUndefined).
Proof.
  intros Hauto Hls.
  destruct (build_fails_safe options ls Hauto Hls) as (_ & [Hp Hb] & _ & _ & Hw).
  split; [exact Hp|]. split; [exact Hb|]. intros j o st c Hj.
  destruct (Hw j o st c Hj) as [_ Hc]. destruct c; simpl in Hc; try contradiction;
    (split; [discriminate|]); (split; [discriminate|]); intros opts' [=]; subst; assumption.
Qed.

Lemma build_creation_fails_witness :
  (truthy (prop xpj_options "testplanid") = false /\
   respects build_fails nobuild_run (fresh xpj_options)) /\
  (exists o st,
     wire (run nobuild_run (fresh xpj_options)) !! 6 =
       Some (Issued o st
               (TestLink.reportTCResult
                  (mkOptions "XPJ-5" (JNum 7) PASSED JUndefined 0.02%float (Some "") [])))) /\
  this_testproject (this (run nobuild_run (fresh xpj_options))) = None /\
  this_buildid (this (run nobuild_run (fresh xpj_options))) = JUndefined /\
  (forall j o st c,
     wire (run nobuild_run (fresh xpj_options)) !! j = Some (Issued o st c) ->
     c <> TestLink.getProjects /\
     (forall a b d e, c <> TestLink.addTestCaseToTestPlan a b d e) /\
     (forall opts, c = TestLink.reportTCResult opts -> buildid opts = JUndefined)).
Proof.
  assert (truthy (prop xpj_options "testplanid") = false) as Hauto by reflexivity.
  assert (respects build_fails nobuild_run (fresh xpj_options)) as Hls.
  { repeat split.
    intros c Hc plan n s a b d Heq. vm_compute in Hc. congruence. }
  split; [split; assumption|]. split; [eexists _, _; vm_compute; reflexivity|].
  exact (build_creation_fails xpj_options nobuild_run Hauto Hls).
Defined.

(** ** One plan per run *)


Lemma plans_on_app (w1 w2 : list entry) : plans_on (w1 ++ w2) = plans_on w1 + plans_on w2.
Proof.
  induction w1 as [|[o st c|a] w1 IH]; simpl; [reflexivity | rewrite IH; lia | exact IH].
Qed.

Lemma run_sync_plans (now : string) (n : nat) (p : prog unit) (t : This) :
  plans_le n p -> plans_left n (run_sync now p t).
Proof.
  revert t. induction p as [a|e|k IH|t' k IH|k IH|c k IH]; intros t H; simpl in *;
    try exact Logic.I; try (apply IH, H).
  destruct (creates_plan c); [|exact H].
  destruct n as [|m]; [contradiction|]. exists m. split; [reflexivity | exact H].
Qed.

Lemma one_plan_suspend (o : origin) (st : This) (rest : list link)
    (ts : This * suspended) (r : Reporter) (bs : list nat) (n : nat) :
  Forall2 link_plans_le bs rest -> plans_left n ts ->
  plans_on (wire r) + n + sum_list bs <= (if begun r then 1 else 0) ->
  one_plan (suspend o st rest ts r).
Proof.
  intros Hbs Hts Hle. destruct ts as [t [|e|c k]]; simpl in *.
  - exists bs, 0. repeat split; [exact Hbs | simpl; lia].
  - exists bs, 0. repeat split; [exact Hbs | simpl; lia].
  - destruct (creates_plan c) eqn:Hc.
    + destruct Hts as (m & -> & Hk). exists bs, m. split; [exact Hbs|]. split; [exact Hk|].
      simpl. rewrite plans_on_app. simpl. rewrite Hc. lia.
    + exists bs, n. split; [exact Hbs|]. split; [exact Hts|].
      simpl. rewrite plans_on_app. simpl. rewrite Hc. lia.
Qed.

Lemma publishStep_no_plan (gen : This -> string -> Options) (caseId : string) :
  plans_le 0 (publishStep gen caseId).
Proof.
  unfold_step. intros t t'. destruct (this_testproject t'); simpl; intros; exact Logic.I.
Qed.

Lemma provisionStep_one_plan (options : gmap string jsval) :
  plans_le 1 (provisionStep options).
Proof.
  unfold_step. intros s [|e v]; simpl; [exact Logic.I|].
  intros t t' [|e' v']; simpl; [exact Logic.I|]. intros; exact Logic.I.
Qed.

Lemma sum_list_app (a b : list nat) : sum_list (a ++ b) = sum_list a + sum_list b.
Proof. induction a as [|x a IH]; simpl; [reflexivity | rewrite IH; lia]. Qed.

Lemma one_plan_chain (p : prog unit) (n : nat) (r : Reporter) :
  plans_le n p ->
  (exists (bs : list nat) (bh : nat),
    Forall2 link_plans_le bs (promiseChain r) /\
    match head r with
    | InFlight _ _ k => forall v, plans_le bh (k v)
    | Settled _ => True
    end /\
    plans_on (wire r) + bh + sum_list bs + n <= (if begun r then 1 else 0)) ->
  one_plan (chain p r).
Proof.
  intros Hp (bs & bh & Hbs & Hh & Hle). exists (bs ++ [n; 0]), bh. unfold chain. simpl.
  split; [apply Forall2_app; [exact Hbs | repeat constructor; exact Hp]|].
  split; [exact Hh|]. rewrite sum_list_app. simpl. lia.
Qed.

Lemma one_plan_emit (ev : event) (r : Reporter) : one_plan r -> one_plan (emit ev r).
Proof.
  intros Hr. unfold emit.
  assert (one_plan (count_event r)) as H1 by exact Hr.
  clear Hr. revert H1. generalize (count_event r). clear r. intros r Hr.
  assert (forall title gen, one_plan (publishTestResults title gen r)) as Hpub.
  { intros title gen. apply publish_invariant; [exact Hr|].
    intros caseId r' (bs & bh & Hbs & Hh & Hle).
    apply (one_plan_chain _ 0); [apply publishStep_no_plan|].
    exists bs, bh. repeat split; [exact Hbs | exact Hh | lia]. }
  destruct ev as [|suite|test|test err]; simpl; try apply Hpub.
  destruct (begun r) eqn:Hb; [exact Hr|]. unfold createTestPlan.
  destruct Hr as (bs & bh & Hbs & Hh & Hle). rewrite Hb in Hle.
  destruct (truthy _).
  - exists bs, bh. simpl. repeat split; [exact Hbs | exact Hh | lia].
  - apply (one_plan_chain _ 1); [apply provisionStep_one_plan|].
    exists bs, bh. simpl. repeat split; [exact Hbs | exact Hh | lia].
Qed.

Lemma one_plan_settle (now : string) (a : TestLink.outcome) (r : Reporter) :
  one_plan r -> one_plan (settle now a r).
Proof.
  intros Hr. pose proof Hr as (bs & bh & Hbs & Hh & Hle). unfold settle.
  destruct (head r) as [o st k|s] eqn:Hhead; [|exact Hr].
  destruct a as [v|e].
  - apply (one_plan_suspend _ _ _ _ _ bs bh); [exact Hbs | apply run_sync_plans, Hh|].
    simpl. rewrite plans_on_app. simpl. lia.
  - apply (one_plan_suspend _ _ _ _ _ bs bh); [exact Hbs | exact Logic.I|].
    simpl. rewrite plans_on_app. simpl. lia.
Qed.

Lemma one_plan_tick (now : string) (r : Reporter) : one_plan r -> one_plan (tick now r).
Proof.
  intros Hr. pose proof Hr as (bs & bh & Hbs & Hh & Hle). unfold tick.
  destruct (head r) as [o st k|[|e]] eqn:Hhead; [exact Hr| |];
    (destruct (promiseChain r) as [|[o p|] rest] eqn:Hc; [exact Hr| |]);
    inversion Hbs as [|b ? bs' ? Hb Hbs' Heq1 Heq2]; subst; simpl in Hle.
  - apply (one_plan_suspend _ _ _ _ _ bs' b); [exact Hbs' | apply run_sync_plans, Hb|].
    simpl. lia.
  - exists bs', 0. simpl. repeat split; [exact Hbs' | lia].
  - exists bs', 0. simpl. repeat split; [exact Hbs' | lia].
  - exists bs', 0. simpl. repeat split; [exact Hbs' | lia].
Qed.

Lemma one_plan_run (options : gmap string jsval) (ls : list label) :
  one_plan (run ls (fresh options)).
Proof.
  apply run_invariant.
  - exists [0], 0. simpl. split; [repeat constructor|]. split; [intros; exact Logic.I | lia].
  - intros [ev|now a|now] r Hr; simpl;
      [apply one_plan_emit | apply one_plan_settle | apply one_plan_tick]; exact Hr.
Qed.

Lemma plans_on_two (w : list entry) (i j : nat) (o1 o2 : origin) (s1 s2 : This)
    (c1 c2 : TestLink.call) :
  w !! i = Some (Issued o1 s1 c1) -> w !! j = Some (Issued o2 s2 c2) ->
  creates_plan c1 = true -> creates_plan c2 = true -> i < j -> 2 <= plans_on w.
Proof.
  revert i j. induction w as [|x w IH]; intros i j Hi Hj H1 H2 Hlt; [discriminate|].
  destruct j as [|j]; [lia|]. destruct i as [|i].
  - injection Hi as ->. simpl. rewrite H1. simpl in Hj.
    assert (1 <= plans_on w); [|lia].
    clear -Hj H2. revert j Hj. induction w as [|y w IH]; intros j Hj; [discriminate|].
    destruct j as [|j].
    + injection Hj as ->. simpl. rewrite H2. lia.
    + specialize (IH j Hj). destruct y; simpl; lia.
  - simpl in Hi, Hj. specialize (IH i j Hi Hj H1 H2 ltac:(lia)). destruct x; simpl; lia.
Qed.

(** X17: in a run at most one plan is asked for, however often the run
    begins, and none before it begins; at most one build is created and the
    projects are listed at most once. *)
Theorem one_plan_per_run (options : gmap string jsval) (ls : list label) :
  (forall i j o1 s1 n1 p1 o2 s2 n2 p2,
     wire (run ls (fresh options)) !! i = Some (Issued o1 s1 (TestLink.createTestPlan n1 p1)) ->
     wire (run ls (fresh options)) !! j = Some (Issued o2 s2 (TestLink.createTestPlan n2 p2)) ->
     i = j) /\
  (forall i j o1 s1 t1 n1 x1 a1 b1 d1 o2 s2 t2 n2 x2 a2 b2 d2,
     wire (run ls (fresh options)) !! i =
       Some (Issued o1 s1 (TestLink.createBuild t1 n1 x1 a1 b1 d1)) ->
     wire (run ls (fresh options)) !! j =
       Some (Issued o2 s2 (TestLink.createBuild t2 n2 x2 a2 b2 d2)) ->
     i = j) /\
  (forall i j o1 s1 o2 s2,
     wire (run ls (fresh options)) !! i = Some (Issued o1 s1 TestLink.getProjects) ->
     wire (run ls (fresh options)) !! j = Some (Issued o2 s2 TestLink.getProjects) ->
     i = j) /\
  (begun (run ls (fresh options)) = false ->
   forall i o s n p,
     wire (run ls (fresh options)) !! i <> Some (Issued o s (TestLink.createTestPlan n p))).
Proof.
  destruct (one_plan_run options ls) as (bs & bh & _ & _ & Hle).
  destruct (provisioning_safe options ls) as (_ & _ & _ & _ & Hw).
  set (r := run ls (fresh options)) in *.
  assert (forall i j o1 s1 n1 p1 o2 s2 n2 p2,
     wire r !! i = Some (Issued o1 s1 (TestLink.createTestPlan n1 p1)) ->
     wire r !! j = Some (Issued o2 s2 (TestLink.createTestPlan n2 p2)) ->
     i = j) as Hplan.
  { intros i j o1 s1 n1 p1 o2 s2 n2 p2 Hi Hj.
    assert (plans_on (wire r) <= 1) as H1 by (destruct (begun r); lia).
    destruct (Nat.lt_trichotomy i j) as [Hlt|[Heq|Hgt]]; [|exact Heq|].
    - pose proof (plans_on_two _ _ _ _ _ _ _ _ _ Hi Hj eq_refl eq_refl Hlt). lia.
    - pose proof (plans_on_two _ _ _ _ _ _ _ _ _ Hj Hi eq_refl eq_refl Hgt). lia. }
  assert (forall i j o1 s1 t1 n1 x1 a1 b1 d1 o2 s2 t2 n2 x2 a2 b2 d2,
     wire r !! i = Some (Issued o1 s1 (TestLink.createBuild t1 n1 x1 a1 b1 d1)) ->
     wire r !! j = Some (Issued o2 s2 (TestLink.createBuild t2 n2 x2 a2 b2 d2)) ->
     i = j) as Hbuild.
  { intros i j o1 s1 t1 n1 x1 a1 b1 d1 o2 s2 t2 n2 x2 a2 b2 d2 Hi Hj.
    destruct (Hw i o1 s1 _ Hi) as (_ & _ & _ & _ & _ & w1 & m1 & q1 & e1 & es1 & Ht1 & _).
    destruct (Hw j o2 s2 _ Hj) as (_ & _ & _ & _ & _ & w2 & m2 & q2 & e2 & es2 & Ht2 & _).
    destruct (two_before _ _ _ _ _ _ Hi Ht1) as (i' & -> & Hi' & _).
    destruct (two_before _ _ _ _ _ _ Hj Ht2) as (j' & -> & Hj' & _).
    rewrite (Hplan _ _ _ _ _ _ _ _ _ _ Hi' Hj'). reflexivity. }
  split; [exact Hplan|]. split; [exact Hbuild|]. split.
  - intros i j o1 s1 o2 s2 Hi Hj.
    destruct (Hw i o1 s1 _ Hi) as (w1 & t1 & e1 & es1 & Ht1).
    destruct (Hw j o2 s2 _ Hj) as (w2 & t2 & e2 & es2 & Ht2).
    destruct (two_before _ _ _ _ _ _ Hi Ht1) as (i' & -> & Hi' & _).
    destruct (two_before _ _ _ _ _ _ Hj Ht2) as (j' & -> & Hj' & _).
    rewrite (Hbuild _ _ _ _ _ _ _ _ _ _ _ _ _ _ _ _ _ _ Hi' Hj'). reflexivity.
  - intros Hb i o s n p Hi. rewrite Hb in Hle.
    assert (1 <= plans_on (wire r)); [|lia].
    clear -Hi. revert i Hi. induction (wire r) as [|y w IH]; intros i Hi; [discriminate|].
    destruct i as [|i].
    + injection Hi as ->. simpl. lia.
    + specialize (IH i Hi). destruct y; simpl; lia.
Qed.

Lemma one_plan_per_run_witness :
  (exists o st n p,
     wire (run (xpj_run ++ [Emit EVENT_RUN_BEGIN]) (fresh xpj_options)) !! 2 =
       Some (Issued o st (TestLink.createTestPlan n p))) /\
  (forall j o st n p,
     wire (run (xpj_run ++ [Emit EVENT_RUN_BEGIN]) (fresh xpj_options)) !! j =
       Some (Issued o st (TestLink.createTestPlan n p)) -> j = 2).
Proof.
  assert (exists o st n p,
     wire (run (xpj_run ++ [Emit EVENT_RUN_BEGIN]) (fresh xpj_options)) !! 2 =
       Some (Issued o st (TestLink.createTestPlan n p))) as H.
  { eexists _, _, _, _; vm_compute; reflexivity. }
  split; [exact H|]. destruct H as (o0 & st0 & n0 & p0 & H0).
  intros j o st n p H.
  exact (proj1 (one_plan_per_run xpj_options (xpj_run ++ [Emit EVENT_RUN_BEGIN]))
           j 2 o st n p o0 st0 n0 p0 H H0).
Defined.

(** ** Provisioning comes first *)

Lemma wire_grows (l : label) (r : Reporter) :
  exists ext, wire (step l r) = wire r ++ ext.
Proof.
  destruct l as [ev|now a|now]; simpl.
  - exists []. rewrite app_nil_r. apply emit_chains_only.
  - unfold settle. destruct (head r) as [o st k|s]; [|exists []; rewrite app_nil_r; reflexivity].
    destruct a as [v|e]; simpl.
    + destruct (run_sync now (k v) (this r)) as [t [|e|c k']]; simpl;
        [exists [Answered (TestLink.Resolved v)]; reflexivity
        |exists [Answered (TestLink.Resolved v)]; reflexivity|].
      eexists. rewrite <- List.app_assoc. reflexivity.
    + eexists. reflexivity.
  - unfold tick. destruct (head r) as [o st k|[|e]];
      [exists []; rewrite app_nil_r; reflexivity| |];
      (destruct (promiseChain r) as [|[o p|] rest];
       [exists []; rewrite app_nil_r; reflexivity| |]);
      try (exists []; rewrite app_nil_r; reflexivity).
    destruct (run_sync now p (this r)) as [t [|e|c k']]; simpl;
      try (exists []; rewrite app_nil_r; reflexivity).
    eexists. reflexivity.
Qed.

Lemma reports_after_plan_grows (w ext : list entry) :
  reports_after_plan w -> 1 <= plans_on w -> reports_after_plan (w ++ ext).
Proof.
  intros Hw H1 j o st opts Hj. destruct (decide (j < length w)) as [Hlt|Hge].
  - rewrite take_app_le by lia. apply (Hw j o st opts).
    rewrite lookup_app_l in Hj by exact Hlt. exact Hj.
  - rewrite take_app_ge by lia. rewrite plans_on_app. lia.
Qed.

Lemma reports_after_plan_snoc (w : list entry) (x : entry) :
  reports_after_plan w -> (forall o st opts, x <> Issued o st (TestLink.reportTCResult opts)) ->
  reports_after_plan (w ++ [x]).
Proof.
  intros Hw Hx j o st opts Hj. apply lookup_app_Some in Hj.
  destruct Hj as [Hj|[Hlen Hj]].
  - rewrite take_app_le by (apply lookup_lt_Some in Hj; lia). apply (Hw j o st opts Hj).
  - destruct (j - length w) as [|n]; [|discriminate]. injection Hj as ->.
    elim (Hx o st opts eq_refl).
Qed.

Lemma plan_first_step (options : gmap string jsval) (l : label) (r : Reporter) :
  plan_first options r -> plan_first options (step l r).
Proof.
  intros [Hw [H1|Hnext]].
  - destruct (wire_grows l r) as [ext Hext]. split.
    + rewrite Hext. apply reports_after_plan_grows; assumption.
    + left. rewrite Hext, plans_on_app. lia.
  - destruct Hnext as (o & rest & Hcase). destruct l as [ev|now a|now].
    + change (step (Emit ev) r) with (emit ev r).
      destruct (emit_chains_only ev r) as (Hh & Hwire & _ & _ & _ & added & Hc).
      split; [rewrite Hwire; exact Hw|]. right. exists o, (rest ++ added).
      rewrite Hh, Hc. destruct Hcase as [[H1 H2]|[(s & H1 & H2)|[H1 H2]]]; rewrite H2.
      * left. split; [exact H1 | reflexivity].
      * right. left. exists s. split; [exact H1 | reflexivity].
      * right. right. split; [exact H1 | reflexivity].
    + change (step (Settle now a) r) with (settle now a r).
      unfold settle. destruct Hcase as [[H1 H2]|[(s & H1 & H2)|[H1 H2]]]; rewrite H1.
      * destruct a as [v|e]; simpl;
          (split; [apply reports_after_plan_snoc; [exact Hw | discriminate]|]);
          right; exists o, rest; right; left; eexists; (split; [reflexivity | exact H2]).
      * split; [exact Hw|]. right. exists o, rest. right. left. exists s. split; assumption.
      * split; [exact Hw|]. right. exists o, rest. right. right. split; assumption.
    + change (step (Tick now) r) with (tick now r).
      unfold tick. destruct Hcase as [[H1 H2]|[(s & H1 & H2)|[H1 H2]]].
      * rewrite H1. split; [exact Hw|]. right. exists o, rest. left. split; assumption.
      * rewrite H1, H2.
        destruct s; simpl; (split; [exact Hw|]); right; exists o, rest; right; right;
          (split; reflexivity).
      * rewrite H1, H2. unfold_step.
        split; [apply reports_after_plan_snoc; [exact Hw | discriminate]|].
        left. cbn [wire]. rewrite plans_on_app. simpl. lia.
Qed.

Lemma plans_on_pos (w : list entry) :
  1 <= plans_on w ->
  exists i o st n p, w !! i = Some (Issued o st (TestLink.createTestPlan n p)).
Proof.
  induction w as [|x w IH]; simpl; [lia|]. intros H.
  destruct x as [o st c|a].
  - destruct c; simpl in H; try (destruct (IH ltac:(lia)) as (i & o' & st' & n & p & Hi);
      exists (S i), o', st', n, p; exact Hi).
    exists 0, o, st. eexists _, _. reflexivity.
  - destruct (IH H) as (i & o' & st' & n & p & Hi). exists (S i), o', st', n, p. exact Hi.
Qed.

(** X18: without a plan id in the options, when the run begins before any
    other event, no result is reported before the plan was asked for. *)
Theorem provisioning_precedes_results (options : gmap string jsval) (pre ls : list label) :
  truthy (prop options "testplanid") = false -> Forall quiet pre ->
  forall j o st opts,
    wire (run (pre ++ Emit EVENT_RUN_BEGIN :: ls) (fresh options)) !! j =
      Some (Issued o st (TestLink.reportTCResult opts)) ->
    exists i o' st' n p,
      i < j /\
      wire (run (pre ++ Emit EVENT_RUN_BEGIN :: ls) (fresh options)) !! i =
        Some (Issued o' st' (TestLink.createTestPlan n p)).
Proof.
  intros Hauto Hpre.
  assert (plan_first options (run (pre ++ Emit EVENT_RUN_BEGIN :: ls) (fresh options)))
    as [Hw _].
  { rewrite run_app. simpl. apply run_invariant; [|intros l r; apply plan_first_step].
    destruct (only_checked_run options pre Hpre) as (Ho & Ht & Hb & He & Hst & Hsk & Hcase).
    unfold emit. simpl. rewrite Hb, Ho. unfold createTestPlan. rewrite Hauto. simpl.
    unfold plan_first, provisioning_next, chain, mark_begun, count_event. simpl.
    destruct Hcase as [(Hh & Hc & Hwire)|(a' & s & Hh & Hc & Hwire)]; rewrite Hwire.
    - split; [intros [|j] o st opts Hj; discriminate|]. right. eexists _, _. left.
      rewrite Hh, Hc. split; reflexivity.
    - split; [intros [|[|j]] o st opts Hj; discriminate|]. right. eexists _, _.
      destruct Hc as [Hc|[Hc ->]]; rewrite Hh, Hc.
      + right. left. exists s. split; reflexivity.
      + right. right. split; reflexivity. }
  intros j o st opts Hj. destruct (plans_on_pos _ (Hw j o st opts Hj)) as (i & o' & st' & n & p & Hi).
  exists i, o', st', n, p. apply lookup_take_Some in Hi. destruct Hi as [Hi Hlt].
  split; assumption.
Qed.

Lemma provisioning_precedes_results_witness :
  (truthy (prop xpj_options "testplanid") = false /\
   Forall quiet [Settle "2020-01-01T00:00:00.000Z" (TestLink.Resolved [])]) /\
  exists j o st opts,
    wire (run (Settle "2020-01-01T00:00:00.000Z" (TestLink.Resolved []) :: xpj_run)
              (fresh xpj_options)) !! j =
      Some (Issued o st (TestLink.reportTCResult opts)) /\
    exists i o' st' n p,
      i < j /\
      wire (run (Settle "2020-01-01T00:00:00.000Z" (TestLink.Resolved []) :: xpj_run)
                (fresh xpj_options)) !! i =
        Some (Issued o' st' (TestLink.createTestPlan n p)).
Proof.
  assert (truthy (prop xpj_options "testplanid") = false) as Hauto by reflexivity.
  assert (Forall quiet [Settle "2020-01-01T00:00:00.000Z" (TestLink.Resolved [])]) as Hq.
  { repeat constructor. intros ev Hev. discriminate Hev. }
  split; [split; assumption|].
  assert (exists j o st opts,
    wire (run (Settle "2020-01-01T00:00:00.000Z" (TestLink.Resolved []) :: xpj_run)
              (fresh xpj_options)) !! j =
      Some (Issued o st (TestLink.reportTCResult opts))) as (j & o & st & opts & H).
  { exists 10. eexists _, _, _. vm_compute. reflexivity. }
  exists j, o, st, opts. split; [exact H|].
  exact (provisioning_precedes_results xpj_options
           [Settle "2020-01-01T00:00:00.000Z" (TestLink.Resolved [])] (List.tl xpj_run)
           Hauto Hq j o st opts H).
Defined.

(** ** The older reporter *)

Lemma legacy_publish_invariant (P : Reporter -> Prop) (title : string)
    (optionsGen : This -> string -> Options) (r : Reporter) :
  P r ->
  (forall caseId r', P r' ->
     P (chain (Legacy.reportStep (optionsGen (this r') caseId)) r')) ->
  P (Legacy.publishTestResults title optionsGen r).
Proof.
  intros Hr Hchain. unfold Legacy.publishTestResults.
  generalize (titleToCaseIds title). intros ids.
  revert r Hr. induction ids as [|c ids IH]; intros r Hr; [exact Hr|].
  simpl. apply IH, Hchain, Hr.
Qed.

Lemma legacy_run_app (ls1 ls2 : list label) (r : Reporter) :
  Legacy.run (ls1 ++ ls2) r = Legacy.run ls2 (Legacy.run ls1 r).
Proof. unfold Legacy.run. apply fold_left_app. Qed.

Lemma legacy_run_invariant (P : Reporter -> Prop) (ls : list label) (r : Reporter) :
  P r -> (forall l r', P r' -> P (Legacy.step l r')) -> P (Legacy.run ls r).
Proof.
  intros Hr Hstep. revert r Hr. induction ls as [|l ls IH]; intros r Hr; [exact Hr|].
  simpl. apply IH, Hstep, Hr.
Qed.

Section OlderReporter.

Variable P : This -> Prop.
Hypothesis P_begun : P (Legacy.fields true).

Lemma built_chain (gen : This -> string -> Options) (caseId : string) (r : Reporter) :
  listener_gen gen -> Legacy.built_when_chained P r ->
  Legacy.built_when_chained P (chain (Legacy.reportStep (gen (this r) caseId)) r).
Proof.
  intros Hgen (Ht & Hp & Hch & Hh & Hw). unfold chain.
  split; [exact Ht|]. split; [exact Hp|]. split; [|split; assumption]. simpl.
  apply Forall_app. split; [exact Hch|]. constructor; [|constructor; [exact Logic.I|constructor]].
  exists (gen (this r) caseId). split; [reflexivity|].
  destruct (listener_gen_fields gen (this r) caseId Hgen) as (_ & Hplan & Hbuild).
  split; [exact Hp|]. split; [exact Hplan|]. simpl. rewrite Hbuild, Ht. reflexivity.
Qed.

Lemma built_publish (title : string) (gen : This -> string -> Options) (r : Reporter) :
  listener_gen gen -> Legacy.built_when_chained P r ->
  Legacy.built_when_chained P (Legacy.publishTestResults title gen r).
Proof.
  intros Hgen Hr. apply legacy_publish_invariant; [exact Hr|].
  intros caseId r' Hr'. apply built_chain; assumption.
Qed.

Lemma built_emit (ev : event) (r : Reporter) :
  Legacy.built_when_chained P r -> Legacy.built_when_chained P (Legacy.emit ev r).
Proof.
  intros Hr. unfold Legacy.emit.
  assert (Legacy.built_when_chained P (count_event r)) as H1 by exact Hr.
  clear Hr. revert H1. generalize (count_event r). clear r. intros r Hr.
  destruct ev as [|suite|test|test err]; simpl.
  - destruct (begun r) eqn:Hb; [exact Hr|].
    destruct Hr as (Ht & Hp & Hch & Hh & Hw). pose proof P_begun as Hbegun.
    unfold Legacy.built_when_chained. simpl. rewrite Ht, Hb. simpl.
    repeat split; assumption.
  - apply built_publish; [constructor | exact Hr].
  - apply built_publish; [constructor | exact Hr].
  - apply built_publish; [constructor | exact Hr].
Qed.

Lemma built_settle (now : string) (a : TestLink.outcome) (r : Reporter) :
  Legacy.built_when_chained P r -> Legacy.built_when_chained P (settle now a r).
Proof.
  intros Hr. pose proof Hr as (Ht & Hp & Hch & Hh & Hw). unfold settle.
  destruct (head r) as [o st k|s] eqn:Hhead; [|exact Hr].
  assert (forall j o st c, (wire r ++ [Answered a]) !! j = Some (Issued o st c) ->
            Legacy.call_eager P o c) as Hw'.
  { intros j o' st' c Hj. apply lookup_app_Some in Hj. destruct Hj as [Hj|[_ Hj]].
    - apply (Hw j o' st' c Hj).
    - destruct (j - length (wire r)) as [|n]; discriminate. }
  simpl in Hh.
  destruct a as [v|e]; simpl; [rewrite Hh; simpl|]; repeat split; assumption.
Qed.

Lemma built_tick (now : string) (r : Reporter) :
  Legacy.built_when_chained P r -> Legacy.built_when_chained P (tick now r).
Proof.
  intros Hr. pose proof Hr as (Ht & Hp & Hch & Hh & Hw). unfold tick.
  destruct (head r) as [o st k|[|e]] eqn:Hhead; [exact Hr| |];
    (destruct (promiseChain r) as [|[o step|] rest] eqn:Hc; [exact Hr| |]);
    apply Forall_cons in Hch; destruct Hch as [Hl Hrest];
    try (repeat split; simpl; assumption).
  destruct Hl as (opts & -> & Heager). simpl.
  split; [exact Ht|]. split; [exact Hp|]. split; [exact Hrest|].
  split; [intros v; reflexivity|].
  intros j o' st' c Hj. apply lookup_app_Some in Hj. destruct Hj as [Hj|[_ Hj]].
  - apply (Hw j o' st' c Hj).
  - destruct (j - length (wire r)) as [|n]; [|discriminate]. injection Hj as <- <- <-.
    right. exists opts. split; [reflexivity | exact Heager].
Qed.

Lemma built_step (l : label) (r : Reporter) :
  Legacy.built_when_chained P r -> Legacy.built_when_chained P (Legacy.step l r).
Proof.
  destruct l as [ev|now a|now]; [apply built_emit | apply built_settle | apply built_tick].
Qed.

End OlderReporter.

Lemma built_fresh :
  Legacy.built_when_chained (fun t => exists b, t = Legacy.fields b) Legacy.fresh.
Proof.
  split; [reflexivity|]. split; [exists false; reflexivity|]. split; [repeat constructor|].
  split; [intros v; reflexivity|].
  intros [|j] o st c Hj; [|discriminate]. injection Hj as <- <- <-. left. reflexivity.
Qed.

(** The older reporter while only the key check has happened. *)
Lemma legacy_quiet_run (pre : list label) :
  Forall quiet pre ->
  begun (Legacy.run pre Legacy.fresh) = false /\
  this (Legacy.run pre Legacy.fresh) = Legacy.this0 /\
  Forall (fun l => l = LCatch) (promiseChain (Legacy.run pre Legacy.fresh)) /\
  match head (Legacy.run pre Legacy.fresh) with
  | InFlight _ _ k => forall v, k v = Ret tt
  | Settled _ => True
  end /\
  (forall j o st c, wire (Legacy.run pre Legacy.fresh) !! j = Some (Issued o st c) ->
     c = TestLink.checkDevKey).
Proof.
  assert (begun Legacy.fresh = false /\ this Legacy.fresh = Legacy.this0 /\
          Forall (fun l => l = LCatch) (promiseChain Legacy.fresh) /\
          match head Legacy.fresh with
          | InFlight _ _ k => forall v, k v = Ret tt
          | Settled _ => True
          end /\
          (forall j o st c, wire Legacy.fresh !! j = Some (Issued o st c) ->
             c = TestLink.checkDevKey)) as H0.
  { repeat split; [repeat constructor|].
    intros [|j] o st c Hj; [|discriminate]. injection Hj as <- <- <-. reflexivity. }
  revert H0. generalize Legacy.fresh. induction pre as [|l pre IH]; intros r Hr Hq;
    [exact Hr|].
  apply Forall_cons in Hq. destruct Hq as [Hl Hq]. simpl. apply IH; [|exact Hq].
  pose proof Hr as (Hb & Ht & Hch & Hh & Hw).
  assert (forall a j o st c, (wire r ++ [Answered a]) !! j = Some (Issued o st c) ->
            c = TestLink.checkDevKey) as Hw'.
  { intros a j o' st' c Hj. apply lookup_app_Some in Hj. destruct Hj as [Hj|[_ Hj]].
    - apply (Hw j o' st' c Hj).
    - destruct (j - length (wire r)) as [|n]; discriminate. }
  destruct l as [ev|now a|now]; [elim (Hl ev); reflexivity| |]; simpl.
  - unfold settle. destruct (head r) as [o st k|s] eqn:Hhead;
      [|rewrite Hhead; exact Hr].
    simpl in Hh.
    destruct a as [v|e]; simpl; [rewrite Hh; simpl|]; repeat split; try assumption;
      apply Hw'.
  - unfold tick.
    destruct (head r) as [o st k|[|e]] eqn:Hhead; [rewrite Hhead; exact Hr| |];
      (destruct (promiseChain r) as [|[o step|] rest] eqn:Hc;
       [rewrite Hhead, Hc; exact Hr| |]);
      apply Forall_cons in Hch; destruct Hch as [Hl' Hrest]; try discriminate;
      repeat split; simpl; assumption.
Qed.

(** X19: the older reporter (src/index.js) only ever makes the key check and
    reports results; its build id is always 1 and its plan id is 14 from the
    moment the run begins; a result carries build id 1 and the plan id the
    fields held when the event was handled, undefined or 14, since the
    record is built before the step is chained. *)
Theorem older_reporter_calls (ls : list label) :
  this (Legacy.run ls Legacy.fresh) =
    mkThis (if begun (Legacy.run ls Legacy.fresh) then JNum 14 else JUndefined)
           (JNum 1) None /\
  forall j o st c,
    wire (Legacy.run ls Legacy.fresh) !! j = Some (Issued o st c) ->
    c = TestLink.checkDevKey \/
    exists opts,
      c = TestLink.reportTCResult opts /\
      testplanid opts = this_testplanid (enqueued_with o) /\
      (testplanid opts = JUndefined \/ testplanid opts = JNum 14) /\
      buildid opts = JNum 1.
Proof.
  assert (Legacy.built_when_chained (fun t => exists b, t = Legacy.fields b)
            (Legacy.run ls Legacy.fresh))
    as (Ht & _ & _ & _ & Hw).
  { apply legacy_run_invariant; [exact built_fresh|].
    intros l r. apply built_step. exists true. reflexivity. }
  split; [exact Ht|]. intros j o st c Hj.
  destruct (Hw j o st c Hj) as [Hc|(opts & Hc & [b Hb] & Hplan & Hbuild)];
    [left; exact Hc|].
  right. exists opts. split; [exact Hc|]. split; [exact Hplan|]. split; [|exact Hbuild].
  rewrite Hplan, Hb. destruct b; [right | left]; reflexivity.
Qed.

(** X21: in the older reporter, too, no step is skipped: a rejected promise
    has a [catch] as its next link, which logs the error and fulfils the
    chain. *)
Theorem older_reporter_rejections_logged (ls : list label) :
  skipped (Legacy.run ls Legacy.fresh) = [] /\
  (forall err,
     head (Legacy.run ls Legacy.fresh) = Settled (RejectedWith err) ->
     exists ch,
       promiseChain (Legacy.run ls Legacy.fresh) = LCatch :: ch /\
       forall now,
         head (tick now (Legacy.run ls Legacy.fresh)) = Settled Fulfilled /\
         console (tick now (Legacy.run ls Legacy.fresh))
           = console (Legacy.run ls Legacy.fresh) ++ [err] /\
         promiseChain (tick now (Legacy.run ls Legacy.fresh)) = ch).
Proof.
  assert (guarded (Legacy.run ls Legacy.fresh)) as Hg.
  { apply legacy_run_invariant.
    - split; [reflexivity|]. simpl. exists []. split; [reflexivity | constructor].
    - intros [ev|now a|now] r Hr; simpl;
        [|apply guarded_settle; exact Hr | apply guarded_tick; exact Hr].
      unfold Legacy.emit.
      assert (guarded (count_event r)) as H1 by exact Hr.
      clear Hr. revert H1. generalize (count_event r). clear r. intros r Hr.
      destruct ev as [|suite|test|test err]; simpl;
        try (apply legacy_publish_invariant;
             [exact Hr | intros; apply guarded_chain; assumption]).
      destruct (begun r); exact Hr. }
  set (r := Legacy.run ls Legacy.fresh) in *.
  split; [exact (proj1 Hg)|].
  intros err Hh. destruct Hg as [_ Hch]. rewrite Hh in Hch.
  destruct Hch as (ch & Hc & _). exists ch. split; [exact Hc|].
  intros now. unfold tick. rewrite Hh, Hc. simpl. repeat split.
Qed.

(** X20: when the run begins before any other event, every result the older
    reporter reports carries plan id 14 and build id 1. *)
Theorem older_reporter_begins_first (pre ls : list label) :
  Forall quiet pre ->
  forall j o st opts,
    wire (Legacy.run (pre ++ Emit EVENT_RUN_BEGIN :: ls) Legacy.fresh) !! j =
      Some (Issued o st (TestLink.reportTCResult opts)) ->
    testplanid opts = JNum 14 /\ buildid opts = JNum 1.
Proof.
  intros Hpre.
  assert (Legacy.built_when_chained (fun t => t = Legacy.fields true)
            (Legacy.run (pre ++ Emit EVENT_RUN_BEGIN :: ls) Legacy.fresh))
    as (_ & _ & _ & _ & Hw).
  { rewrite legacy_run_app. simpl. apply legacy_run_invariant;
      [|intros l r; apply built_step; reflexivity].
    destruct (legacy_quiet_run pre Hpre) as (Hb & Ht & Hch & Hh & Hw).
    unfold Legacy.emit. simpl. rewrite Hb. unfold Legacy.built_when_chained. simpl.
    rewrite Ht. simpl. split; [reflexivity|]. split; [reflexivity|].
    split; [|split; [exact Hh|]].
    - eapply Forall_impl; [exact Hch|]. intros l ->. exact Logic.I.
    - intros j o st c Hj. left. apply (Hw j o st c Hj). }
  intros j o st opts Hj.
  destruct (Hw j o st _ Hj) as [Hc|(opts' & Hc & Hp & Hplan & Hbuild)]; [discriminate|].
  injection Hc as <-. rewrite Hplan, Hp. split; [reflexivity | exact Hbuild].
Qed.

Lemma older_reporter_begins_first_witness :
  Forall quiet [Settle "2020-01-01T00:00:00.000Z" (TestLink.Resolved [])] /\
  exists j o st opts,
    wire (Legacy.run (Settle "2020-01-01T00:00:00.000Z" (TestLink.Resolved []) :: plan_run)
                     Legacy.fresh) !! j =
      Some (Issued o st (TestLink.reportTCResult opts)) /\
    opts = mkOptions "XPJ-5" (JNum 14) PASSED (JNum 1) 0.02%float (Some "") [].
Proof.
  assert (Forall quiet [Settle "2020-01-01T00:00:00.000Z" (TestLink.Resolved [])]) as Hq.
  { repeat constructor. intros ev Hev. discriminate Hev. }
  split; [exact Hq|].
  assert (exists j o st opts,
    wire (Legacy.run (Settle "2020-01-01T00:00:00.000Z" (TestLink.Resolved []) :: plan_run)
                     Legacy.fresh) !! j =
      Some (Issued o st (TestLink.reportTCResult opts)) /\
    testcaseexternalid opts = "XPJ-5" /\ status opts = PASSED /\
    execduration opts = 0.02%float /\ notes opts = Some "" /\ steps opts = [])
    as (j & o & st & opts & H & Hid & Hs & Hd & Hn & Hst).
  { exists 2. eexists _, _, _. vm_compute. repeat split. }
  exists j, o, st, opts. split; [exact H|].
  destruct (older_reporter_begins_first
              [Settle "2020-01-01T00:00:00.000Z" (TestLink.Resolved [])] (List.tl plan_run)
              Hq j o st opts H) as [Hplan Hbuild].
  destruct opts as [i p s b d n ss]. simpl in *. subst. reflexivity.
Defined.
